(** * Ahmed Interview Studio: the duplex realtime audio pipeline

    A shallow embedding of the handlers of [InterviewSession] (playback
    scheduling, microphone capture, mute and camera toggles, video track
    swaps, teardown, go-live, recording and its timer display), of
    [WelcomeScreen] ([handleEnter] and the camera preview) and of the
    [App] shell, with the properties the specification states about them
    and further properties read off the code.

    Conventions of the embedding.
    - A React ref [xRef] is a field [xRef] of a record; a [useState] cell
      [x] is a field [x]; a handler is a function from the record to the
      record.  Each module keeps the slice of the component's refs and
      state that its handlers read or write, plus the browser objects
      these refs point to.
    - JavaScript numbers that hold times (seconds on the output clock,
      buffer durations) are exact rationals [Q] in [Scheduler], whose
      properties depend only on the order of times, which the rounding
      of IEEE-754 doubles preserves.  [Scheduler64] is the same handler
      with binary64 numbers; what is said about the values the clock
      takes is said there.
    - An [async] handler is cut at its [await]: the part before it runs
      when the event is delivered, the part after it runs when the awaited
      promise settles, and other callbacks may run in between.  A
      handler run in one piece is the composition of the two parts. *)

From Stdlib Require Import QArith Qminmax Lqa ZArith Lia String Ascii.
From Stdlib Require DecimalString DecimalNat.
From Stdlib Require PrimFloat FloatAxioms SpecFloat Uint63.
From stdpp Require Import base option list gmap sorting.
Close Scope Q_scope.
#[global] Set Warnings "-inexact-float".

(** JavaScript truthiness of a string: every string but the empty one. *)
Definition truthy_string (s : string) : bool :=
  match s with
  | EmptyString => false
  | String _ _ => true
  end.

(** ** Browser objects shared by the handlers *)

(** A [MediaStreamTrack]: its kind, its [enabled] flag, its [readyState]
    and whether an [onended] callback has been assigned to it. *)
Inductive TrackKind := AudioKind | VideoKind.
Inductive ReadyState := Live | Ended.
Inductive Callback := CallStopScreenShare.

Record Track := mkTrack {
  kind : TrackKind;
  enabled : bool;
  readyState : ReadyState;
  onended : option Callback
}.

Definition is_audio (t : Track) : bool :=
  match kind t with AudioKind => true | VideoKind => false end.

Definition is_video (t : Track) : bool :=
  match kind t with VideoKind => true | AudioKind => false end.

Definition is_live (t : Track) : bool :=
  match readyState t with Live => true | Ended => false end.

(** [track.stop()]: the track ends; stopping an ended track changes
    nothing and raises nothing. *)
Definition stop_track (t : Track) : Track :=
  mkTrack (kind t) (enabled t) Ended (onended t).

(** [track.enabled = b] *)
Definition set_enabled (b : bool) (t : Track) : Track :=
  mkTrack (kind t) b (readyState t) (onended t).

(** [track.onended = cb] *)
Definition set_onended (cb : Callback) (t : Track) : Track :=
  mkTrack (kind t) (enabled t) (readyState t) (Some cb).

(** Track objects live in a store indexed by identity; a [MediaStream]
    is the ordered list of the identities of its tracks. *)
Abbreviation TrackStore := (list Track) (only parsing).
Abbreviation MediaStream := (list nat) (only parsing).

Definition has_kind (p : Track -> bool) (store : TrackStore) (i : nat) : bool :=
  match store !! i with
  | Some t => p t
  | None => false
  end.

(** [stream.getAudioTracks()], [stream.getVideoTracks()] *)
Definition getAudioTracks (store : TrackStore) (stream : MediaStream) : list nat :=
  List.filter (has_kind is_audio store) stream.

Definition getVideoTracks (store : TrackStore) (stream : MediaStream) : list nat :=
  List.filter (has_kind is_video store) stream.

(** [ids.forEach(track => f(track))] on the store. *)
Definition for_each_track (f : Track -> Track) (ids : list nat) (store : TrackStore)
  : TrackStore :=
  fold_left (fun st i => alter f i st) ids store.

(** ** Completions of JavaScript code that may throw *)

Inductive Completion (A : Type) :=
| Normal (a : A)
| Throw (e : string).
Arguments Normal {A} a.
Arguments Throw {A} e.

(** A computation over a state [St]: the state it leaves behind and how
    it completed.  Mutations made before a throw persist. *)
Definition Js (St A : Type) : Type := St -> Completion A * St.

Definition ret {St A} (a : A) : Js St A := fun s => (Normal a, s).

Definition throw {St A} (e : string) : Js St A := fun s => (Throw e, s).

Definition bind {St A B} (m : Js St A) (f : A -> Js St B) : Js St B :=
  fun s => match m s with
           | (Normal a, s1) => f a s1
           | (Throw e, s1) => (Throw e, s1)
           end.

Definition modify {St} (f : St -> St) : Js St unit := fun s => (Normal tt, f s).

Definition gets {St A} (f : St -> A) : Js St A := fun s => (Normal (f s), s).

(** [try { body } catch (e) { handler(e) }] *)
Definition try_catch {St A} (body : Js St A) (handler : string -> Js St A) : Js St A :=
  fun s => match body s with
           | (Normal a, s1) => (Normal a, s1)
           | (Throw e, s1) => handler e s1
           end.

(** Reading a property of, or calling a method on, [undefined]. *)
Definition defined {St A} (o : option A) : Js St A :=
  match o with
  | Some a => ret a
  | None => throw "TypeError"
  end.

Declare Scope js_scope.
Delimit Scope js_scope with js.
Notation "x <- m ;; k" := (bind m (fun x => k))
  (at level 100, m at next level, right associativity) : js_scope.
Notation "m ;;; k" := (bind m (fun _ => k))
  (at level 100, right associativity) : js_scope.

Definition state_of {St A} (r : Completion A * St) : St := snd r.

Definition threw {St A} (r : Completion A * St) : bool :=
  match fst r with
  | Throw _ => true
  | Normal _ => false
  end.

(** * Playback Scheduler and Interruption Handler ([onmessage]) *)

Module Scheduler.

(** Output sample rate the inbound speech is decoded at. *)
Definition SAMPLE_RATE_OUTPUT : positive := 24000.

(** A Web Audio [AudioBuffer]: a number of sample frames at a sample
    rate.  Its [duration] attribute is [length / sampleRate] seconds. *)
Record AudioBuffer := mkAudioBuffer {
  length : N;
  sampleRate : positive
}.

Definition duration (b : AudioBuffer) : Q := Z.of_N (length b) # sampleRate b.

(** What [onmessage] reads of a [LiveServerMessage]:
    [serverContent?.modelTurn?.parts?.[0]?.inlineData?.data] (absent when
    any link of the chain is) and [serverContent?.interrupted] (absent
    reads as false). *)
Record LiveServerMessage := mkMessage {
  inlineData : option string;
  interrupted : bool
}.

(** One call [source.start(when)] of a buffer source: the arrival index
    of the chunk it plays, the start time it was given and the duration
    of its buffer. *)
Record Scheduled := mkScheduled {
  chunk : nat;
  start : Q;
  span : Q
}.

Definition finish (x : Scheduled) : Q := (start x + span x)%Q.

(** An [onmessage] invocation suspended at [await decodeAudioData(...)]. *)
Record Suspended := mkSuspended {
  seq : nat;
  msg : LiveServerMessage;
  payload : string
}.

Record State := mkState {
  audioContextRef : option nat;      (* the output AudioContext, if any *)
  nextStartTimeRef : Q;
  aiIsSpeaking : bool;
  started : list Scheduled;          (* source.start calls, oldest first *)
  console : list string;             (* console.error lines *)
  pending : list Suspended;          (* invocations waiting on a decode *)
  arrivals : nat                     (* chunks received so far *)
}.

Definition set_next (t : Q) (s : State) : State :=
  mkState (audioContextRef s) t (aiIsSpeaking s) (started s) (console s)
          (pending s) (arrivals s).

Definition set_speaking (b : bool) (s : State) : State :=
  mkState (audioContextRef s) (nextStartTimeRef s) b (started s) (console s)
          (pending s) (arrivals s).

Definition push_started (x : Scheduled) (s : State) : State :=
  mkState (audioContextRef s) (nextStartTimeRef s) (aiIsSpeaking s)
          (started s ++ [x]) (console s) (pending s) (arrivals s).

Definition log_error (line : string) (s : State) : State :=
  mkState (audioContextRef s) (nextStartTimeRef s) (aiIsSpeaking s)
          (started s) (console s ++ [line]) (pending s) (arrivals s).

Definition set_pending (l : list Suspended) (s : State) : State :=
  mkState (audioContextRef s) (nextStartTimeRef s) (aiIsSpeaking s)
          (started s) (console s) l (arrivals s).

Definition count_arrival (s : State) : State :=
  mkState (audioContextRef s) (nextStartTimeRef s) (aiIsSpeaking s)
          (started s) (console s) (pending s) (S (arrivals s)).

(** The state the component starts in: [useRef<number>(0)], nothing
    scheduled, nothing logged. *)
Definition initial (ctx : option nat) : State :=
  mkState ctx 0%Q false [] [] [] 0.

Section Handler.

(** [decodeAudioData(decode(base64Audio), ctx, SAMPLE_RATE_OUTPUT, 1)] of
    [services/audioUtils]: the decoded buffer, or [None] when either call
    throws. *)
Variable decodeAudioData : string -> option AudioBuffer.

(** [if (message.serverContent?.interrupted) nextStartTimeRef.current = 0] *)
Definition interruption_check (m : LiveServerMessage) (s : State) : State :=
  if interrupted m then set_next 0%Q s else s.

(** [onmessage] up to its [await]; [now] is [ctx.currentTime] as read on
    line 188.  Returns the suspended invocation when the message carries
    audio and an output context exists; otherwise the handler has run to
    its end. *)
Definition onmessage_begin (m : LiveServerMessage) (now : Q) (s : State)
  : State * option Suspended :=
  match inlineData m, audioContextRef s with
  | Some base64Audio, Some _ =>
      if truthy_string base64Audio then
        let s1 := set_speaking true s in
        let s2 := set_next (Qmax (nextStartTimeRef s1) now) s1 in
        (count_arrival s2, Some (mkSuspended (arrivals s) m base64Audio))
      else (interruption_check m s, None)
  | _, _ => (interruption_check m s, None)
  end.

(** [onmessage] from the settling of the decode to its end: the rest of
    the [try] block or the [catch] block, then the interruption check. *)
Definition onmessage_resume (k : Suspended) (s : State) : State :=
  let s1 :=
    match decodeAudioData (payload k) with
    | Some audioBuffer =>
        let s' := push_started
                    (mkScheduled (seq k) (nextStartTimeRef s) (duration audioBuffer)) s in
        set_next (nextStartTimeRef s' + duration audioBuffer)%Q s'
    | None => log_error "Audio decoding error" s
    end in
  interruption_check (msg k) s1.

(** A message whose handler runs from start to end with no other
    callback in between (its decode settles before anything else
    happens). *)
Definition onmessage (m : LiveServerMessage) (now : Q) (s : State) : State :=
  match onmessage_begin m now s with
  | (s1, Some k) => onmessage_resume k s1
  | (s1, None) => s1
  end.

(** The event loop as seen by the scheduler. *)
Inductive Event :=
| Message (m : LiveServerMessage) (now : Q)  (* a message is delivered *)
| DecodeSettled (n : nat)                    (* the decode of chunk n settles *)
| SpeakingTimeout.                           (* the 200 ms timer fires *)

Fixpoint take_pending (n : nat) (l : list Suspended)
  : option (Suspended * list Suspended) :=
  match l with
  | [] => None
  | k :: rest =>
      if Nat.eqb (seq k) n then Some (k, rest)
      else match take_pending n rest with
           | Some (k', rest') => Some (k', k :: rest')
           | None => None
           end
  end.

Definition step (s : State) (e : Event) : State :=
  match e with
  | Message m now =>
      match onmessage_begin m now s with
      | (s1, Some k) => set_pending (pending s1 ++ [k]) s1
      | (s1, None) => s1
      end
  | DecodeSettled n =>
      match take_pending n (pending s) with
      | Some (k, rest) => onmessage_resume k (set_pending rest s)
      | None => s
      end
  | SpeakingTimeout => set_speaking false s
  end.

Definition run (trace : list Event) (s : State) : State :=
  fold_left step trace s.

End Handler.

(** No message of the trace carries the interruption flag. *)
Definition quiet_event (e : Event) : Prop :=
  match e with
  | Message m _ => interrupted m = false
  | _ => True
  end.

(** Start times do not decrease along the chunks' arrival order. *)
Definition arrival_monotone (l : list Scheduled) : Prop :=
  forall a b, In a l -> In b l -> (chunk a < chunk b)%nat -> (start a <= start b)%Q.




(** The invariant behind gapless scheduling: the buffers started so far
    follow one another without overlap, all of them end by
    [nextStartTimeRef], and no suspended invocation will reset the clock. *)
Record chained (s : State) : Prop := mkChained {
  chained_order :
    forall i j a b, (i < j)%nat -> started s !! i = Some a -> started s !! j = Some b ->
                    (finish a <= start b)%Q;
  chained_bound :
    forall i a, started s !! i = Some a -> (finish a <= nextStartTimeRef s)%Q;
  chained_span :
    forall i a, started s !! i = Some a -> (0 <= span a)%Q;
  chained_quiet :
    forall k, In k (pending s) -> interrupted (msg k) = false
}.

(** The same state with [l] put in front of its record of
    [source.start] calls.  No handler reads that record, so what a run
    does never depends on what is in front of it. *)
Definition prepend_started (l : list Scheduled) (s : State) : State :=
  mkState (audioContextRef s) (nextStartTimeRef s) (aiIsSpeaking s)
          (l ++ started s) (console s) (pending s) (arrivals s).

(** The same state with that record emptied: a run from it records
    exactly the buffers started during the run. *)
Definition forget_started (s : State) : State :=
  mkState (audioContextRef s) (nextStartTimeRef s) (aiIsSpeaking s)
          [] (console s) (pending s) (arrivals s).

(** The clock is not behind [t], no buffer on record starts before [t],
    and no suspended invocation will reset the clock. *)
Record not_before (t : Q) (s : State) : Prop := mkNotBefore {
  not_before_clock : (t <= nextStartTimeRef s)%Q;
  not_before_started : forall x, In x (started s) -> (t <= start x)%Q;
  not_before_quiet : forall k, In k (pending s) -> interrupted (msg k) = false
}.

(** A decoder for examples: the payloads "A", "B", "C" and "D" decode to
    0.5 s, 0.3 s, 0.4 s and 0.2 s of audio at the output rate; every
    other payload fails to decode. *)
Definition sample_decoder (data : string) : option AudioBuffer :=
  if String.eqb data "A" then Some (mkAudioBuffer 12000 SAMPLE_RATE_OUTPUT)
  else if String.eqb data "B" then Some (mkAudioBuffer 7200 SAMPLE_RATE_OUTPUT)
  else if String.eqb data "C" then Some (mkAudioBuffer 9600 SAMPLE_RATE_OUTPUT)
  else if String.eqb data "D" then Some (mkAudioBuffer 4800 SAMPLE_RATE_OUTPUT)
  else None.

Definition audio (data : string) : LiveServerMessage := mkMessage (Some data) false.

Definition barge_in : LiveServerMessage := mkMessage None true.

(** Two chunks arrive while the clock reads 10; the decode of the second
    settles before the decode of the first. *)
Definition overtaking : list Event :=
  [Message (audio "A") 10%Q; Message (audio "B") 10%Q; DecodeSettled 1; DecodeSettled 0].

(** The middle of a turn: three chunks have been received and started,
    the last of them ends at 11.2 on the output clock. *)
Definition mid_turn : State :=
  mkState (Some 0%nat) 11.2 false
          [mkScheduled 0 10 0.5; mkScheduled 1 10.5 0.3; mkScheduled 2 10.8 0.4]
          [] [] 3.

(** A fourth chunk arrives at 11.0 and is still being decoded when a
    barge-in signal is handled at 11.1. *)
Definition interrupted_turn : State :=
  run sample_decoder [Message (audio "A") 11.0; Message barge_in 11.1] mid_turn.

(** After the signal, chunk 4 arrives at 11.15 and chunk 5 at 11.2; the
    decode of chunk 4 settles first, then that of the chunk that was in
    flight, then that of chunk 5. *)
Definition next_turn : list Event :=
  [Message (audio "D") 11.15; Message (audio "B") 11.2;
   DecodeSettled 4; DecodeSettled 3; DecodeSettled 5].

(** A barge-in signal followed by two chunks that both arrive before
    either decode settles. *)
Definition crowded_restart : list Event :=
  [Message (audio "D") 10.7; Message (audio "A") 10.75; DecodeSettled 3; DecodeSettled 4].

End Scheduler.

(** * The playback clock in binary64 *)

(** JavaScript numbers are IEEE-754 doubles.  [Scheduler] keeps the
    clock in exact rationals, which is faithful for what depends only on
    the order of times (taking a maximum and adding a non-negative
    duration are monotone under rounding), but not for the value of a
    sum.  This module is the same handler with every time a binary64
    number and every operation the one JavaScript performs; statements
    about the values the clock takes are made here. *)
Module Scheduler64.

Import PrimFloat.
Import Scheduler (AudioBuffer, mkAudioBuffer, length, sampleRate,
                  LiveServerMessage, mkMessage, inlineData, interrupted,
                  Suspended, mkSuspended, seq, msg, payload).

Definition is_negative_zero (x : float) : bool :=
  match classify x with
  | FloatClass.NZero => true
  | _ => false
  end.

Definition is_positive_zero (x : float) : bool :=
  match classify x with
  | FloatClass.PZero => true
  | _ => false
  end.

(** One round of the loop of [Math.max] (ECMAScript, Math.max, step 4)
    on a number that is not NaN: [highest] becomes [number] when
    [number] is +0 and [highest] is -0, or when [number > highest]. *)
Definition max_step (highest number : float) : float :=
  if is_negative_zero highest && is_positive_zero number then number
  else if ltb highest number then number
  else highest.

(** [Math.max(a, b)]: NaN if either argument is; otherwise the loop,
    started at minus infinity, over [a] and then [b]. *)
Definition Math_max (a b : float) : float :=
  if is_nan a || is_nan b then nan
  else max_step (max_step neg_infinity a) b.

(** An integer as a JavaScript number (exact below 2^53). *)
Definition to_number (z : Z) : float := of_uint63 (Uint63.of_Z z).

(** [audioBuffer.duration]: the division of [length] by [sampleRate],
    in binary64. *)
Definition duration (b : AudioBuffer) : float :=
  div (to_number (Z.of_N (length b))) (to_number (Zpos (sampleRate b))).

(** One call [source.start(when)]: the chunk, the time it was given and
    the duration of its buffer. *)
Record Scheduled := mkScheduled {
  chunk : nat;
  start : float;
  span : float
}.

(** Where the buffer ends as the handler computes it: the sum that line
    202 stores in [nextStartTimeRef]. *)
Definition finish (x : Scheduled) : float := add (start x) (span x).

Record State := mkState {
  audioContextRef : option nat;
  nextStartTimeRef : float;
  aiIsSpeaking : bool;
  started : list Scheduled;
  console : list string;
  arrivals : nat
}.

Definition set_next (t : float) (s : State) : State :=
  mkState (audioContextRef s) t (aiIsSpeaking s) (started s) (console s) (arrivals s).

Definition set_speaking (b : bool) (s : State) : State :=
  mkState (audioContextRef s) (nextStartTimeRef s) b (started s) (console s)
          (arrivals s).

Definition push_started (x : Scheduled) (s : State) : State :=
  mkState (audioContextRef s) (nextStartTimeRef s) (aiIsSpeaking s)
          (started s ++ [x]) (console s) (arrivals s).

Definition log_error (line : string) (s : State) : State :=
  mkState (audioContextRef s) (nextStartTimeRef s) (aiIsSpeaking s)
          (started s) (console s ++ [line]) (arrivals s).

Definition count_arrival (s : State) : State :=
  mkState (audioContextRef s) (nextStartTimeRef s) (aiIsSpeaking s)
          (started s) (console s) (S (arrivals s)).

(** [useRef<number>(0)], nothing scheduled, nothing logged. *)
Definition initial (ctx : option nat) : State :=
  mkState ctx zero false [] [] 0.

Section Handler.

Variable decodeAudioData : string -> option AudioBuffer.

(** [if (message.serverContent?.interrupted) nextStartTimeRef.current = 0] *)
Definition interruption_check (m : LiveServerMessage) (s : State) : State :=
  if interrupted m then set_next zero s else s.

(** [onmessage] up to its [await]; [now] is [ctx.currentTime]. *)
Definition onmessage_begin (m : LiveServerMessage) (now : float) (s : State)
  : State * option Suspended :=
  match inlineData m, audioContextRef s with
  | Some base64Audio, Some _ =>
      if truthy_string base64Audio then
        let s1 := set_speaking true s in
        let s2 := set_next (Math_max (nextStartTimeRef s1) now) s1 in
        (count_arrival s2, Some (mkSuspended (arrivals s) m base64Audio))
      else (interruption_check m s, None)
  | _, _ => (interruption_check m s, None)
  end.

(** [onmessage] from the settling of the decode to its end. *)
Definition onmessage_resume (k : Suspended) (s : State) : State :=
  let s1 :=
    match decodeAudioData (payload k) with
    | Some audioBuffer =>
        let s' := push_started
                    (mkScheduled (seq k) (nextStartTimeRef s) (duration audioBuffer)) s in
        set_next (add (nextStartTimeRef s') (duration audioBuffer)) s'
    | None => log_error "Audio decoding error" s
    end in
  interruption_check (msg k) s1.

(** A message whose handler runs from start to end with no other
    callback in between. *)
Definition onmessage (m : LiveServerMessage) (now : float) (s : State) : State :=
  match onmessage_begin m now s with
  | (s1, Some k) => onmessage_resume k s1
  | (s1, None) => s1
  end.

(** A message that carries audio which decodes, and no interruption
    flag. *)
Definition playable (m : LiveServerMessage) : Prop :=
  exists data buf, inlineData m = Some data /\ truthy_string data = true /\
                   decodeAudioData data = Some buf /\ interrupted m = false.

(** Messages handled one after the other, each to its end. *)
Definition play (chunks : list (LiveServerMessage * float)) (s : State) : State :=
  fold_left (fun st c => onmessage (fst c) (snd c) st) chunks s.

(** Every chunk arrives while the output clock has not passed
    [nextStartTimeRef]: the clamp of line 188 leaves the clock as it
    is. *)
Fixpoint on_time (chunks : list (LiveServerMessage * float)) (s : State) : Prop :=
  match chunks with
  | [] => True
  | c :: rest =>
      Math_max (nextStartTimeRef s) (snd c) = nextStartTimeRef s /\
      on_time rest (onmessage (fst c) (snd c) s)
  end.

End Handler.

(** The rational number that a finite binary64 number is. *)
Definition exact (x : float) : option Q :=
  match FloatOps.Prim2SF x with
  | SpecFloat.S754_zero _ => Some 0%Q
  | SpecFloat.S754_finite sign m e =>
      Some ((if sign then -1 else 1) * inject_Z (Zpos m) * Qpower 2 e)%Q
  | _ => None
  end.

(** Time [t] against the end of buffer [x] taken as a real number, the
    exact sum of its start and its duration: [t] is that end, or [t]
    comes after it by less than [eps]. *)
Definition follows_exactly (x : Scheduled) (t : float) : Prop :=
  match exact (start x), exact (span x), exact t with
  | Some a, Some d, Some b => (a + d == b)%Q
  | _, _, _ => False
  end.

Definition follows_within (eps : Q) (x : Scheduled) (t : float) : Prop :=
  match exact (start x), exact (span x), exact t with
  | Some a, Some d, Some b => (a + d < b)%Q /\ (b - (a + d) < eps)%Q
  | _, _, _ => False
  end.

(** Each buffer of the list starts where the one before it ends, the
    first one at [t]. *)
Fixpoint abutting (t : float) (l : list Scheduled) : Prop :=
  match l with
  | [] => True
  | x :: rest => start x = t /\ abutting (finish x) rest
  end.

(** Where the last buffer of the list ends; [t] if there is none. *)
Definition last_finish (t : float) (l : list Scheduled) : float :=
  fold_left (fun _ x => finish x) l t.

End Scheduler64.

(** * Capture Encoder and mute toggle ([onaudioprocess], [toggleMic]) *)

Module Capture.

(** The bindings of one render of [InterviewSession] that the capture
    path closes over: [const [isMicOn, setIsMicOn] = useState(true)]
    gives every render its own constant [isMicOn]. *)
Record Scope := mkScope {
  scope_isMicOn : bool
}.

Section Encoder.

(** A frame of samples ([e.inputBuffer.getChannelData(0)]), the wire
    blob, and [createBlob] of [services/audioUtils]. *)
Variables AudioFrame Blob : Type.
Variable createBlob : AudioFrame -> Blob.

Record State := mkState {
  isMicOn : bool;                     (* the useState cell, line 62 *)
  mediaStreamRef : option MediaStream;
  inputContextRef : option nat;       (* the 16 kHz input AudioContext *)
  sessionRef : option nat;            (* the session promise *)
  effectScope : option Scope;         (* render whose effect callback ran *)
  processor : option Scope;           (* scope closed over by onaudioprocess *)
  tracks : TrackStore;
  sent : list Blob                    (* session.sendRealtimeInput calls *)
}.

(** The component before its first effect: [isMicOn] starts as [true],
    every ref as [null]. *)
Definition initial (store : TrackStore) : State :=
  mkState true None None None None None store [].

(** The bindings the render of state [s] hands to the closures it
    creates. *)
Definition render (s : State) : Scope := mkScope (isMicOn s).

(** The effect of lines 123-232 on its successful path.  It runs after
    the first render; its dependency list is [[userConfig, cleanup]]
    (line 232), where [cleanup] is a [useCallback] with no dependencies
    and [userConfig] is a prop the parent does not change while the
    session is mounted, so it does not run again.  It stores the
    acquired stream, the input context and the session promise, and it
    creates the callbacks, [onopen] among them, inside the scope of that
    render. *)
Definition init (stream : MediaStream) (ctx session : nat) (s : State) : State :=
  mkState (isMicOn s) (Some stream) (Some ctx) (Some session) (Some (render s))
          (processor s) (tracks s) (sent s).

(** [onopen]: creates the script processor and assigns its
    [onaudioprocess]; the arrow function closes over the scope [onopen]
    itself was created in. *)
Definition onopen (s : State) : State :=
  match inputContextRef s, mediaStreamRef s with
  | Some _, Some _ =>
      mkState (isMicOn s) (mediaStreamRef s) (inputContextRef s) (sessionRef s)
              (effectScope s) (effectScope s) (tracks s) (sent s)
  | _, _ => s
  end.

(** The body of [processor.onaudioprocess] (lines 163-173), run in the
    scope it closed over. *)
Definition onaudioprocess_in (sc : Scope) (inputData : AudioFrame) (s : State) : State :=
  if negb (scope_isMicOn sc) then s                       (* Mute logic *)
  else
    let pcmBlob := createBlob inputData in
    match sessionRef s with
    | Some _ =>
        mkState (isMicOn s) (mediaStreamRef s) (inputContextRef s) (sessionRef s)
                (effectScope s) (processor s) (tracks s) (sent s ++ [pcmBlob])
    | None => s
    end.

(** One audio callback of the script processor, if one is installed. *)
Definition onaudioprocess (inputData : AudioFrame) (s : State) : State :=
  match processor s with
  | Some sc => onaudioprocess_in sc inputData s
  | None => s
  end.

(** [toggleMic] (lines 235-242), created anew by every render and so run
    in the scope of the current one. *)
Definition toggleMic (s : State) : State :=
  match mediaStreamRef s with
  | Some stream =>
      let store :=
        for_each_track (set_enabled (negb (isMicOn s)))
                       (getAudioTracks (tracks s) stream) (tracks s) in
      mkState (negb (isMicOn s)) (mediaStreamRef s) (inputContextRef s) (sessionRef s)
              (effectScope s) (processor s) store (sent s)
  | None => s
  end.

Inductive Event :=
| Init (stream : MediaStream) (ctx session : nat)
| Open
| ToggleMic
| AudioProcess (inputData : AudioFrame).

Definition step (s : State) (e : Event) : State :=
  match e with
  | Init stream ctx session => init stream ctx session s
  | Open => onopen s
  | ToggleMic => toggleMic s
  | AudioProcess inputData => onaudioprocess inputData s
  end.

Definition run (trace : list Event) (s : State) : State := fold_left step trace s.

(** The session is muted when the mic state is off. *)
Definition muted (s : State) : bool := negb (isMicOn s).

End Encoder.

Arguments mkState {Blob}.
Arguments isMicOn {Blob}.
Arguments mediaStreamRef {Blob}.
Arguments inputContextRef {Blob}.
Arguments sessionRef {Blob}.
Arguments effectScope {Blob}.
Arguments processor {Blob}.
Arguments tracks {Blob}.
Arguments sent {Blob}.
Arguments initial {Blob}.
Arguments muted {Blob}.
Arguments toggleMic {Blob}.
Arguments onopen {Blob}.
Arguments init {Blob}.
Arguments onaudioprocess {AudioFrame Blob}.
Arguments onaudioprocess_in {AudioFrame Blob}.
Arguments step {AudioFrame Blob}.
Arguments run {AudioFrame Blob}.
Arguments Init {AudioFrame}.
Arguments Open {AudioFrame}.
Arguments ToggleMic {AudioFrame}.
Arguments AudioProcess {AudioFrame}.

(** Events that can follow the start of a session: the effect does not
    run a second time. *)
Definition after_init {AudioFrame} (e : Event AudioFrame) : Prop :=
  match e with
  | Init _ _ _ => False
  | _ => True
  end.

(** Once the session is open, the audio callback runs in the scope of
    the first render, where [isMicOn] is [true], and a stream and a
    session exist. *)
Definition capturing {Blob} (s : State Blob) : Prop :=
  effectScope s = Some (mkScope true) /\
  processor s = Some (mkScope true) /\
  is_Some (sessionRef s) /\
  is_Some (inputContextRef s) /\
  is_Some (mediaStreamRef s).

(** A camera-and-microphone stream as [getUserMedia] returns it: track 0
    is the microphone, track 1 the camera. *)
Definition mic_and_camera : TrackStore :=
  [mkTrack AudioKind true Live None; mkTrack VideoKind true Live None].

(** A concrete encoder for examples: frames are lists of 16-bit sample
    values and the blob is the frame itself. *)
Definition sample_frame : list Z := [0; 12; -7]%Z.

Definition muted_then_frame : list (Event (list Z)) :=
  [Init [0; 1] 0 7; Open; ToggleMic; AudioProcess sample_frame].

End Capture.

(** * Device/Track Manager ([toggleScreenShare], [stopScreenShare]) *)

Module DeviceTracks.

(** The [<video>] element behind [videoRef]; [srcObject] names a stream
    of the stream store. *)
Record VideoElement := mkVideo {
  srcObject : option nat
}.

(** How a [getDisplayMedia] or [getUserMedia] promise settles: with a new
    stream made of new tracks, or with a rejection. *)
Inductive Acquisition :=
| Granted (newTracks : list Track)
| Rejected (e : string).

Record State := mkState {
  isScreenSharing : bool;
  isCameraOn : bool;
  mediaStreamRef : option nat;     (* a stream of [streams] *)
  videoRef : option VideoElement;
  tracks : TrackStore;             (* every track object acquired so far *)
  streams : list MediaStream;      (* every stream object, by identity *)
  console : list string
}.

Definition set_tracks (f : TrackStore -> TrackStore) (s : State) : State :=
  mkState (isScreenSharing s) (isCameraOn s) (mediaStreamRef s) (videoRef s)
          (f (tracks s)) (streams s) (console s).

Definition set_streams (f : list MediaStream -> list MediaStream) (s : State) : State :=
  mkState (isScreenSharing s) (isCameraOn s) (mediaStreamRef s) (videoRef s)
          (tracks s) (f (streams s)) (console s).

Definition set_videoRef (v : option VideoElement) (s : State) : State :=
  mkState (isScreenSharing s) (isCameraOn s) (mediaStreamRef s) v
          (tracks s) (streams s) (console s).

Definition setIsScreenSharing (b : bool) (s : State) : State :=
  mkState b (isCameraOn s) (mediaStreamRef s) (videoRef s)
          (tracks s) (streams s) (console s).

Definition setIsCameraOn (b : bool) (s : State) : State :=
  mkState (isScreenSharing s) b (mediaStreamRef s) (videoRef s)
          (tracks s) (streams s) (console s).

Definition console_error (line : string) (s : State) : State :=
  mkState (isScreenSharing s) (isCameraOn s) (mediaStreamRef s) (videoRef s)
          (tracks s) (streams s) (console s ++ [line]).

(** The track list of stream [sid]. *)
Definition stream_tracks (s : State) (sid : nat) : MediaStream :=
  default [] (streams s !! sid).

(** A settled acquisition: on success the new track objects and the new
    stream object exist from now on, and the stream's identity is
    returned; on rejection the [await] throws. *)
Definition acquire (a : Acquisition) : Js State nat :=
  match a with
  | Granted newTracks =>
      fun s =>
        let ids := seq (List.length (tracks s)) (List.length newTracks) in
        (Normal (List.length (streams s)),
         set_streams (fun l => l ++ [ids]) (set_tracks (fun t => t ++ newTracks) s))
  | Rejected e => throw e
  end.

(** [stream.removeTrack(t)], [stream.addTrack(t)] (a track already in
    the stream is not added twice). *)
Definition removeTrack (sid t : nat) (s : State) : State :=
  set_streams (alter (List.filter (fun i => negb (Nat.eqb i t))) sid) s.

Definition addTrack (sid t : nat) (s : State) : State :=
  set_streams (alter (fun l => if existsb (Nat.eqb t) l then l else l ++ [t]) sid) s.

(** [streamOf.getVideoTracks()[0]] *)
Definition first_video_track (s : State) (sid : nat) : option nat :=
  head (getVideoTracks (tracks s) (stream_tracks s sid)).

(** The block guarded by [videoRef.current && mediaStreamRef.current] in
    both transitions: stop and detach the current video track, attach
    the new one, point the video element at the stream again. *)
Definition swap_video (newTrack : option nat) : Js State unit :=
  (v <- gets videoRef ;;
   ms <- gets mediaStreamRef ;;
   match v, ms with
   | Some _, Some cur =>
       sender <- gets (fun s => first_video_track s cur) ;;
       old <- defined sender ;;
       modify (set_tracks (alter stop_track old)) ;;;
       modify (removeTrack cur old) ;;;
       new <- defined newTrack ;;
       modify (addTrack cur new) ;;;
       modify (set_videoRef (Some (mkVideo (Some cur))))
   | _, _ => ret tt
   end)%js.

(** [stopScreenShare] from the settling of [getUserMedia] on. *)
Definition stopScreenShare (a : Acquisition) : Js State unit :=
  try_catch
    (userStream <- acquire a ;;
     userTrack <- gets (fun s => first_video_track s userStream) ;;
     swap_video userTrack ;;;
     modify (setIsScreenSharing false))%js
    (fun _ => modify (console_error "Failed to revert to camera")).

(** The [try] block of [toggleScreenShare] from the settling of
    [getDisplayMedia] on. *)
Definition startScreenShare (a : Acquisition) : Js State unit :=
  try_catch
    (screenStream <- acquire a ;;
     screenTrack <- gets (fun s => first_video_track s screenStream) ;;
     swap_video screenTrack ;;;
     st <- defined screenTrack ;;
     modify (set_tracks (alter (set_onended CallStopScreenShare) st)) ;;;
     modify (setIsScreenSharing true))%js
    (fun _ => modify (console_error "Screen share failed")).

(** [toggleScreenShare] up to its [await]: the test of [isScreenSharing]
    (line 254) is made when the handler is called; it decides which
    acquisition is requested and which continuation runs once that
    acquisition settles. *)
Definition toggleScreenShare_begin (s : State) : bool :=
  negb (isScreenSharing s).

(** [toggleScreenShare] from the settling of the acquisition on;
    [starting] is the outcome of the test made at the call, [a] how the
    acquisition settles.  The state it runs in is the one found then,
    which other handlers may have changed since the call. *)
Definition toggleScreenShare_resume (starting : bool) (a : Acquisition)
  : Js State unit :=
  if starting then startScreenShare a else stopScreenShare a.

(** [toggleScreenShare] run in one piece: the acquisition it makes
    settles, as [a], before any other handler runs. *)
Definition toggleScreenShare (a : Acquisition) : Js State unit :=
  fun s => toggleScreenShare_resume (toggleScreenShare_begin s) a s.

(** [toggleCamera] *)
Definition toggleCamera (s : State) : State :=
  match mediaStreamRef s with
  | Some cur =>
      setIsCameraOn (negb (isCameraOn s))
        (set_tracks (for_each_track (set_enabled (negb (isCameraOn s)))
                       (getVideoTracks (tracks s) (stream_tracks s cur))) s)
  | None => s
  end.

(** The audio side of the shared stream: which tracks it holds and what
    state each of these track objects is in. *)
Definition audio_tracks (s : State) : list (nat * option Track) :=
  match mediaStreamRef s with
  | Some cur =>
      map (fun i => (i, tracks s !! i)) (getAudioTracks (tracks s) (stream_tracks s cur))
  | None => []
  end.

(** The video side, likewise. *)
Definition video_tracks (s : State) : list (nat * option Track) :=
  match mediaStreamRef s with
  | Some cur =>
      map (fun i => (i, tracks s !! i)) (getVideoTracks (tracks s) (stream_tracks s cur))
  | None => []
  end.

(** The shared stream exists, and the tracks it lists exist. *)
Definition well_formed (s : State) : Prop :=
  forall cur, mediaStreamRef s = Some cur ->
    (cur < List.length (streams s))%nat /\
    (forall i, In i (stream_tracks s cur) -> (i < List.length (tracks s))%nat).

(** The audio track identities of stream [sid]. *)
Definition audio_ids (s : State) (sid : nat) : list nat :=
  getAudioTracks (tracks s) (stream_tracks s sid).

(** [s'] differs from [s] only in ways that leave audio alone: the same
    shared stream, every existing track object of the same kind as
    before and, if it is an audio track, in the same state, and the same
    audio tracks in the shared stream. *)
Record audio_kept (s s' : State) : Prop := mkAudioKept {
  kept_ref : mediaStreamRef s' = mediaStreamRef s;
  kept_objects :
    forall i t, tracks s !! i = Some t ->
      exists t', tracks s' !! i = Some t' /\ kind t' = kind t /\
                 (kind t = AudioKind -> t' = t);
  kept_ids :
    forall cur, mediaStreamRef s = Some cur -> audio_ids s' cur = audio_ids s cur
}.

(** [s'] has the device set of [s]: the same track objects in the same
    states, the same streams, the same shared stream and video element,
    the same sharing and camera flags. *)
Definition same_devices (s s' : State) : Prop :=
  tracks s' = tracks s /\ streams s' = streams s /\
  mediaStreamRef s' = mediaStreamRef s /\ videoRef s' = videoRef s /\
  isScreenSharing s' = isScreenSharing s /\ isCameraOn s' = isCameraOn s.

(** Every video track of the shared stream of [s] that is live and
    enabled is still in the shared stream of [s'], live and enabled. *)
Definition video_retained (s s' : State) : Prop :=
  forall i t, In (i, Some t) (video_tracks s) ->
              readyState t = Live -> enabled t = true ->
              In (i, Some t) (video_tracks s').

(** A session after a successful start: stream 0 holds the microphone
    (track 0) and the camera (track 1) and feeds the video element. *)
Definition camera_session : State :=
  mkState false true (Some 0)
          (Some (mkVideo (Some 0)))
          [mkTrack AudioKind true Live None; mkTrack VideoKind true Live None]
          [[0; 1]] [].

Definition screen_capture : Acquisition :=
  Granted [mkTrack VideoKind true Live None].

(** A session whose start failed: [getUserMedia] was rejected, so no
    stream, track or context exists and [mediaStreamRef] is [null]; the
    component is rendered all the same, with its video element and its
    buttons. *)
Definition failed_start : State :=
  mkState false true None (Some (mkVideo None)) [] [] [].

End DeviceTracks.

(** * Session Lifecycle Controller ([cleanup]) *)

Module Lifecycle.

(** The state of a Web Audio [AudioContext]. *)
Inductive ContextState := Running | Closed.

Record State := mkState {
  processorRef : option nat;         (* an audio node *)
  sourceRef : option nat;            (* an audio node *)
  inputContextRef : option nat;      (* a context of [contexts] *)
  audioContextRef : option nat;      (* a context of [contexts] *)
  mediaStreamRef : option MediaStream;
  timerIntervalRef : option positive;
  sessionRef : option nat;
  (* the browser objects the refs point to *)
  connected : gset nat;              (* audio nodes with outgoing connections *)
  contexts : list ContextState;
  tracks : TrackStore;
  intervals : gset positive;         (* interval timers still installed *)
  rejections : list string           (* promises rejected and never handled *)
}.

(** [node.disconnect()] *)
Definition disconnect (node : nat) (s : State) : State :=
  mkState (processorRef s) (sourceRef s) (inputContextRef s) (audioContextRef s)
          (mediaStreamRef s) (timerIntervalRef s) (sessionRef s)
          (connected s ∖ {[node]}) (contexts s) (tracks s) (intervals s)
          (rejections s).

(** [ctx.close()]: closes the context; on a context that is already
    closed (or does not exist) the returned promise rejects, and
    [cleanup] never handles it. *)
Definition is_running (s : State) (ctx : nat) : bool :=
  match contexts s !! ctx with
  | Some Running => true
  | _ => false
  end.

Definition close (ctx : nat) (s : State) : State :=
  mkState (processorRef s) (sourceRef s) (inputContextRef s) (audioContextRef s)
          (mediaStreamRef s) (timerIntervalRef s) (sessionRef s)
          (connected s)
          (if is_running s ctx then <[ctx := Closed]> (contexts s) else contexts s)
          (tracks s) (intervals s)
          (if is_running s ctx then rejections s
           else rejections s ++ ["InvalidStateError"%string]).

(** [stream.getTracks().forEach(track => track.stop())] *)
Definition stop_all (stream : MediaStream) (s : State) : State :=
  mkState (processorRef s) (sourceRef s) (inputContextRef s) (audioContextRef s)
          (mediaStreamRef s) (timerIntervalRef s) (sessionRef s)
          (connected s) (contexts s) (for_each_track stop_track stream (tracks s))
          (intervals s) (rejections s).

(** [clearInterval(id)]: an identifier that names no installed timer is
    ignored. *)
Definition clearInterval (id : positive) (s : State) : State :=
  mkState (processorRef s) (sourceRef s) (inputContextRef s) (audioContextRef s)
          (mediaStreamRef s) (timerIntervalRef s) (sessionRef s)
          (connected s) (contexts s) (tracks s) (intervals s ∖ {[id]})
          (rejections s).

Definition clear_processorRef (s : State) : State :=
  mkState None (sourceRef s) (inputContextRef s) (audioContextRef s)
          (mediaStreamRef s) (timerIntervalRef s) (sessionRef s)
          (connected s) (contexts s) (tracks s) (intervals s) (rejections s).

Definition clear_sourceRef (s : State) : State :=
  mkState (processorRef s) None (inputContextRef s) (audioContextRef s)
          (mediaStreamRef s) (timerIntervalRef s) (sessionRef s)
          (connected s) (contexts s) (tracks s) (intervals s) (rejections s).

Definition clear_inputContextRef (s : State) : State :=
  mkState (processorRef s) (sourceRef s) None (audioContextRef s)
          (mediaStreamRef s) (timerIntervalRef s) (sessionRef s)
          (connected s) (contexts s) (tracks s) (intervals s) (rejections s).

Definition clear_audioContextRef (s : State) : State :=
  mkState (processorRef s) (sourceRef s) (inputContextRef s) None
          (mediaStreamRef s) (timerIntervalRef s) (sessionRef s)
          (connected s) (contexts s) (tracks s) (intervals s) (rejections s).

Definition clear_sessionRef (s : State) : State :=
  mkState (processorRef s) (sourceRef s) (inputContextRef s) (audioContextRef s)
          (mediaStreamRef s) (timerIntervalRef s) None
          (connected s) (contexts s) (tracks s) (intervals s) (rejections s).

(** [if (ref.current) { ... }] for a ref holding an object or [null]. *)
Definition when_set {A} (r : option A) (f : A -> State -> State) (s : State) : State :=
  match r with
  | Some a => f a s
  | None => s
  end.

(** [cleanup], statement by statement.  The timer handle is an integer
    greater than zero whenever it is not [null] (that is what
    [window.setInterval] returns), so its truthiness test only excludes
    [null]. *)
Definition cleanup (s : State) : State :=
  let s1 := when_set (processorRef s)
              (fun node s => clear_processorRef (disconnect node s)) s in
  let s2 := when_set (sourceRef s1)
              (fun node s => clear_sourceRef (disconnect node s)) s1 in
  let s3 := when_set (inputContextRef s2)
              (fun ctx s => clear_inputContextRef (close ctx s)) s2 in
  let s4 := when_set (audioContextRef s3)
              (fun ctx s => clear_audioContextRef (close ctx s)) s3 in
  let s5 := when_set (mediaStreamRef s4) stop_all s4 in
  let s6 := when_set (timerIntervalRef s5) clearInterval s5 in
  when_set (sessionRef s6) (fun _ s => clear_sessionRef s) s6.

(** No track of the stream the session holds is live. *)
Definition no_live_track (s : State) : Prop :=
  forall stream i t, mediaStreamRef s = Some stream -> In i stream ->
                     tracks s !! i = Some t -> readyState t = Ended.

(** Every live track object belongs to the stream the session holds. *)
Definition owns_live_tracks (s : State) : Prop :=
  forall i t, tracks s !! i = Some t -> readyState t = Live ->
              exists stream, mediaStreamRef s = Some stream /\ In i stream.

(** Context [ctx] exists and is closed. *)
Definition closed (s : State) (ctx : nat) : Prop :=
  contexts s !! ctx = Some Closed.

(** Every ref that holds a context names a context that is still
    running. *)
Definition contexts_open (s : State) : Prop :=
  (forall c, inputContextRef s = Some c -> contexts s !! c = Some Running) /\
  (forall c, audioContextRef s = Some c -> contexts s !! c = Some Running) /\
  (forall c d, inputContextRef s = Some c -> audioContextRef s = Some d -> c <> d).

(** What [cleanup] finds after a start that failed (every ref still
    [null]) followed by a granted screen capture: the screen track
    exists and is live, and belongs to no stream the session holds. *)
Definition unattached_capture : State :=
  mkState None None None None None None None
          ∅ [] [mkTrack VideoKind true Live (Some CallStopScreenShare)] ∅ [].

(** An active session that is also recording: both audio nodes
    connected, both contexts running, microphone and camera live, the
    duration timer installed. *)
Definition active_session : State :=
  mkState (Some 1) (Some 0) (Some 0) (Some 1) (Some [0; 1]) (Some 5%positive) (Some 9)
          {[0; 1]} [Running; Running]
          [mkTrack AudioKind true Live None; mkTrack VideoKind true Live None]
          {[5%positive]} [].

End Lifecycle.

(** * Go-live recording ([handleGoLive]) *)

Module Broadcast.

Inductive StreamPlatform := FACEBOOK | LINKEDIN | INSTAGRAM | YOUTUBE.

Record StreamConfig := mkStreamConfig {
  isStreaming : bool;
  platform : option StreamPlatform;
  duration : nat                      (* in seconds *)
}.

Inductive RecorderState := Inactive | Recording.

(** A [MediaRecorder] object: the stream it records, its MIME type, its
    state and the timeslice it was started with. *)
Record MediaRecorder := mkRecorder {
  recorded : MediaStream;
  mimeType : string;
  recorderState : RecorderState;
  timeslice : option nat
}.

Record State := mkState {
  mediaStreamRef : option MediaStream;
  recordedChunksRef : list N;          (* the sizes of the recorded blobs *)
  mediaRecorderRef : option nat;       (* a recorder of [recorders] *)
  timerIntervalRef : option positive;
  streamConfig : StreamConfig;
  showDestinations : bool;
  (* browser objects *)
  recorders : list MediaRecorder;
  intervals : gset positive
}.

Definition set_recordedChunks (l : list N) (s : State) : State :=
  mkState (mediaStreamRef s) l (mediaRecorderRef s) (timerIntervalRef s)
          (streamConfig s) (showDestinations s) (recorders s) (intervals s).

Definition set_mediaRecorderRef (r : option nat) (s : State) : State :=
  mkState (mediaStreamRef s) (recordedChunksRef s) r (timerIntervalRef s)
          (streamConfig s) (showDestinations s) (recorders s) (intervals s).

Definition set_timerIntervalRef (t : option positive) (s : State) : State :=
  mkState (mediaStreamRef s) (recordedChunksRef s) (mediaRecorderRef s) t
          (streamConfig s) (showDestinations s) (recorders s) (intervals s).

Definition setStreamConfig (f : StreamConfig -> StreamConfig) (s : State) : State :=
  mkState (mediaStreamRef s) (recordedChunksRef s) (mediaRecorderRef s)
          (timerIntervalRef s) (f (streamConfig s)) (showDestinations s)
          (recorders s) (intervals s).

Definition setShowDestinations (b : bool) (s : State) : State :=
  mkState (mediaStreamRef s) (recordedChunksRef s) (mediaRecorderRef s)
          (timerIntervalRef s) (streamConfig s) b (recorders s) (intervals s).

Definition set_recorders (f : list MediaRecorder -> list MediaRecorder) (s : State)
  : State :=
  mkState (mediaStreamRef s) (recordedChunksRef s) (mediaRecorderRef s)
          (timerIntervalRef s) (streamConfig s) (showDestinations s)
          (f (recorders s)) (intervals s).

Definition install_interval (id : positive) (s : State) : State :=
  mkState (mediaStreamRef s) (recordedChunksRef s) (mediaRecorderRef s)
          (timerIntervalRef s) (streamConfig s) (showDestinations s)
          (recorders s) (intervals s ∪ {[id]}).

Section Recorder.

(** [MediaRecorder.isTypeSupported], which depends on the browser. *)
Variable isTypeSupported : string -> bool.

(** [new MediaRecorder(stream, { mimeType })]: throws when the browser
    cannot record the type; otherwise a new inactive recorder. *)
Definition new_MediaRecorder (stream : MediaStream) (mime : string) : Js State nat :=
  fun s =>
    if isTypeSupported mime then
      (Normal (List.length (recorders s)),
       set_recorders (fun l => l ++ [mkRecorder stream mime Inactive None]) s)
    else (Throw "NotSupportedError", s).

(** [recorder.start(timeslice)] *)
Definition start_recorder (r ms : nat) (s : State) : State :=
  set_recorders
    (alter (fun x => mkRecorder (recorded x) (mimeType x) Recording (Some ms)) r) s.

(** [handleGoLive]; [timerId] is the handle [window.setInterval]
    returns. *)
Definition handleGoLive (timerId : positive) (selectedPlatforms : list StreamPlatform)
  : Js State unit :=
  if Nat.eqb (List.length selectedPlatforms) 0 then ret tt
  else
    (ms <- gets mediaStreamRef ;;
     match ms with
     | None => ret tt
     | Some stream =>
         modify (set_recordedChunks []) ;;;
         let mime := if isTypeSupported "video/webm; codecs=vp9"
                     then "video/webm; codecs=vp9"%string
                     else "video/webm"%string in
         recorder <- new_MediaRecorder stream mime ;;
         modify (start_recorder recorder 1000) ;;;
         modify (set_mediaRecorderRef (Some recorder)) ;;;
         modify (setStreamConfig
                   (fun _ => mkStreamConfig true (head selectedPlatforms) 0)) ;;;
         modify (install_interval timerId) ;;;
         modify (set_timerIntervalRef (Some timerId)) ;;;
         modify (setShowDestinations false)
     end)%js.

End Recorder.

(** The callback of the duration timer. *)
Definition tick (s : State) : State :=
  setStreamConfig
    (fun prev => mkStreamConfig (isStreaming prev) (platform prev) (S (duration prev))) s.

(** [recorder.ondataavailable] *)
Definition ondataavailable (size : N) (s : State) : State :=
  if (0 <? size)%N then set_recordedChunks (recordedChunksRef s ++ [size]) s else s.

(** A session with a camera-and-microphone stream that is not live. *)
Definition idle_session : State :=
  mkState (Some [0; 1]) [] None None (mkStreamConfig false None 0) true [] ∅.

End Broadcast.

(** * Welcome screen ([handleEnter]) *)

Module Welcome.

(** A JavaScript string: its UTF-16 code units. *)
Definition JsString := list N.

(** The code units [String.prototype.trim] strips: ECMAScript's
    WhiteSpace and LineTerminator. *)
Definition is_whitespace (c : N) : bool :=
  ((9 <=? c) && (c <=? 13) || (c =? 32) || (c =? 160) || (c =? 5760)
   || (8192 <=? c) && (c <=? 8202) || (c =? 8232) || (c =? 8233)
   || (c =? 8239) || (c =? 8287) || (c =? 12288) || (c =? 65279))%N.

Fixpoint trim_start (s : JsString) : JsString :=
  match s with
  | [] => []
  | c :: rest => if is_whitespace c then trim_start rest else s
  end.

Definition trim_end (s : JsString) : JsString := rev (trim_start (rev s)).

(** [s.trim()] *)
Definition trim (s : JsString) : JsString := trim_end (trim_start s).

(** Truthiness of a string value. *)
Definition truthy (s : JsString) : bool :=
  match s with
  | [] => false
  | _ :: _ => true
  end.

Record UserConfig := mkUserConfig {
  cfg_name : JsString;
  cfg_jobRole : JsString
}.

Record State := mkState {
  name : JsString;
  jobRole : JsString;
  onStart_calls : list UserConfig     (* the calls made to the [onStart] prop *)
}.

(** [handleEnter] *)
Definition handleEnter (s : State) : State :=
  if truthy (trim (name s)) then
    mkState (name s) (jobRole s)
            (onStart_calls s ++ [mkUserConfig (name s) (jobRole s)])
  else s.

(** The [disabled] attribute of the Enter Studio button. *)
Definition enter_disabled (s : State) : bool := negb (truthy (trim (name s))).

(** The Enter Studio action: a click on the button, which does nothing
    while the button is disabled and runs [handleEnter] otherwise. *)
Definition enter_studio (s : State) : State :=
  if enter_disabled s then s else handleEnter s.

(** Code units of a few ASCII strings used in examples. *)
Definition units (s : string) : JsString :=
  map (fun a => N_of_ascii a) (list_ascii_of_string s).

End Welcome.

(** * Broadcast timer display ([formatTime]) *)

Module Display.

(** [n.toString()] of a non-negative integer: its decimal digits. *)
Definition toString (n : nat) : string :=
  DecimalString.NilZero.string_of_uint (Nat.to_uint n).

Fixpoint repeat_char (n : nat) (c : ascii) : string :=
  match n with
  | O => EmptyString
  | S k => String c (repeat_char k c)
  end.

(** [s.padStart(targetLength, c)] for a one-character pad string: [c]
    is put in front until the target length is reached; a string that
    is already long enough is returned as it is. *)
Definition padStart (targetLength : nat) (c : ascii) (s : string) : string :=
  (repeat_char (targetLength - String.length s) c ++ s)%string.

(** [formatTime] (lines 354-358); [seconds] is the duration counter, a
    non-negative integer. *)
Definition formatTime (seconds : nat) : string :=
  let mins := (seconds / 60)%nat in
  let secs := (seconds mod 60)%nat in
  (padStart 2 "0" (toString mins) ++ ":" ++ padStart 2 "0" (toString secs))%string.

(** Reading a displayed time back: the text before the first colon and
    the text after it, as decimal numbers of minutes and seconds. *)
Fixpoint split_colon (s : string) : option (string * string) :=
  match s with
  | EmptyString => None
  | String c rest =>
      if Ascii.eqb c ":" then Some (EmptyString, rest)
      else match split_colon rest with
           | Some (a, b) => Some (String c a, b)
           | None => None
           end
  end.

Definition readNumber (s : string) : option nat :=
  match DecimalString.NilZero.uint_of_string s with
  | Some d => Some (Nat.of_uint d)
  | None => None
  end.

Definition readTime (s : string) : option nat :=
  match split_colon s with
  | Some (m, sec) =>
      match readNumber m, readNumber sec with
      | Some a, Some b => Some (a * 60 + b)%nat
      | _, _ => None
      end
  | None => None
  end.

(** Number of digits of a decimal numeral. *)
Fixpoint digits (d : Decimal.uint) : nat :=
  match d with
  | Decimal.Nil => 0
  | Decimal.D0 d | Decimal.D1 d | Decimal.D2 d | Decimal.D3 d | Decimal.D4 d
  | Decimal.D5 d | Decimal.D6 d | Decimal.D7 d | Decimal.D8 d | Decimal.D9 d =>
      S (digits d)
  end.

Definition is_digit (c : ascii) : bool :=
  let n := nat_of_ascii c in (48 <=? n)%nat && (n <=? 57)%nat.

Fixpoint all_digits (s : string) : bool :=
  match s with
  | EmptyString => true
  | String c rest => is_digit c && all_digits rest
  end.

End Display.

(** * Traces of the Playback Scheduler *)

Module SchedulerTraces.

Import Scheduler.

Section Traces.

Variable decodeAudioData : string -> option AudioBuffer.

(** The arrival indices the scheduler knows of: those of the buffers it
    has started, then those of the invocations still waiting. *)
Definition known_chunks (s : State) : list nat :=
  map chunk (started s) ++ map seq (pending s).

(** The chunks known to the scheduler are pairwise distinct and have all
    arrived. *)
Definition distinct_chunks (s : State) : Prop :=
  NoDup (known_chunks s) /\ Forall (fun n => (n < arrivals s)%nat) (known_chunks s).

(** The chunks known to the scheduler are in arrival order. *)
Definition ordered_chunks (s : State) : Prop :=
  StronglySorted lt (known_chunks s) /\
  Forall (fun n => (n < arrivals s)%nat) (known_chunks s).

(** No invocation that waits on a decode will reset the clock. *)
Definition quiet_pending (s : State) : Prop :=
  forall k, In k (pending s) -> interrupted (msg k) = false.

(** Every decode that settles in the trace is the oldest one still
    waiting: decodes complete in the order the chunks arrived. *)
Fixpoint settles_in_order (trace : list Event) (s : State) : Prop :=
  match trace with
  | [] => True
  | e :: rest =>
      match e with
      | DecodeSettled n =>
          match pending s with
          | k :: _ => seq k = n
          | [] => False
          end
      | _ => True
      end /\ settles_in_order rest (step decodeAudioData s e)
  end.

End Traces.

End SchedulerTraces.

(** * Mute and camera toggles: what being in step means *)

Module DeviceToggles.

(** What [tracks.forEach(track => track.enabled = b)] makes of a track
    object, for the tracks of one kind in a stream: the tracks of the
    stream that satisfy [p] get the flag, every other object is left
    alone. *)
Definition enabled_in (p : Track -> bool) (b : bool) (stream : list nat) (i : nat)
    (t : Track) : Track :=
  if in_dec Nat.eq_dec i stream then (if p t then set_enabled b t else t) else t.

(** The [enabled] flag of every audio track of the session's stream
    agrees with the mic state. *)
Definition mic_in_step {Blob} (s : Capture.State Blob) : Prop :=
  forall stream i t,
    Capture.mediaStreamRef s = Some stream -> In i stream ->
    Capture.tracks s !! i = Some t -> kind t = AudioKind ->
    enabled t = Capture.isMicOn s.

(** The [enabled] flag of every video track of the shared stream agrees
    with the camera state. *)
Definition camera_in_step (s : DeviceTracks.State) : Prop :=
  forall cur i t,
    DeviceTracks.mediaStreamRef s = Some cur ->
    In i (DeviceTracks.stream_tracks s cur) ->
    DeviceTracks.tracks s !! i = Some t -> kind t = VideoKind ->
    enabled t = DeviceTracks.isCameraOn s.

End DeviceToggles.

(** * Ending a broadcast and saving it ([stopLiveStream], [downloadRecording]) *)

Module Recording.

Import Broadcast.

Definition uninstall_interval (id : positive) (s : State) : State :=
  mkState (mediaStreamRef s) (recordedChunksRef s) (mediaRecorderRef s)
          (timerIntervalRef s) (streamConfig s) (showDestinations s)
          (recorders s) (intervals s ∖ {[id]}).

Section Stop.

(** Whether [stop()] on a recorder that is already inactive throws
    [InvalidStateError]; browsers differ on this. *)
Variable stop_inactive_throws : bool.

(** [recorder.stop()] *)
Definition stop_recorder (r : nat) : Js State unit :=
  fun s =>
    match recorders s !! r with
    | Some x =>
        match recorderState x with
        | Recording =>
            (Normal tt,
             set_recorders
               (alter (fun x => mkRecorder (recorded x) (mimeType x) Inactive (timeslice x)) r)
               s)
        | Inactive =>
            if stop_inactive_throws then (Throw "InvalidStateError", s)
            else (Normal tt, s)
        end
    | None => (Normal tt, s)
    end.

(** [stopLiveStream] (lines 329-336) *)
Definition stopLiveStream : Js State unit :=
  (r <- gets mediaRecorderRef ;;
   (match r with
    | Some recorder => stop_recorder recorder
    | None => ret tt
    end) ;;;
   t <- gets timerIntervalRef ;;
   (match t with
    | Some id =>
        modify (uninstall_interval id) ;;;
        modify (set_timerIntervalRef None)
    | None => ret tt
    end) ;;;
   modify (setStreamConfig
             (fun prev => mkStreamConfig false (platform prev) (duration prev))))%js.

End Stop.

(** What [downloadRecording] (lines 338-352) does: it alerts, or it
    saves one blob made of the recorded chunks, of type [video/webm]. *)
Inductive Download :=
| Alert (message : string)
| Saved (parts : list N) (type : string).

Definition downloadRecording (s : State) : Download :=
  if Nat.eqb (List.length (recordedChunksRef s)) 0
  then Alert "No recording data available yet."
  else Saved (recordedChunksRef s) "video/webm".

(** Size of a blob made of parts of the given sizes. *)
Definition blob_size (parts : list N) : N := fold_right N.add 0%N parts.

(** The recorder delivers data blobs of the given sizes, one
    [dataavailable] event each. *)
Definition receive (sizes : list N) (s : State) : State :=
  fold_left (fun st size => ondataavailable size st) sizes s.

(** The duration timer fires [n] times. *)
Definition ticks (n : nat) (s : State) : State := Nat.iter n tick s.

(** The MIME type [handleGoLive] records with. *)
Definition chosen_type (isTypeSupported : string -> bool) : string :=
  if isTypeSupported "video/webm; codecs=vp9"%string
  then "video/webm; codecs=vp9"%string
  else "video/webm"%string.

End Recording.

(** * The application shell ([App]: [handleStart], [handleEnd]) *)

Module App.

Inductive AppState := SETUP | INTERVIEW | ENDED.

Record State := mkState {
  appState : AppState;
  userConfig : option Welcome.UserConfig;
  timeouts : nat                       (* reset timers set and not yet fired *)
}.

(** [useState(AppState.SETUP)], [useState(null)] *)
Definition initial : State := mkState SETUP None 0.

(** [handleStart] *)
Definition handleStart (config : Welcome.UserConfig) (s : State) : State :=
  mkState INTERVIEW (Some config) (timeouts s).

(** [handleEnd]: the state changes now, the reset is left to a timer. *)
Definition handleEnd (s : State) : State :=
  mkState ENDED (userConfig s) (S (timeouts s)).

(** The callback [handleEnd] hands to [setTimeout]. *)
Definition reset (s : State) : State :=
  mkState SETUP None (Nat.pred (timeouts s)).

(** What the component renders (lines 26-41). *)
Definition shows_welcome (s : State) : bool :=
  match appState s with SETUP => true | _ => false end.

Definition shows_session (s : State) : option Welcome.UserConfig :=
  match appState s with
  | INTERVIEW => userConfig s
  | _ => None
  end.

Definition shows_ended (s : State) : bool :=
  match appState s with ENDED => true | _ => false end.

(** The Enter Studio action on the welcome screen, with the name and
    role typed there: every call it makes to [onStart] reaches
    [handleStart]. *)
Definition enter (name jobRole : Welcome.JsString) (s : State) : State :=
  fold_left (fun st config => handleStart config st)
            (Welcome.onStart_calls
               (Welcome.enter_studio (Welcome.mkState name jobRole [])))
            s.

(** What can happen, given what is on screen: the welcome screen offers
    Enter Studio, the session offers End, and a timer that was set
    fires. *)
Inductive step : State -> State -> Prop :=
| step_enter s name jobRole :
    shows_welcome s = true -> step s (enter name jobRole s)
| step_end s config :
    shows_session s = Some config -> step s (handleEnd s)
| step_reset s :
    (0 < timeouts s)%nat -> step s (reset s).

Inductive reachable : State -> Prop :=
| reachable_initial : reachable initial
| reachable_step s s' : reachable s -> step s s' -> reachable s'.

(** A name with something other than whitespace in it. *)
Definition named (config : Welcome.UserConfig) : Prop :=
  Welcome.trim (Welcome.cfg_name config) <> [].

(** What holds of every state the shell can be in. *)
Record shell_invariant (s : State) : Prop := mkShellInvariant {
  inv_setup : appState s = SETUP -> userConfig s = None /\ timeouts s = 0%nat;
  inv_interview :
    appState s = INTERVIEW ->
    timeouts s = 0%nat /\ exists config, userConfig s = Some config /\ named config;
  inv_ended : appState s = ENDED -> timeouts s = 1%nat
}.

End App.

(** * The camera preview of the welcome screen *)

Module Preview.

(** The welcome screen from its mount on.  [stream] is the variable of
    that name local to the first effect (lines 15-34); the [<video>]
    element exists while the component is mounted, and [srcObject] is
    the stream assigned to it. *)
Record State := mkState {
  mounted : bool;
  acquiring : bool;                    (* getUserMedia has not settled yet *)
  isMicOn : bool;
  isCamOn : bool;
  stream : option (list nat);
  srcObject : option (list nat);
  tracks : list Track;
  console : list string
}.

(** The component after its first render and its effects: [startCamera]
    has called [getUserMedia] and waits; the second effect found no
    [srcObject] and did nothing. *)
Definition mount (store : list Track) : State :=
  mkState true true true true None None store [].

(** [startCamera] from the settling of [getUserMedia] on. *)
Definition settle (a : DeviceTracks.Acquisition) (s : State) : State :=
  if acquiring s then
    match a with
    | DeviceTracks.Granted newTracks =>
        let ids := seq (List.length (tracks s)) (List.length newTracks) in
        mkState (mounted s) false (isMicOn s) (isCamOn s) (Some ids)
                (if mounted s then Some ids else srcObject s)
                (tracks s ++ newTracks) (console s)
    | DeviceTracks.Rejected _ =>
        mkState (mounted s) false (isMicOn s) (isCamOn s) (stream s) (srcObject s)
                (tracks s) (console s ++ ["Camera access denied"%string])
    end
  else s.

(** The cleanup of the first effect, run when the component unmounts;
    the [<video>] element goes away with the component. *)
Definition unmount (s : State) : State :=
  if mounted s then
    mkState false (acquiring s) (isMicOn s) (isCamOn s) (stream s) None
            (match stream s with
             | Some ids => for_each_track stop_track ids (tracks s)
             | None => tracks s
             end)
            (console s)
  else s.

(** The second effect (lines 37-43), which runs after a render in which
    [isMicOn] or [isCamOn] changed. *)
Definition apply_flags (s : State) : State :=
  match mounted s, srcObject s with
  | true, Some ids =>
      let t1 := for_each_track (set_enabled (isMicOn s))
                               (getAudioTracks (tracks s) ids) (tracks s) in
      let t2 := for_each_track (set_enabled (isCamOn s))
                               (getVideoTracks t1 ids) t1 in
      mkState (mounted s) (acquiring s) (isMicOn s) (isCamOn s) (stream s)
              (srcObject s) t2 (console s)
  | _, _ => s
  end.

(** A click on the mic button, and the effect the new render runs. *)
Definition clickMic (s : State) : State :=
  if mounted s then
    apply_flags (mkState (mounted s) (acquiring s) (negb (isMicOn s)) (isCamOn s)
                         (stream s) (srcObject s) (tracks s) (console s))
  else s.

(** A click on the camera button, likewise. *)
Definition clickCam (s : State) : State :=
  if mounted s then
    apply_flags (mkState (mounted s) (acquiring s) (isMicOn s) (negb (isCamOn s))
                         (stream s) (srcObject s) (tracks s) (console s))
  else s.

Inductive Event :=
| Settle (a : DeviceTracks.Acquisition)
| Unmount
| ClickMic
| ClickCam.

Definition step (s : State) (e : Event) : State :=
  match e with
  | Settle a => settle a s
  | Unmount => unmount s
  | ClickMic => clickMic s
  | ClickCam => clickCam s
  end.

Definition run (trace : list Event) (s : State) : State := fold_left step trace s.

(** Clicks only. *)
Definition is_click (e : Event) : Prop :=
  match e with
  | ClickMic | ClickCam => True
  | _ => False
  end.

(** The flags of the tracks of [ids] agree with the two toggles. *)
Definition flags_in_step (s : State) (ids : list nat) : Prop :=
  forall i t, In i ids -> tracks s !! i = Some t ->
    (kind t = AudioKind -> enabled t = isMicOn s) /\
    (kind t = VideoKind -> enabled t = isCamOn s).

(** What [getUserMedia({ video: true, audio: true })] returns when
    granted. *)
Definition camera_and_mic : DeviceTracks.Acquisition :=
  DeviceTracks.Granted
    [mkTrack VideoKind true Live None; mkTrack AudioKind true Live None].

End Preview.

(** * A completed video swap *)

Module TrackSwap.

Import DeviceTracks.

(** The shared stream is [cur], it is shown on a video element, the
    tracks it lists exist, and exactly one of them is a video track:
    [video]. *)
Definition one_video_track (s : State) (cur video : nat) : Prop :=
  mediaStreamRef s = Some cur /\
  is_Some (videoRef s) /\
  exists l, streams s !! cur = Some l /\
            (forall i, In i l -> (i < List.length (tracks s))%nat) /\
            getVideoTracks (tracks s) l = [video].

(** The track list of the shared stream after [old] has been replaced
    by [new]. *)
Definition replaced (old new : nat) (l : list nat) : list nat :=
  List.filter (fun i => negb (Nat.eqb i old)) l ++ [new].

(** The state [swap_video] leaves when it replaces [old] by the track
    [nt] just acquired in a stream of its own. *)
Definition swapped (s : State) (cur old : nat) (nt : Track) : State :=
  mkState (isScreenSharing s) (isCameraOn s) (Some cur) (Some (mkVideo (Some cur)))
          (alter stop_track old (tracks s ++ [nt]))
          (alter (fun l => if existsb (Nat.eqb (List.length (tracks s))) l then l
                           else l ++ [List.length (tracks s)]) cur
             (alter (List.filter (fun i => negb (Nat.eqb i old))) cur
                (streams s ++ [[List.length (tracks s)]])))
          (console s).

End TrackSwap.

(** * Properties of the Playback Scheduler *)

Section SchedulerProperties.

Import Scheduler.

Variable decodeAudioData : string -> option AudioBuffer.

Lemma duration_nonneg (b : AudioBuffer) : (0 <= duration b)%Q.
Proof.
  unfold duration, Qle. simpl. lia.
Qed.

Lemma take_pending_sound n l k rest :
  take_pending n l = Some (k, rest) ->
  In k l /\ (forall x, In x rest -> In x l).
Proof.
  revert k rest. induction l as [|h t IH]; intros k rest; simpl.
  - discriminate.
  - destruct (Nat.eqb (seq h) n).
    + intros [= <- <-]. split; [now left | intros x Hx; now right].
    + destruct (take_pending n t) as [[k' rest']|]; [|discriminate].
      intros [= <- <-]. destruct (IH k' rest' eq_refl) as [Hk Hrest].
      split; [now right|]. intros x [<-|Hx]; [now left | right; auto].
Qed.

Lemma interruption_check_quiet m s :
  interrupted m = false -> interruption_check m s = s.
Proof.
  unfold interruption_check. now intros ->.
Qed.

Lemma chained_begin m now s :
  interrupted m = false -> chained s ->
  chained (fst (onmessage_begin m now s)) /\
  (forall k, snd (onmessage_begin m now s) = Some k -> msg k = m) /\
  pending (fst (onmessage_begin m now s)) = pending s.
Proof.
  intros Hq Hs. unfold onmessage_begin.
  assert (Hend : chained (fst (interruption_check m s, @None Suspended)) /\
                 (forall k, snd (interruption_check m s, @None Suspended) = Some k ->
                            msg k = m) /\
                 pending (fst (interruption_check m s, @None Suspended)) = pending s).
  { rewrite interruption_check_quiet by assumption. simpl.
    split; [assumption | split; [discriminate | reflexivity]]. }
  destruct (inlineData m) as [data|]; [|exact Hend].
  destruct (audioContextRef s) as [ctx|]; [|exact Hend].
  destruct (truthy_string data); [|exact Hend].
  destruct Hs as [Ho Hb Hs Hp]. simpl.
  split; [|split; [now intros k [= <-] | reflexivity]].
  constructor; simpl; try assumption.
  intros i a Hi. specialize (Hb i a Hi).
  pose proof (Q.le_max_l (nextStartTimeRef s) now). lra.
Qed.

Lemma chained_set_pending l s :
  chained s -> (forall k, In k l -> interrupted (msg k) = false) ->
  chained (set_pending l s).
Proof.
  intros [Ho Hb Hs Hp] Hl. constructor; simpl; assumption.
Qed.

Lemma chained_resume k s :
  interrupted (msg k) = false -> chained s -> chained (onmessage_resume decodeAudioData k s).
Proof.
  intros Hq [Ho Hb Hs Hp]. unfold onmessage_resume.
  rewrite interruption_check_quiet by assumption.
  destruct (decodeAudioData (payload k)) as [buf|]; [|constructor; simpl; assumption].
  pose proof (duration_nonneg buf) as Hd.
  constructor; simpl; try assumption.
  - intros i j a b Hij Ha Hb'.
    apply lookup_snoc_Some in Hb' as [[Hj Hb']|[Hj Hb']].
    + rewrite lookup_app_l in Ha by lia. eauto.
    + subst b. simpl. rewrite lookup_app_l in Ha by lia. eauto.
  - intros i a Ha. apply lookup_snoc_Some in Ha as [[Hi Ha]|[Hi Ha]].
    + specialize (Hb i a Ha). lra.
    + subst a. unfold finish. simpl. lra.
  - intros i a Ha. apply lookup_snoc_Some in Ha as [[Hi Ha]|[Hi Ha]].
    + eauto.
    + subst a. simpl. exact Hd.
Qed.

Lemma chained_step e s :
  quiet_event e -> chained s -> chained (step decodeAudioData s e).
Proof.
  intros He Hs. destruct e as [m now|n|]; simpl in *.
  - destruct (chained_begin m now s He Hs) as (Hc & Hk & Hp).
    destruct (onmessage_begin m now s) as [s1 [k|]]; simpl in *; [|exact Hc].
    apply chained_set_pending; [exact Hc|].
    intros x Hx. apply in_app_or in Hx as [Hx|[<-|[]]].
    + apply (chained_quiet _ Hc). rewrite Hp.
      rewrite Hp in Hx. exact Hx.
    + rewrite (Hk k eq_refl). exact He.
  - destruct (take_pending n (pending s)) as [[k rest]|] eqn:Ht; [|exact Hs].
    apply take_pending_sound in Ht as [Hk Hrest].
    apply chained_resume.
    + apply (chained_quiet _ Hs). exact Hk.
    + apply chained_set_pending; [exact Hs|].
      intros x Hx. apply (chained_quiet _ Hs). auto.
  - destruct Hs as [Ho Hb Hsp Hp]. constructor; simpl; assumption.
Qed.

Lemma chained_run trace s :
  Forall quiet_event trace -> chained s -> chained (run decodeAudioData trace s).
Proof.
  intros Hq. revert s. induction Hq as [|e trace He _ IH]; intros s Hs; simpl.
  - exact Hs.
  - apply IH. now apply chained_step.
Qed.

Lemma chained_fresh s :
  started s = [] -> pending s = [] -> chained s.
Proof.
  intros Hs Hp. constructor; rewrite ?Hs, ?Hp; simpl; try discriminate.
  intros k [].
Qed.


(** What is in front of the record of started buffers plays no part in
    a step, hence none in a run. *)
Lemma resume_prepend l k s :
  onmessage_resume decodeAudioData k (prepend_started l s) =
  prepend_started l (onmessage_resume decodeAudioData k s).
Proof.
  unfold onmessage_resume, interruption_check, prepend_started,
    set_next, push_started, log_error.
  destruct (decodeAudioData (payload k)) as [buf|], (interrupted (msg k)); simpl;
    rewrite <- ?app_assoc; reflexivity.
Qed.

Lemma step_prepend l e s :
  step decodeAudioData (prepend_started l s) e =
  prepend_started l (step decodeAudioData s e).
Proof.
  destruct e as [m now|n|]; simpl.
  - unfold onmessage_begin, interruption_check. simpl.
    destruct (inlineData m) as [data|], (audioContextRef s) as [ctx|],
      (interrupted m); try reflexivity;
      destruct (truthy_string data); reflexivity.
  - destruct (take_pending n (pending s)) as [[k rest]|]; [|reflexivity].
    exact (resume_prepend l k (set_pending rest s)).
  - reflexivity.
Qed.

Lemma run_prepend l trace s :
  run decodeAudioData trace (prepend_started l s) =
  prepend_started l (run decodeAudioData trace s).
Proof.
  revert s. induction trace as [|e trace IH]; intros s; simpl; [reflexivity|].
  rewrite step_prepend. apply IH.
Qed.

(** The buffers on record after a run are those on record before it,
    followed by those the run started. *)
Lemma started_run trace s :
  started (run decodeAudioData trace s) =
  started s ++ started (run decodeAudioData trace (forget_started s)).
Proof.
  assert (E : s = prepend_started (started s) (forget_started s)).
  { destruct s. unfold prepend_started, forget_started. simpl.
    rewrite app_nil_r. reflexivity. }
  rewrite E at 1. rewrite run_prepend. reflexivity.
Qed.

Lemma not_before_step t e s :
  quiet_event e -> not_before t s -> not_before t (step decodeAudioData s e).
Proof.
  intros He [Hc Hs Hp]. destruct e as [m now|n|]; simpl in *.
  - unfold onmessage_begin. rewrite (interruption_check_quiet m s He).
    assert (Hsame : not_before t s) by (constructor; assumption).
    destruct (inlineData m) as [data|]; [|exact Hsame].
    destruct (audioContextRef s) as [ctx|]; [|exact Hsame].
    destruct (truthy_string data); [|exact Hsame].
    constructor; simpl.
    + pose proof (Q.le_max_l (nextStartTimeRef s) now). lra.
    + exact Hs.
    + intros k Hk. apply in_app_or in Hk as [Hk|[<-|[]]]; [auto | exact He].
  - destruct (take_pending n (pending s)) as [[k rest]|] eqn:Ht;
      [|constructor; assumption].
    apply take_pending_sound in Ht as [Hk Hrest].
    unfold onmessage_resume.
    rewrite interruption_check_quiet by (apply Hp; exact Hk).
    destruct (decodeAudioData (payload k)) as [buf|].
    + pose proof (duration_nonneg buf) as Hd.
      constructor; simpl.
      * lra.
      * intros x Hx. apply in_app_or in Hx as [Hx|[<-|[]]]; [auto | exact Hc].
      * intros x Hx. apply Hp. auto.
    + constructor; simpl; [exact Hc | exact Hs | intros x Hx; apply Hp; auto].
  - constructor; assumption.
Qed.

Lemma not_before_run t trace s :
  Forall quiet_event trace -> not_before t s ->
  not_before t (run decodeAudioData trace s).
Proof.
  intros Hq. revert s. induction Hq as [|e trace He _ IH]; intros s Hs; simpl.
  - exact Hs.
  - apply IH. now apply not_before_step.
Qed.

End SchedulerProperties.

Section SchedulerClaims.

Import Scheduler.

Variable decodeAudioData : string -> option AudioBuffer.

(** How [onmessage] unfolds on a chunk that carries audio while an
    output context exists. *)
Lemma onmessage_audio m now s data ctx :
  inlineData m = Some data -> truthy_string data = true ->
  audioContextRef s = Some ctx ->
  onmessage decodeAudioData m now s =
  onmessage_resume decodeAudioData (mkSuspended (arrivals s) m data)
    (count_arrival (set_next (Qmax (nextStartTimeRef s) now) (set_speaking true s))).
Proof.
  intros Hd Ht Hc. unfold onmessage, onmessage_begin.
  rewrite Hd, Hc, Ht. reflexivity.
Qed.


(** C2 (as amended): a chunk that fails to decode and carries no
    interruption flag is logged and dropped: nothing is scheduled and no
    duration is added to the clock.  The clamp done on arrival, before
    the decode, still applies, so the clock afterwards is the larger of
    its old value and the output clock's reading at arrival; it keeps
    its old value whenever that was not behind the output clock, and the
    part of the handler that runs after the failed decode never changes
    it. *)
Theorem decode_failure_drops_chunk (m : LiveServerMessage) (now : Q) (s : State)
    (data : string) (ctx : nat) :
  inlineData m = Some data -> truthy_string data = true ->
  audioContextRef s = Some ctx ->
  decodeAudioData data = None -> interrupted m = false ->
  let s' := onmessage decodeAudioData m now s in
  started s' = started s /\
  console s' = console s ++ ["Audio decoding error"%string] /\
  nextStartTimeRef s' = Qmax (nextStartTimeRef s) now /\
  ((now <= nextStartTimeRef s)%Q -> (nextStartTimeRef s' == nextStartTimeRef s)%Q) /\
  (forall k s1, msg k = m -> payload k = data ->
     nextStartTimeRef (onmessage_resume decodeAudioData k s1) = nextStartTimeRef s1 /\
     started (onmessage_resume decodeAudioData k s1) = started s1).
Proof.
  intros Hd Ht Hc Hfail Hq s'. subst s'.
  rewrite (onmessage_audio m now s data ctx Hd Ht Hc).
  unfold onmessage_resume. simpl. rewrite Hfail.
  rewrite interruption_check_quiet by exact Hq. simpl.
  split; [reflexivity|]. split; [reflexivity|]. split; [reflexivity|]. split.
  - intros Hle. apply Q.max_l. exact Hle.
  - intros k s1 Hm Hp. unfold onmessage_resume. rewrite Hm, Hp, Hfail.
    rewrite interruption_check_quiet by exact Hq. split; reflexivity.
Qed.

(** C3 (as amended): once the handler of a message that carries the
    interruption flag has run to its end, the clock is 0, whatever it
    held before; this holds for the handler run in one piece, for a
    flagged message that does not suspend, and for the part of a flagged
    message's handler that runs after its decode.  What the next started
    buffer gets depends on when its chunk arrived.  A chunk that was in
    flight and whose decode settles while the clock is still 0 is
    started at 0, which is not after the time of the signal.  A chunk
    that arrives after the signal, at output-clock time [now], is started
    at [max(0, now) = now] when its handler runs right after the
    signal's with nothing in between; in every interleaving in which no
    further interruption is handled, every buffer started from that
    arrival on, the chunk's own among them, starts at [now] or later,
    hence not before the time of the signal.  ([t_signal] is the output
    clock's reading when the signal arrives; that clock never reads
    below 0.) *)
Theorem interruption_reset (signal : LiveServerMessage) (t_signal : Q) (s : State) :
  interrupted signal = true -> (0 <= t_signal)%Q ->
  let s1 := onmessage decodeAudioData signal t_signal s in
  nextStartTimeRef s1 = 0%Q /\
  (forall now s0, snd (onmessage_begin signal now s0) = None ->
     nextStartTimeRef (fst (onmessage_begin signal now s0)) = 0%Q) /\
  (forall k s0, msg k = signal ->
     nextStartTimeRef (onmessage_resume decodeAudioData k s0) = 0%Q) /\
  (forall k buf s0,
     nextStartTimeRef s0 = 0%Q -> decodeAudioData (payload k) = Some buf ->
     exists x,
       started (onmessage_resume decodeAudioData k s0) = started s0 ++ [x] /\
       chunk x = seq k /\ start x = 0%Q /\ (start x <= t_signal)%Q) /\
  (forall m now data buf ctx,
     inlineData m = Some data -> truthy_string data = true ->
     audioContextRef s = Some ctx -> decodeAudioData data = Some buf ->
     (t_signal <= now)%Q ->
     exists x,
       started (onmessage decodeAudioData m now s1) = started s1 ++ [x] /\
       chunk x = arrivals s1 /\ start x = Qmax 0 now /\
       (start x == now)%Q /\ (t_signal <= start x)%Q) /\
  (forall m now data ctx s0 trace,
     inlineData m = Some data -> truthy_string data = true ->
     audioContextRef s0 = Some ctx -> interrupted m = false ->
     (forall k, In k (pending s0) -> interrupted (msg k) = false) ->
     Forall quiet_event trace -> (t_signal <= now)%Q ->
     exists l,
       started (run decodeAudioData (Message m now :: trace) s0) = started s0 ++ l /\
       Forall (fun x => (now <= start x)%Q /\ (t_signal <= start x)%Q) l).
Proof.
  intros Hint H0 s1.
  assert (Hchk : forall s0, nextStartTimeRef (interruption_check signal s0) = 0%Q /\
                            audioContextRef (interruption_check signal s0) =
                              audioContextRef s0).
  { intros s0. unfold interruption_check. rewrite Hint. simpl. now split. }
  assert (Hres : forall k s0, msg k = signal ->
            nextStartTimeRef (onmessage_resume decodeAudioData k s0) = 0%Q /\
            audioContextRef (onmessage_resume decodeAudioData k s0) =
              audioContextRef s0).
  { intros k s0 Hk. unfold onmessage_resume. rewrite Hk.
    split; [apply Hchk|]. rewrite (proj2 (Hchk _)).
    destruct (decodeAudioData (payload k)); reflexivity. }
  assert (Hreset : nextStartTimeRef s1 = 0%Q /\ audioContextRef s1 = audioContextRef s).
  { subst s1. unfold onmessage, onmessage_begin.
    destruct (inlineData signal) as [d|]; [|now apply Hchk].
    destruct (audioContextRef s) as [c|] eqn:Hc; [|rewrite <- Hc; now apply Hchk].
    destruct (truthy_string d); [|rewrite <- Hc; now apply Hchk].
    destruct (Hres (mkSuspended (arrivals s) signal d)
                (count_arrival
                   (set_next (Qmax (nextStartTimeRef (set_speaking true s)) t_signal)
                      (set_speaking true s))) eq_refl) as [Hz Ha].
    split; [exact Hz|]. rewrite Ha. simpl. exact Hc. }
  destruct Hreset as [Hz Hc1].
  split; [exact Hz|].
  split.
  { intros now s0. unfold onmessage_begin.
    destruct (inlineData signal) as [d|]; [|intros _; apply Hchk].
    destruct (audioContextRef s0); [|intros _; apply Hchk].
    destruct (truthy_string d); [discriminate | intros _; apply Hchk]. }
  split; [intros k s0 Hk; apply (Hres k s0 Hk)|].
  split.
  { intros k buf s0 Hs0 Hdec. exists (mkScheduled (seq k) 0 (duration buf)).
    split; [|split; [reflexivity | split; [reflexivity | exact H0]]].
    unfold onmessage_resume. rewrite Hdec, Hs0. unfold interruption_check.
    destruct (interrupted (msg k)); reflexivity. }
  split.
  { intros m now data buf ctx Hd Ht Hc Hdec Hle.
    assert (Hmax : (Qmax 0 now == now)%Q) by (apply Q.max_r; lra).
    exists (mkScheduled (arrivals s1) (Qmax 0 now) (duration buf)).
    split; [|split; [reflexivity | split; [reflexivity | simpl; split; [exact Hmax | lra]]]].
    rewrite (onmessage_audio m now s1 data ctx Hd Ht) by (rewrite Hc1; exact Hc).
    unfold onmessage_resume. simpl. rewrite Hdec. rewrite Hz.
    unfold interruption_check. destruct (interrupted m); reflexivity. }
  intros m now data ctx s0 trace Hd Ht Hc Hq Hp Htr Hle.
  set (s0' := step decodeAudioData s0 (Message m now)).
  exists (started (run decodeAudioData trace (forget_started s0'))).
  assert (E : s0' = set_pending (pending s0 ++ [mkSuspended (arrivals s0) m data])
                      (count_arrival
                         (set_next (Qmax (nextStartTimeRef s0) now)
                            (set_speaking true s0)))).
  { unfold s0'. simpl. unfold onmessage_begin. rewrite Hd, Hc, Ht. reflexivity. }
  split.
  { change (run decodeAudioData (Message m now :: trace) s0)
      with (run decodeAudioData trace s0').
    rewrite started_run. rewrite E. reflexivity. }
  assert (Hnb : not_before now (forget_started s0')).
  { rewrite E. constructor; simpl.
    - apply Q.le_max_r.
    - intros x [].
    - intros k Hk. apply in_app_or in Hk as [Hk|[<-|[]]]; [auto | exact Hq]. }
  pose proof (not_before_run decodeAudioData now trace _ Htr Hnb) as Hrun.
  apply Forall_forall. intros x Hx. apply list_elem_of_In in Hx.
  pose proof (not_before_started _ _ Hrun x Hx). split; lra.
Qed.

End SchedulerClaims.

Section SchedulerExamples.

Import Scheduler.



(** What that run starts after the barge-in: chunk 4 at 11.2 (it
    arrived at 11.15, and the arrival of chunk 5 moved the clock to 11.2
    before its decode settled), the chunk that was in flight behind it,
    chunk 5 last. *)
Lemma next_turn_started :
  started interrupted_turn =
    [mkScheduled 0 10 0.5; mkScheduled 1 10.5 0.3; mkScheduled 2 10.8 0.4] /\
  nextStartTimeRef interrupted_turn = 0%Q /\
  map chunk (started (run sample_decoder next_turn interrupted_turn)) =
    [0; 1; 2; 4; 3; 5]%nat /\
  Forall2 Qeq
    (map start (started (run sample_decoder next_turn interrupted_turn)))
    [10; 10.5; 10.8; 11.2; 11.4; 11.9]%Q.
Proof.
  split; [reflexivity|]. split; [reflexivity|]. split; [reflexivity|].
  vm_compute. repeat constructor.
Qed.

(** C2 (as stated) fails: from the initial clock 0, a chunk that does
    not decode, arriving while the output clock reads 10, leaves the
    clock at 10. *)
Lemma decode_failure_clock_counterexample :
  sample_decoder "?" = None /\
  nextStartTimeRef (initial (Some 0%nat)) = 0%Q /\
  (nextStartTimeRef (onmessage sample_decoder (audio "?") 10 (initial (Some 0%nat))) == 10)%Q /\
  ~ (nextStartTimeRef (onmessage sample_decoder (audio "?") 10 (initial (Some 0%nat)))
     == nextStartTimeRef (initial (Some 0%nat)))%Q.
Proof.
  split; [reflexivity|]. split; [reflexivity|]. split; [reflexivity|].
  vm_compute. discriminate.
Qed.

Lemma decode_failure_drops_chunk_witness :
  let s := initial (Some 0%nat) in
  let s' := onmessage sample_decoder (audio "?") 10 s in
  started s' = started s /\
  console s' = console s ++ ["Audio decoding error"%string] /\
  nextStartTimeRef s' = Qmax (nextStartTimeRef s) 10 /\
  ((10 <= nextStartTimeRef s)%Q -> (nextStartTimeRef s' == nextStartTimeRef s)%Q) /\
  (forall k s1, msg k = audio "?" -> payload k = "?"%string ->
     nextStartTimeRef (onmessage_resume sample_decoder k s1) = nextStartTimeRef s1 /\
     started (onmessage_resume sample_decoder k s1) = started s1).
Proof.
  apply (decode_failure_drops_chunk sample_decoder (audio "?") 10 (initial (Some 0%nat))
           "?" 0%nat); reflexivity.
Defined.

(** C3 (as stated) fails: the clock holds 11.2 when the signal arrives at
    output-clock time 10.6; the clock is reset to 0, and the next chunk,
    arriving at 10.7, is started at 10.7, which is after 10.6. *)
Lemma interruption_reset_counterexample :
  let s0 := mkState (Some 0%nat) 11.2 false [] [] [] 3 in
  let s1 := onmessage sample_decoder barge_in 10.6 s0 in
  let s2 := onmessage sample_decoder (audio "D") 10.7 s1 in
  nextStartTimeRef s1 = 0%Q /\
  exists x, started s2 = [x] /\ (start x == 10.7)%Q /\ ~ (start x <= 10.6)%Q.
Proof.
  split; [reflexivity|].
  exists (mkScheduled 3 (Qmax 0 10.7) (4800 # 24000)).
  split; [reflexivity|]. split; [reflexivity|].
  vm_compute. intros H. apply H. reflexivity.
Qed.

(** A chunk that was in flight when the signal arrived is started at the
    reset clock, 0, once its decode settles. *)
Lemma inflight_chunk_after_reset :
  started (run sample_decoder
             [Message (audio "A") 10%Q; Message barge_in 10.6%Q; DecodeSettled 0]
             (initial (Some 0%nat))) =
  [mkScheduled 0 0 (12000 # 24000)].
Proof.
  reflexivity.
Qed.

(** After a barge-in at 10.6, chunk 3 arrives at 10.7 and chunk 4 at
    10.75 before either decode settles: chunk 3 is started at 10.75. *)
Lemma crowded_restart_started :
  Forall2 Qeq
    (map start (started (run sample_decoder (Message barge_in 10.6 :: crowded_restart)
                           (forget_started mid_turn))))
    [10.75; 10.95]%Q /\
  map chunk (started (run sample_decoder (Message barge_in 10.6 :: crowded_restart)
                        (forget_started mid_turn))) = [3; 4]%nat.
Proof.
  split; [vm_compute; repeat constructor | reflexivity].
Qed.

Lemma interruption_reset_witness :
  let s1 := onmessage sample_decoder barge_in 10.6 mid_turn in
  nextStartTimeRef s1 = 0%Q /\
  (exists x,
     started (onmessage_resume sample_decoder (mkSuspended 3 (audio "A") "A") s1) =
       started s1 ++ [x] /\
     chunk x = 3%nat /\ start x = 0%Q /\ (start x <= 10.6)%Q) /\
  (exists x,
     started (onmessage sample_decoder (audio "D") 10.7 s1) = started s1 ++ [x] /\
     chunk x = arrivals s1 /\ start x = Qmax 0 10.7 /\
     (start x == 10.7)%Q /\ (10.6 <= start x)%Q) /\
  exists l,
    started (run sample_decoder (Message (audio "D") 10.7 :: tl crowded_restart) s1) =
      started s1 ++ l /\
    Forall (fun x => (10.7 <= start x)%Q /\ (10.6 <= start x)%Q) l.
Proof.
  intros s1.
  destruct (interruption_reset sample_decoder barge_in 10.6 mid_turn)
    as (Hz & _ & _ & Hflight & Hnext & Hany);
    [reflexivity | unfold Qle; simpl; lia |].
  split; [exact Hz|].
  split.
  { apply (Hflight (mkSuspended 3 (audio "A") "A") (mkAudioBuffer 12000 24000) s1);
      reflexivity. }
  split.
  { apply (Hnext (audio "D") 10.7%Q "D"%string (mkAudioBuffer 4800 24000) 0%nat);
      try reflexivity. unfold Qle; simpl; lia. }
  apply (Hany (audio "D") 10.7%Q "D"%string 0%nat s1 (tl crowded_restart));
    try reflexivity.
  - intros k [].
  - repeat constructor.
  - unfold Qle; simpl; lia.
Defined.

End SchedulerExamples.

(** * Properties of the playback clock in binary64 *)

Section Scheduler64Properties.

Import PrimFloat.
Import Scheduler.
Import Scheduler64.

Variable decodeAudioData : string -> option AudioBuffer.

(** Comparison of binary64 numbers, through its specification. *)
Lemma SFcompare_antisym (a b : SpecFloat.spec_float) :
  SpecFloat.SFcompare b a = option_map CompOpp (SpecFloat.SFcompare a b).
Proof.
  destruct a as [sa|sa| |sa ma ea], b as [sb|sb| |sb mb eb]; simpl;
    try reflexivity;
    try (destruct sa; reflexivity); try (destruct sb; reflexivity);
    try (destruct sa, sb; reflexivity).
  pose proof (Pos.compare_cont_antisym ma mb Eq) as Hm. simpl in Hm.
  destruct sa, sb; simpl; try reflexivity;
    rewrite (Z.compare_antisym ea eb);
    destruct (ea ?= eb)%Z; simpl; try reflexivity;
    rewrite <- Hm; destruct (Pos.compare_cont Eq ma mb); reflexivity.
Qed.

Lemma SFcompare_refl (a : SpecFloat.spec_float) :
  a <> SpecFloat.S754_nan -> SpecFloat.SFcompare a a = Some Eq.
Proof.
  destruct a as [sa|sa| |sa ma ea]; simpl; intros Ha;
    [reflexivity | destruct sa; reflexivity | contradiction |].
  destruct sa; rewrite Z.compare_refl, Pos.compare_cont_refl; reflexivity.
Qed.

(** [x < y] holds only between numbers, and excludes [y < x]. *)
Lemma ltb_true_inv (x y : float) :
  ltb x y = true -> ltb y x = false /\ is_nan x = false /\ is_nan y = false.
Proof.
  unfold is_nan. rewrite !FloatAxioms.ltb_spec, !FloatAxioms.eqb_spec.
  generalize (FloatOps.Prim2SF x) (FloatOps.Prim2SF y). intros a b.
  unfold SpecFloat.SFltb, SpecFloat.SFeqb. intros Hlt.
  rewrite (SFcompare_antisym a b).
  destruct (SpecFloat.SFcompare a b) as [[| |]|] eqn:Hc; try discriminate.
  split; [reflexivity|].
  assert (Ha : a <> SpecFloat.S754_nan) by (intros ->; discriminate).
  assert (Hb : b <> SpecFloat.S754_nan)
    by (intros ->; destruct a; try destruct s; discriminate).
  rewrite (SFcompare_refl a Ha), (SFcompare_refl b Hb). split; reflexivity.
Qed.

(** When the clamp of line 188 leaves the clock as it is. *)
Lemma Math_max_left (a b : float) :
  is_nan a = false -> is_nan b = false ->
  ltb neg_infinity a = true -> is_negative_zero a = false ->
  ltb a b = false ->
  Math_max a b = a.
Proof.
  intros Ha Hb Hinf Hz Hlt. unfold Math_max. rewrite Ha, Hb. cbn [orb].
  assert (E : max_step neg_infinity a = a).
  { unfold max_step. change (is_negative_zero neg_infinity) with false.
    cbn [andb]. rewrite Hinf. reflexivity. }
  rewrite E. unfold max_step. rewrite Hz, Hlt. reflexivity.
Qed.

Lemma interruption_check_quiet64 m (s : State) :
  interrupted m = false -> interruption_check m s = s.
Proof.
  unfold interruption_check. now intros ->.
Qed.

(** How [onmessage] unfolds on a playable chunk while an output context
    exists. *)
Lemma onmessage_playable m now (s : State) ctx :
  audioContextRef s = Some ctx -> playable decodeAudioData m ->
  exists buf,
    onmessage decodeAudioData m now s =
    mkState (Some ctx)
            (add (Math_max (nextStartTimeRef s) now) (duration buf)) true
            (started s ++
               [mkScheduled (arrivals s) (Math_max (nextStartTimeRef s) now)
                            (duration buf)])
            (console s) (S (arrivals s)) /\
    exists data, inlineData m = Some data /\ decodeAudioData data = Some buf.
Proof.
  intros Hctx (data & buf & Hd & Ht & Hdec & Hq). exists buf.
  split; [|exists data; split; assumption].
  unfold onmessage, onmessage_begin. rewrite Hd, Hctx, Ht.
  unfold onmessage_resume. cbn [payload msg seq]. rewrite Hdec.
  rewrite interruption_check_quiet64 by exact Hq.
  unfold set_next, push_started, count_arrival, set_speaking. simpl.
  rewrite Hctx. reflexivity.
Qed.

(** C5 (as amended): three chunks of 0.5 s, 0.3 s and 0.4 s handled one
    after the other from the initial clock 0, the output clock reading
    10.0 at the first, 10.2 at the second and less than 10.8 at the
    third, start at exactly 10.0, 10.5 and 10.8.  The clock afterwards
    is the binary64 sum of 10.8 and 0.4, which is 11.200000000000001 and
    not 11.2.  Each buffer ends, as the handler computes it, exactly
    where the next one starts, and the last one where the clock is.  As
    real numbers, the second buffer starts exactly where the first
    ends; the third buffer and the final clock come after the end of
    the buffer before them, by less than 10^-15 s: no two buffers
    overlap. *)
Theorem three_chunk_scenario (m1 m2 m3 : LiveServerMessage) (d1 d2 d3 : string)
    (b1 b2 b3 : AudioBuffer) (ctx : nat) (now3 : float) :
  inlineData m1 = Some d1 -> inlineData m2 = Some d2 -> inlineData m3 = Some d3 ->
  truthy_string d1 = true -> truthy_string d2 = true -> truthy_string d3 = true ->
  interrupted m1 = false -> interrupted m2 = false -> interrupted m3 = false ->
  decodeAudioData d1 = Some b1 -> decodeAudioData d2 = Some b2 ->
  decodeAudioData d3 = Some b3 ->
  duration b1 = 0.5%float -> duration b2 = 0.3%float -> duration b3 = 0.4%float ->
  ltb now3 10.8%float = true ->
  let s1 := onmessage decodeAudioData m1 10.0%float (initial (Some ctx)) in
  let s2 := onmessage decodeAudioData m2 10.2%float s1 in
  let s3 := onmessage decodeAudioData m3 now3 s2 in
  exists x y z,
    started s3 = [x; y; z] /\
    start x = 10.0%float /\ start y = 10.5%float /\ start z = 10.8%float /\
    nextStartTimeRef s3 = add 10.8%float 0.4%float /\
    nextStartTimeRef s3 = 11.200000000000001%float /\
    nextStartTimeRef s3 <> 11.2%float /\
    finish x = start y /\ finish y = start z /\ finish z = nextStartTimeRef s3 /\
    follows_exactly x (start y) /\
    follows_within (1 # 10 ^ 15) y (start z) /\
    follows_within (1 # 10 ^ 15) z (nextStartTimeRef s3) /\
    chunk x = 0%nat /\ chunk y = 1%nat /\ chunk z = 2%nat.
Proof.
  intros Hi1 Hi2 Hi3 Ht1 Ht2 Ht3 Hq1 Hq2 Hq3 He1 He2 He3 Hd1 Hd2 Hd3 Hnow.
  cbv zeta.
  assert (P1 : playable decodeAudioData m1) by (exists d1, b1; auto).
  assert (P2 : playable decodeAudioData m2) by (exists d2, b2; auto).
  assert (P3 : playable decodeAudioData m3) by (exists d3, b3; auto).
  destruct (onmessage_playable m1 10.0%float (initial (Some ctx)) ctx eq_refl P1)
    as (c1 & E1 & data1 & Hdata1 & Hbuf1).
  assert (c1 = b1) by congruence. subst c1. clear data1 Hdata1 Hbuf1.
  rewrite E1. clear E1. cbn [nextStartTimeRef started console arrivals initial].
  rewrite Hd1.
  change (add (Math_max zero 10.0%float) 0.5%float) with 10.5%float.
  change (Math_max zero 10.0%float) with 10.0%float.
  match goal with |- context [onmessage _ m2 _ ?st] => set (s1 := st) end.
  destruct (onmessage_playable m2 10.2%float s1 ctx eq_refl P2)
    as (c2 & E2 & data2 & Hdata2 & Hbuf2).
  assert (c2 = b2) by congruence. subst c2. clear data2 Hdata2 Hbuf2.
  rewrite E2. clear E2. subst s1. cbn [nextStartTimeRef started console arrivals].
  rewrite Hd2.
  change (add (Math_max 10.5%float 10.2%float) 0.3%float) with 10.8%float.
  change (Math_max 10.5%float 10.2%float) with 10.5%float.
  match goal with |- context [onmessage _ m3 _ ?st] => set (s2 := st) end.
  destruct (onmessage_playable m3 now3 s2 ctx eq_refl P3)
    as (c3 & E3 & data3 & Hdata3 & Hbuf3).
  assert (c3 = b3) by congruence. subst c3. clear data3 Hdata3 Hbuf3.
  rewrite E3. clear E3. subst s2. cbn [nextStartTimeRef started console arrivals].
  rewrite Hd3.
  destruct (ltb_true_inv now3 10.8%float Hnow) as (Hgt & Hnan & _).
  rewrite (Math_max_left 10.8%float now3 eq_refl Hnan eq_refl eq_refl Hgt).
  eexists _, _, _. split; [reflexivity|]. cbn [start span chunk finish].
  split; [reflexivity|]. split; [reflexivity|]. split; [reflexivity|].
  split; [reflexivity|]. split; [reflexivity|]. split.
  { intros H. apply (f_equal (fun v => eqb v 11.2%float)) in H.
    vm_compute in H. discriminate. }
  split; [reflexivity|]. split; [reflexivity|]. split; [reflexivity|].
  split; [vm_compute; reflexivity|].
  split; [vm_compute; split; reflexivity|].
  split; [vm_compute; split; reflexivity|].
  repeat split; reflexivity.
Qed.

(** X6: Gapless playback: when chunks that decode are handled one after the
    other and each arrives while the clamp leaves the clock as it is
    (the output clock has not passed [nextStartTimeRef]), every chunk is
    started, the first at the old clock and each next one exactly where
    the one before ends as the handler computes it, and the clock ends
    where the last buffer does.  All times are binary64. *)
Theorem on_time_chunks_play_gapless (chunks : list (LiveServerMessage * float))
    (s : State) (ctx : nat) :
  audioContextRef s = Some ctx ->
  Forall (fun c => playable decodeAudioData (fst c)) chunks ->
  on_time decodeAudioData chunks s ->
  exists l,
    started (play decodeAudioData chunks s) = started s ++ l /\
    List.length l = List.length chunks /\
    abutting (nextStartTimeRef s) l /\
    nextStartTimeRef (play decodeAudioData chunks s) =
      last_finish (nextStartTimeRef s) l.
Proof.
  intros Hctx Hplay. revert s Hctx.
  induction Hplay as [|[m now] rest Hm _ IH]; intros s Hctx Htime.
  - exists []. simpl. rewrite app_nil_r. repeat split.
  - destruct Htime as [Hnow Hrest]. simpl in Hnow, Hrest, Hm. simpl.
    destruct (onmessage_playable m now s ctx Hctx Hm) as (buf & E & _).
    rewrite Hnow in E. rewrite E in *.
    match type of Hrest with
    | on_time _ _ ?st => destruct (IH st eq_refl Hrest) as (l & Hl & Hlen & Hab & Hclock)
    end.
    cbn [nextStartTimeRef started] in Hl, Hab, Hclock.
    exists (mkScheduled (arrivals s) (nextStartTimeRef s) (duration buf) :: l).
    split; [rewrite Hl, <- app_assoc; reflexivity|].
    split; [simpl; now rewrite Hlen|].
    split.
    + simpl. split; [reflexivity | exact Hab].
    + exact Hclock.
Qed.

End Scheduler64Properties.

Section Scheduler64Examples.

Import PrimFloat.
Import Scheduler.
Import Scheduler64.

(** The sample buffers last 0.5 s, 0.3 s and 0.4 s as binary64 numbers. *)
Lemma sample_durations :
  duration (mkAudioBuffer 12000 24000) = 0.5%float /\
  duration (mkAudioBuffer 7200 24000) = 0.3%float /\
  duration (mkAudioBuffer 9600 24000) = 0.4%float.
Proof.
  repeat split; reflexivity.
Qed.

(** C5 (as stated) fails: in the scenario of the claim, with the third
    chunk arriving at 10.3, the three start times are 10.0, 10.5 and
    10.8, and the clock afterwards is 11.200000000000001, not 11.2. *)
Lemma three_chunk_clock_counterexample :
  let s1 := onmessage sample_decoder (audio "A") 10.0%float (initial (Some 0%nat)) in
  let s2 := onmessage sample_decoder (audio "B") 10.2%float s1 in
  let s3 := onmessage sample_decoder (audio "C") 10.3%float s2 in
  ltb 10.3%float 10.8%float = true /\
  map start (started s3) = [10.0%float; 10.5%float; 10.8%float] /\
  map span (started s3) = [0.5%float; 0.3%float; 0.4%float] /\
  nextStartTimeRef s3 = 11.200000000000001%float /\
  eqb (nextStartTimeRef s3) 11.2%float = false /\
  nextStartTimeRef s3 <> 11.2%float /\
  ~ follows_exactly (mkScheduled 1 10.5%float 0.3%float) 10.8%float /\
  ~ follows_exactly (mkScheduled 2 10.8%float 0.4%float) (nextStartTimeRef s3).
Proof.
  split; [reflexivity|]. split; [reflexivity|]. split; [reflexivity|].
  split; [reflexivity|]. split; [reflexivity|].
  split.
  { intros H. apply (f_equal (fun v => eqb v 11.2%float)) in H.
    vm_compute in H. discriminate. }
  split; vm_compute; discriminate.
Qed.

Lemma three_chunk_scenario_witness :
  let s1 := onmessage sample_decoder (audio "A") 10.0%float (initial (Some 0%nat)) in
  let s2 := onmessage sample_decoder (audio "B") 10.2%float s1 in
  let s3 := onmessage sample_decoder (audio "C") 10.3%float s2 in
  exists x y z,
    started s3 = [x; y; z] /\
    start x = 10.0%float /\ start y = 10.5%float /\ start z = 10.8%float /\
    nextStartTimeRef s3 = add 10.8%float 0.4%float /\
    nextStartTimeRef s3 = 11.200000000000001%float /\
    nextStartTimeRef s3 <> 11.2%float /\
    finish x = start y /\ finish y = start z /\ finish z = nextStartTimeRef s3 /\
    follows_exactly x (start y) /\
    follows_within (1 # 10 ^ 15) y (start z) /\
    follows_within (1 # 10 ^ 15) z (nextStartTimeRef s3) /\
    chunk x = 0%nat /\ chunk y = 1%nat /\ chunk z = 2%nat.
Proof.
  apply (three_chunk_scenario sample_decoder (audio "A") (audio "B") (audio "C")
           "A" "B" "C"
           (mkAudioBuffer 12000 24000) (mkAudioBuffer 7200 24000)
           (mkAudioBuffer 9600 24000) 0%nat 10.3%float);
    reflexivity.
Defined.

Lemma on_time_chunks_play_gapless_witness :
  let s := mkState (Some 0%nat) 10.5%float false [] [] 1 in
  let chunks := [(audio "B", 10.2%float); (audio "C", 10.3%float)] in
  exists l,
    started (play sample_decoder chunks s) = started s ++ l /\
    List.length l = List.length chunks /\
    abutting (nextStartTimeRef s) l /\
    nextStartTimeRef (play sample_decoder chunks s) =
      last_finish (nextStartTimeRef s) l.
Proof.
  apply (on_time_chunks_play_gapless sample_decoder
           [(audio "B", 10.2%float); (audio "C", 10.3%float)]
           (mkState (Some 0%nat) 10.5%float false [] [] 1) 0%nat).
  - reflexivity.
  - repeat constructor.
    + exists "B"%string, (mkAudioBuffer 7200 24000). repeat split.
    + exists "C"%string, (mkAudioBuffer 9600 24000). repeat split.
  - simpl. split; [reflexivity|]. split; [reflexivity|]. exact I.
Defined.

(** What that run schedules: 0.3 s from 10.5, then 0.4 s from 10.8, the
    clock ending at 11.200000000000001. *)
Lemma gapless_run_values :
  let s := mkState (Some 0%nat) 10.5%float false [] [] 1 in
  let s' := play sample_decoder [(audio "B", 10.2%float); (audio "C", 10.3%float)] s in
  started s' = [mkScheduled 1 10.5%float 0.3%float; mkScheduled 2 10.8%float 0.4%float] /\
  nextStartTimeRef s' = 11.200000000000001%float.
Proof.
  split; reflexivity.
Qed.

End Scheduler64Examples.

(** * Properties of the Capture Encoder *)

Section CaptureProperties.

Import Capture.

Variables AudioFrame Blob : Type.
Variable createBlob : AudioFrame -> Blob.

Lemma capturing_step e s :
  after_init e -> capturing s -> capturing (step createBlob s e).
Proof.
  intros He (Hes & Hp & [se Hse] & [ic Hic] & [ms Hms]).
  destruct e as [stream ctx session| | |frame]; simpl in *.
  - contradiction.
  - unfold onopen. rewrite Hic, Hms. repeat split; simpl; eauto.
  - unfold toggleMic. rewrite Hms. repeat split; simpl; eauto.
  - unfold onaudioprocess, onaudioprocess_in. rewrite Hp. simpl. rewrite Hse.
    repeat split; simpl; eauto.
Qed.

Lemma capturing_run trace s :
  Forall after_init trace -> capturing s -> capturing (run createBlob trace s).
Proof.
  intros Ht. revert s. induction Ht as [|e trace He _ IH]; intros s Hs; simpl.
  - exact Hs.
  - apply IH. now apply capturing_step.
Qed.

Lemma capturing_open stream ctx session store :
  @capturing Blob (onopen (init stream ctx session (initial store))).
Proof.
  unfold capturing. simpl. repeat split; eauto.
Qed.

(** The mic state after a run that toggles it: one flip per [ToggleMic]
    while a stream exists. *)
Lemma toggleMic_flips s :
  is_Some (mediaStreamRef s) -> isMicOn (@toggleMic Blob s) = negb (isMicOn s).
Proof.
  intros [ms Hms]. unfold toggleMic. rewrite Hms. reflexivity.
Qed.

(** C4 (what the code does instead): in an open session every audio
    callback encodes its frame and hands it to the session, whatever the
    mute state and however often mute was toggled: the mute test of the
    callback reads the [isMicOn] of the render that created it, which is
    [true] for good. *)
Theorem capture_ignores_mute (stream : list nat) (ctx session : nat) (store : list Track)
    (trace : list (Event AudioFrame)) (inputData : AudioFrame) :
  Forall after_init trace ->
  let s := run createBlob (Init stream ctx session :: Open :: trace) (initial store) in
  sent (onaudioprocess createBlob inputData s) = sent s ++ [createBlob inputData].
Proof.
  intros Ht s.
  assert (Hc : capturing s).
  { subst s. simpl. apply capturing_run; [exact Ht | apply capturing_open]. }
  destruct Hc as (_ & Hp & [se Hse] & _ & _).
  unfold onaudioprocess, onaudioprocess_in. rewrite Hp. simpl. rewrite Hse. reflexivity.
Qed.

End CaptureProperties.

Section CaptureExamples.

Import Capture.

(** C4 at a concrete input: the session opens, the user mutes, the next
    microphone frame arrives.  The session is muted, the microphone track
    is disabled, nothing had been sent, and the frame is encoded and sent
    all the same: one chunk is produced while muted. *)
Lemma muted_frame_is_sent :
  let before := run (fun frame : list Z => frame) [Init [0; 1] 0 7; Open; ToggleMic]
                    (initial mic_and_camera) in
  let after := onaudioprocess (fun frame : list Z => frame) sample_frame before in
  muted before = true /\
  tracks before !! 0%nat = Some (mkTrack AudioKind false Live None) /\
  sent before = [] /\
  sent after = [sample_frame] /\
  after = run (fun frame : list Z => frame) muted_then_frame (initial mic_and_camera).
Proof.
  repeat split.
Qed.

Lemma capture_ignores_mute_witness :
  let s := run (fun frame : list Z => frame) [Init [0; 1] 0 7; Open; ToggleMic]
               (initial mic_and_camera) in
  muted s = true /\
  sent (onaudioprocess (fun frame : list Z => frame) sample_frame s) =
  sent s ++ [sample_frame].
Proof.
  split; [reflexivity|].
  apply (capture_ignores_mute (list Z) (list Z) (fun frame => frame) [0; 1] 0 7
           mic_and_camera [ToggleMic] sample_frame).
  repeat constructor.
Defined.

End CaptureExamples.

(** * Properties of the Device/Track Manager *)

Section DeviceTrackProperties.

Import DeviceTracks.

Lemma has_kind_true p (store : TrackStore) i :
  has_kind p store i = true -> exists t, store !! i = Some t /\ p t = true.
Proof.
  unfold has_kind. destruct (store !! i) as [t|]; [eauto | discriminate].
Qed.

Lemma video_not_audio (store : TrackStore) i :
  has_kind is_video store i = true -> has_kind is_audio store i = false.
Proof.
  unfold has_kind, is_video, is_audio.
  destruct (store !! i) as [t|]; [destruct (kind t); congruence | discriminate].
Qed.

Lemma filter_remove_other (p : nat -> bool) x l :
  p x = false ->
  List.filter p (List.filter (fun i => negb (Nat.eqb i x)) l) = List.filter p l.
Proof.
  intros Hx. induction l as [|h t IH]; simpl; [reflexivity|].
  destruct (Nat.eqb_spec h x) as [->|Hne]; simpl.
  - rewrite Hx. exact IH.
  - destruct (p h); [f_equal|]; exact IH.
Qed.

Lemma filter_add_other (p : nat -> bool) x l :
  p x = false ->
  List.filter p (if existsb (Nat.eqb x) l then l else l ++ [x]) = List.filter p l.
Proof.
  intros Hx. destruct (existsb (Nat.eqb x) l); [reflexivity|].
  rewrite List.filter_app. simpl. rewrite Hx. apply app_nil_r.
Qed.

Lemma head_filter_true (p : nat -> bool) l x :
  head (List.filter p l) = Some x -> p x = true /\ In x l.
Proof.
  intros H. assert (Hin : In x (List.filter p l)).
  { destruct (List.filter p l); [discriminate|]. injection H as ->. now left. }
  apply filter_In in Hin. tauto.
Qed.

Lemma audio_kept_refl s : audio_kept s s.
Proof.
  constructor; [reflexivity | intros i t Ht; eauto | reflexivity].
Qed.

Lemma audio_kept_trans s1 s2 s3 :
  audio_kept s1 s2 -> audio_kept s2 s3 -> audio_kept s1 s3.
Proof.
  intros [R1 O1 I1] [R2 O2 I2]. constructor.
  - congruence.
  - intros i t Ht. destruct (O1 i t Ht) as (t' & Ht' & Hk & Ha).
    destruct (O2 i t' Ht') as (t'' & Ht'' & Hk' & Ha').
    exists t''. split; [exact Ht''|]. split; [congruence|].
    intros Hau. rewrite <- (Ha Hau). apply Ha'. congruence.
  - intros cur Hcur. rewrite I2 by congruence. apply I1. exact Hcur.
Qed.

(** Changes that touch neither the track objects nor the streams. *)
Lemma audio_kept_same s s' :
  mediaStreamRef s' = mediaStreamRef s -> tracks s' = tracks s ->
  streams s' = streams s -> audio_kept s s'.
Proof.
  intros Hr Ht Hs. constructor.
  - exact Hr.
  - intros i t Hi. rewrite Ht. eauto.
  - intros cur _. unfold audio_ids, stream_tracks. now rewrite Ht, Hs.
Qed.

Lemma audio_kept_video s s' x :
  audio_kept s s' ->
  has_kind is_video (tracks s) x = true -> has_kind is_video (tracks s') x = true.
Proof.
  intros [_ Ho _] Hx. apply has_kind_true in Hx as (t & Ht & Hv).
  destruct (Ho x t Ht) as (t' & Ht' & Hk & _).
  unfold has_kind. rewrite Ht'. unfold is_video in *. now rewrite Hk.
Qed.

(** Assigning to a video track object. *)
Lemma audio_kept_alter (f : Track -> Track) x s :
  (forall t, kind (f t) = kind t) ->
  has_kind is_video (tracks s) x = true ->
  audio_kept s (set_tracks (alter f x) s).
Proof.
  intros Hf Hx. apply has_kind_true in Hx as (tx & Htx & Hvx).
  assert (Hobj : forall i t, tracks s !! i = Some t ->
            exists t', alter f x (tracks s) !! i = Some t' /\ kind t' = kind t /\
                       (kind t = AudioKind -> t' = t)).
  { intros i t Ht. destruct (Nat.eq_dec x i) as [<-|Hne].
    - rewrite list_lookup_alter_eq, Ht. simpl. exists (f t).
      split; [reflexivity|]. split; [apply Hf|].
      intros Ha. rewrite Ht in Htx. injection Htx as <-.
      unfold is_video in Hvx. rewrite Ha in Hvx. discriminate.
    - rewrite list_lookup_alter_ne by exact Hne. eauto. }
  constructor; simpl.
  - reflexivity.
  - exact Hobj.
  - intros cur _. unfold audio_ids, stream_tracks, getAudioTracks. simpl.
    apply filter_ext. intros i. unfold has_kind.
    destruct (tracks s !! i) as [t|] eqn:Ht.
    + destruct (Hobj i t Ht) as (t' & -> & Hk & _). unfold is_audio. now rewrite Hk.
    + assert (alter f x (tracks s) !! i = None) as ->; [|reflexivity].
      apply lookup_ge_None. rewrite length_alter. now apply lookup_ge_None.
Qed.

(** Rewriting the track list of a stream in a way that does not change
    its audio part. *)
Lemma audio_kept_stream (g : MediaStream -> MediaStream) sid s :
  (forall l, getAudioTracks (tracks s) (g l) = getAudioTracks (tracks s) l) ->
  audio_kept s (set_streams (alter g sid) s).
Proof.
  intros Hg. constructor; simpl.
  - reflexivity.
  - intros i t Ht. eauto.
  - intros cur _. unfold audio_ids, stream_tracks. simpl.
    destruct (Nat.eq_dec sid cur) as [<-|Hne].
    + rewrite list_lookup_alter_eq. destruct (streams s !! sid) as [l|]; simpl.
      * apply Hg.
      * reflexivity.
    + now rewrite list_lookup_alter_ne by exact Hne.
Qed.

Lemma audio_kept_removeTrack sid x s :
  has_kind is_video (tracks s) x = true -> audio_kept s (removeTrack sid x s).
Proof.
  intros Hx. apply audio_kept_stream. intros l.
  apply filter_remove_other. now apply video_not_audio.
Qed.

Lemma audio_kept_addTrack sid x s :
  has_kind is_video (tracks s) x = true -> audio_kept s (addTrack sid x s).
Proof.
  intros Hx. apply audio_kept_stream. intros l.
  apply filter_add_other. now apply video_not_audio.
Qed.

(** A granted acquisition adds objects and touches none. *)
Lemma audio_kept_acquire newTracks s :
  well_formed s ->
  audio_kept s (snd (acquire (Granted newTracks) s)).
Proof.
  intros Hwf. constructor; simpl.
  - reflexivity.
  - intros i t Ht. exists t. rewrite lookup_app_l by (eapply lookup_lt_Some; eauto).
    auto.
  - intros cur Hcur. destruct (Hwf cur Hcur) as [Hlt Hids].
    unfold audio_ids, stream_tracks in *. simpl.
    rewrite lookup_app_l by exact Hlt.
    unfold getAudioTracks. apply filter_ext_in. intros i Hi.
    unfold has_kind. now rewrite lookup_app_l by (apply Hids; exact Hi).
Qed.

(** The audio side of the shared stream is the same in two states
    related by [audio_kept]. *)
Lemma audio_kept_tracks s s' :
  audio_kept s s' -> audio_tracks s' = audio_tracks s.
Proof.
  intros [Hr Ho Hi]. unfold audio_tracks. rewrite Hr.
  destruct (mediaStreamRef s) as [cur|]; [|reflexivity].
  specialize (Hi cur eq_refl). unfold audio_ids in Hi. rewrite Hi.
  apply map_ext_in. intros i Hin. f_equal.
  apply filter_In in Hin as [_ Hau].
  apply has_kind_true in Hau as (t & Ht & Hk).
  destruct (Ho i t Ht) as (t' & Ht' & _ & Ha).
  rewrite Ht, Ht'. f_equal. apply Ha.
  unfold is_audio in Hk. destruct (kind t); [reflexivity | discriminate].
Qed.

Lemma first_video_track_video s sid x :
  first_video_track s sid = Some x -> has_kind is_video (tracks s) x = true.
Proof.
  unfold first_video_track, getVideoTracks. intros H.
  now apply head_filter_true in H as [H _].
Qed.

Lemma swap_video_keeps_audio newTrack s :
  (forall n, newTrack = Some n -> has_kind is_video (tracks s) n = true) ->
  audio_kept s (snd (swap_video newTrack s)).
Proof.
  intros Hnew. unfold swap_video, bind, gets, modify, defined, ret, throw. simpl.
  destruct (videoRef s) as [v|]; [|apply audio_kept_refl].
  destruct (mediaStreamRef s) as [cur|] eqn:Hcur; [|apply audio_kept_refl].
  destruct (first_video_track s cur) as [old|] eqn:Hold; simpl; [|apply audio_kept_refl].
  apply first_video_track_video in Hold.
  pose proof (audio_kept_alter stop_track old s (fun t => eq_refl) Hold) as K1.
  set (s1 := set_tracks (alter stop_track old) s) in *.
  pose proof (audio_kept_removeTrack cur old s1 (audio_kept_video _ _ _ K1 Hold)) as K2.
  pose proof (audio_kept_trans _ _ _ K1 K2) as K12.
  destruct newTrack as [new|]; simpl; [|exact K12].
  pose proof (audio_kept_video _ _ _ K12 (Hnew new eq_refl)) as Hv.
  pose proof (audio_kept_addTrack cur new _ Hv) as K3.
  eapply audio_kept_trans; [exact K12|].
  eapply audio_kept_trans; [exact K3|].
  apply audio_kept_same; reflexivity.
Qed.

Lemma startScreenShare_keeps_audio a s :
  well_formed s -> audio_kept s (snd (startScreenShare a s)).
Proof.
  intros Hwf. unfold startScreenShare, try_catch, bind.
  destruct a as [newTracks|e]; simpl; [|apply audio_kept_same; reflexivity].
  pose proof (audio_kept_acquire newTracks s Hwf) as K1. simpl in K1.
  set (s1 := set_streams _ (set_tracks _ s)) in *.
  destruct (first_video_track s1 (List.length (streams s))) as [new|] eqn:Hnew.
  - pose proof (first_video_track_video _ _ _ Hnew) as Hv.
    assert (K2 : audio_kept s1 (snd (swap_video (Some new) s1))).
    { apply swap_video_keeps_audio. now intros n [= <-]. }
    destruct (swap_video (Some new) s1) as [[[]|err] s2]; simpl in *.
    + eapply audio_kept_trans; [exact K1|].
      eapply audio_kept_trans; [exact K2|].
      eapply audio_kept_trans;
        [apply (audio_kept_alter (set_onended CallStopScreenShare) new s2
                  (fun t => eq_refl) (audio_kept_video _ _ _ K2 Hv))|].
      apply audio_kept_same; reflexivity.
    + eapply audio_kept_trans; [exact K1|].
      eapply audio_kept_trans; [exact K2|].
      apply audio_kept_same; reflexivity.
  - assert (K2 : audio_kept s1 (snd (swap_video None s1))).
    { apply swap_video_keeps_audio. discriminate. }
    destruct (swap_video None s1) as [[[]|err] s2]; simpl in *;
      (eapply audio_kept_trans; [exact K1|];
       eapply audio_kept_trans; [exact K2|];
       apply audio_kept_same; reflexivity).
Qed.

Lemma stopScreenShare_keeps_audio a s :
  well_formed s -> audio_kept s (snd (stopScreenShare a s)).
Proof.
  intros Hwf. unfold stopScreenShare, try_catch, bind.
  destruct a as [newTracks|e]; simpl; [|apply audio_kept_same; reflexivity].
  pose proof (audio_kept_acquire newTracks s Hwf) as K1. simpl in K1.
  set (s1 := set_streams _ (set_tracks _ s)) in *.
  assert (K2 : audio_kept s1
                 (snd (swap_video (first_video_track s1 (List.length (streams s))) s1))).
  { apply swap_video_keeps_audio. intros n Hn. eapply first_video_track_video; eauto. }
  destruct (swap_video (first_video_track s1 (List.length (streams s))) s1)
    as [[[]|err] s2]; simpl in *;
    (eapply audio_kept_trans; [exact K1|];
     eapply audio_kept_trans; [exact K2|];
     apply audio_kept_same; reflexivity).
Qed.

(** The continuation of [toggleScreenShare] keeps the audio side in
    whatever state it finds when the acquisition settles, whichever
    branch was chosen at the call. *)
Lemma toggleScreenShare_resume_keeps_audio (starting : bool) (a : Acquisition)
    (s : State) :
  well_formed s ->
  audio_tracks (state_of (toggleScreenShare_resume starting a s)) = audio_tracks s.
Proof.
  intros Hwf. unfold state_of, toggleScreenShare_resume.
  destruct starting; apply audio_kept_tracks.
  - now apply startScreenShare_keeps_audio.
  - now apply stopScreenShare_keeps_audio.
Qed.

(** Likewise, a rejected acquisition changes only the console. *)
Lemma toggleScreenShare_resume_rejected (starting : bool) (e : string) (s : State) :
  same_devices s (state_of (toggleScreenShare_resume starting (Rejected e) s)) /\
  threw (toggleScreenShare_resume starting (Rejected e) s) = false.
Proof.
  destruct starting; repeat split.
Qed.

(** C6: neither video swap touches the audio track.  Whatever the
    acquisition returns (a stream or a rejection) and whether or not the
    swap then completes, the shared stream holds the same audio tracks
    after [toggleScreenShare] and after [stopScreenShare] as before, and
    each of these track objects is in the state it was in (same kind,
    same [enabled], same [readyState], same [onended]). *)
Theorem video_swap_keeps_audio_track (a : Acquisition) (s : State) :
  well_formed s ->
  audio_tracks (state_of (toggleScreenShare a s)) = audio_tracks s /\
  audio_tracks (state_of (stopScreenShare a s)) = audio_tracks s.
Proof.
  intros Hwf. unfold state_of, toggleScreenShare, toggleScreenShare_resume, toggleScreenShare_begin. split.
  - destruct (negb (isScreenSharing s)); apply audio_kept_tracks.
    + now apply startScreenShare_keeps_audio.
    + now apply stopScreenShare_keeps_audio.
  - apply audio_kept_tracks. now apply stopScreenShare_keeps_audio.
Qed.

(** C7: when the acquisition is rejected, either transition ends in its
    [catch] block having changed nothing but the console: the same track
    objects in the same states, the same streams, the same shared stream
    and video element, the same sharing flag.  So the video track that
    was in the shared stream is still there, and live and enabled if it
    was; no track was stopped or detached. *)
Theorem failed_acquisition_aborts (e : string) (s : State) :
  let s1 := state_of (toggleScreenShare (Rejected e) s) in
  let s2 := state_of (stopScreenShare (Rejected e) s) in
  same_devices s s1 /\ same_devices s s2 /\
  video_tracks s1 = video_tracks s /\ video_tracks s2 = video_tracks s /\
  video_retained s s1 /\ video_retained s s2 /\
  threw (toggleScreenShare (Rejected e) s) = false /\
  threw (stopScreenShare (Rejected e) s) = false.
Proof.
  intros s1 s2.
  assert (E1 : s1 = console_error "Screen share failed" s \/
               s1 = console_error "Failed to revert to camera" s).
  { subst s1. unfold state_of, toggleScreenShare, toggleScreenShare_resume, toggleScreenShare_begin.
    destruct (negb (isScreenSharing s)); [left | right]; reflexivity. }
  assert (E2 : s2 = console_error "Failed to revert to camera" s) by reflexivity.
  assert (D : forall line, same_devices s (console_error line s))
    by (intros line; repeat split).
  assert (V : forall line, video_tracks (console_error line s) = video_tracks s)
    by reflexivity.
  assert (R : forall line, video_retained s (console_error line s))
    by (intros line i t Hin _ _; rewrite V; exact Hin).
  split; [destruct E1 as [->| ->]; apply D|].
  split; [rewrite E2; apply D|].
  split; [destruct E1 as [->| ->]; apply V|].
  split; [rewrite E2; apply V|].
  split; [destruct E1 as [->| ->]; apply R|].
  split; [rewrite E2; apply R|].
  split; [|reflexivity].
  unfold toggleScreenShare, toggleScreenShare_resume, toggleScreenShare_begin.
  destruct (negb (isScreenSharing s)); reflexivity.
Qed.

End DeviceTrackProperties.

Section DeviceTrackExamples.

Import DeviceTracks.

Lemma video_swap_keeps_audio_track_witness :
  audio_tracks (state_of (toggleScreenShare screen_capture camera_session)) =
    audio_tracks camera_session /\
  audio_tracks (state_of (stopScreenShare screen_capture camera_session)) =
    audio_tracks camera_session.
Proof.
  apply (video_swap_keeps_audio_track screen_capture camera_session).
  intros cur [= <-]. simpl. split; [lia|].
  intros i [<-|[<-|[]]]; lia.
Defined.

(** A granted screen capture does swap the video side: the camera track
    is stopped and leaves the stream, the screen track joins it. *)
Lemma screen_share_swaps_video :
  video_tracks (state_of (toggleScreenShare screen_capture camera_session)) =
    [(2%nat, Some (mkTrack VideoKind true Live (Some CallStopScreenShare)))] /\
  tracks (state_of (toggleScreenShare screen_capture camera_session)) !! 1%nat =
    Some (mkTrack VideoKind true Ended None).
Proof.
  split; reflexivity.
Qed.

Lemma failed_acquisition_aborts_witness :
  let s' := state_of (toggleScreenShare (Rejected "NotAllowedError") camera_session) in
  video_tracks s' = [(1%nat, Some (mkTrack VideoKind true Live None))] /\
  In (1%nat, Some (mkTrack VideoKind true Live None)) (video_tracks s').
Proof.
  destruct (failed_acquisition_aborts "NotAllowedError" camera_session)
    as (_ & _ & Hv & _ & Hkeep & _).
  split; [exact Hv|].
  apply (Hkeep 1%nat (mkTrack VideoKind true Live None));
    [left; reflexivity | reflexivity | reflexivity].
Defined.

(** Two clicks on the share button before the first capture is granted:
    both calls find [isScreenSharing] false, so both continuations run
    the start path.  The second capture replaces the first, which is
    stopped; the microphone is untouched. *)
Lemma overlapping_share_clicks :
  let first := toggleScreenShare_begin camera_session in
  let second := toggleScreenShare_begin camera_session in
  let s1 := state_of (toggleScreenShare_resume first screen_capture camera_session) in
  let s2 := state_of (toggleScreenShare_resume second screen_capture s1) in
  first = true /\ second = true /\
  video_tracks s2 =
    [(3%nat, Some (mkTrack VideoKind true Live (Some CallStopScreenShare)))] /\
  tracks s2 !! 2%nat = Some (mkTrack VideoKind true Ended (Some CallStopScreenShare)) /\
  audio_tracks s2 = audio_tracks camera_session.
Proof.
  repeat split.
Qed.

(** A screen capture granted after a failed start: the new track is
    live and carries its [onended] callback, but there is no stream to
    attach it to, and [mediaStreamRef] stays [null]. *)
Lemma capture_after_failed_start :
  let s' := state_of (toggleScreenShare screen_capture failed_start) in
  tracks s' = [mkTrack VideoKind true Live (Some CallStopScreenShare)] /\
  mediaStreamRef s' = None /\ isScreenSharing s' = true /\
  threw (toggleScreenShare screen_capture failed_start) = false.
Proof.
  repeat split.
Qed.

End DeviceTrackExamples.

(** * Properties of the Session Lifecycle Controller *)

Section LifecycleProperties.

Import Lifecycle.

(** What [forEach(track => track.stop())] leaves at each identity. *)
Lemma stop_each_lookup ids (store : TrackStore) i :
  for_each_track stop_track ids store !! i =
  (if in_dec Nat.eq_dec i ids then stop_track else (fun t => t)) <$> store !! i.
Proof.
  revert store. induction ids as [|x ids IH]; intros store.
  - simpl. now destruct (store !! i).
  - change (for_each_track stop_track (x :: ids) store)
      with (for_each_track stop_track ids (alter stop_track x store)).
    rewrite IH. destruct (Nat.eq_dec x i) as [->|Hne].
    + rewrite list_lookup_alter_eq.
      destruct (in_dec Nat.eq_dec i (i :: ids)) as [_|Hn]; [|exfalso; apply Hn; now left].
      destruct (store !! i) as [t|]; [simpl|reflexivity].
      now destruct (in_dec Nat.eq_dec i ids).
    + rewrite list_lookup_alter_ne by exact Hne.
      destruct (in_dec Nat.eq_dec i ids) as [Hin|Hin];
        destruct (in_dec Nat.eq_dec i (x :: ids)) as [Hin'|Hin']; try reflexivity.
      * exfalso. apply Hin'. now right.
      * exfalso. destruct Hin' as [?|?]; [congruence | contradiction].
Qed.

Lemma stop_each_idempotent ids (store : TrackStore) :
  for_each_track stop_track ids (for_each_track stop_track ids store) =
  for_each_track stop_track ids store.
Proof.
  apply list_eq. intros i. rewrite !stop_each_lookup.
  destruct (store !! i) as [t|]; [simpl|reflexivity].
  now destruct (in_dec Nat.eq_dec i ids).
Qed.

Lemma stop_each_ended ids (store : TrackStore) i t :
  In i ids -> for_each_track stop_track ids store !! i = Some t -> readyState t = Ended.
Proof.
  intros Hin. rewrite stop_each_lookup.
  destruct (in_dec Nat.eq_dec i ids) as [_|Hn]; [|contradiction].
  destruct (store !! i) as [t0|]; simpl; [|discriminate].
  now intros [= <-].
Qed.

Lemma clear_twice (X : gset positive) id : X ∖ {[id]} ∖ {[id]} = X ∖ {[id]}.
Proof.
  apply set_eq. intros x. rewrite !elem_of_difference. tauto.
Qed.

(** Unfolds [cleanup] and its statements, leaving the set and list
    operations of the browser state folded. *)
Ltac run_cleanup :=
  cbv beta iota zeta delta
      [cleanup when_set disconnect close is_running stop_all clearInterval
       clear_processorRef clear_sourceRef clear_inputContextRef
       clear_audioContextRef clear_sessionRef
       processorRef sourceRef inputContextRef audioContextRef mediaStreamRef
       timerIntervalRef sessionRef connected contexts tracks intervals rejections].

(** The refs [cleanup] empties are empty afterwards, whatever they held. *)
Lemma cleanup_refs s :
  processorRef (cleanup s) = None /\ sourceRef (cleanup s) = None /\
  inputContextRef (cleanup s) = None /\ audioContextRef (cleanup s) = None /\
  sessionRef (cleanup s) = None /\
  mediaStreamRef (cleanup s) = mediaStreamRef s /\
  timerIntervalRef (cleanup s) = timerIntervalRef s.
Proof.
  destruct s as [p so ic ac ms ti se cn cx tr iv rj].
  destruct p, so, ic, ac, ms, ti, se; run_cleanup; repeat split.
Qed.

Lemma cleanup_twice s : cleanup (cleanup s) = cleanup s.
Proof.
  destruct s as [p so ic ac ms ti se cn cx tr iv rj].
  destruct p, so, ic, ac, ms, ti, se; run_cleanup;
    rewrite ?stop_each_idempotent, ?clear_twice; reflexivity.
Qed.

Lemma cleanup_no_rejection s :
  contexts_open s -> rejections (cleanup s) = rejections s.
Proof.
  intros (Hi & Ha & Hd).
  destruct s as [p so ic ac ms ti se cn cx tr iv rj].
  cbn [inputContextRef audioContextRef contexts] in Hi, Ha, Hd.
  destruct ic as [c|], ac as [d|], p, so, ms, ti, se; run_cleanup;
    try rewrite (Hi c eq_refl);
    try (rewrite list_lookup_insert_ne by (exact (Hd c d eq_refl eq_refl)));
    try rewrite (Ha d eq_refl);
    reflexivity.
Qed.

Lemma cleanup_contexts s c :
  contexts_open s -> inputContextRef s = Some c \/ audioContextRef s = Some c ->
  closed (cleanup s) c.
Proof.
  intros (Hi & Ha & Hd) Hc.
  destruct s as [p so ic ac ms ti se cn cx tr iv rj].
  cbn [inputContextRef audioContextRef contexts] in Hi, Ha, Hd, Hc.
  unfold closed.
  assert (Hlt : forall x, cx !! x = Some Running -> (x < List.length cx)%nat)
    by (intros x Hx; eapply lookup_lt_Some; exact Hx).
  destruct ic as [c1|], ac as [c2|], p, so, ms, ti, se; run_cleanup;
    try rewrite (Hi c1 eq_refl);
    try (rewrite (list_lookup_insert_ne cx c1 c2) by (exact (Hd c1 c2 eq_refl eq_refl)));
    try rewrite (Ha c2 eq_refl);
    destruct Hc as [[= ->]|[= ->]];
    first
      [ apply list_lookup_insert_eq; rewrite ?length_insert; apply Hlt; auto
      | rewrite list_lookup_insert_ne
          by (intros Heq; apply (Hd c c2 eq_refl eq_refl); congruence);
        apply list_lookup_insert_eq; apply Hlt; auto ].
Qed.

Lemma cleanup_tracks s : no_live_track (cleanup s).
Proof.
  intros stream i t Hs Hin Ht.
  destruct (cleanup_refs s) as (_ & _ & _ & _ & _ & Hms & _).
  rewrite Hms in Hs.
  assert (E : tracks (cleanup s) = for_each_track stop_track stream (tracks s)).
  { destruct s as [p so ic ac ms ti se cn cx tr iv rj].
    cbn [mediaStreamRef] in Hs. subst ms.
    destruct p, so, ic, ac, ti, se; run_cleanup; reflexivity. }
  rewrite E in Ht. eapply stop_each_ended; eauto.
Qed.

Lemma cleanup_timer s id :
  timerIntervalRef s = Some id -> id ∉ intervals (cleanup s).
Proof.
  intros Hid.
  assert (E : intervals (cleanup s) = intervals s ∖ {[id]}).
  { destruct s as [p so ic ac ms ti se cn cx tr iv rj].
    cbn [timerIntervalRef] in Hid. subst ti.
    destruct p, so, ic, ac, ms, se; run_cleanup; reflexivity. }
  rewrite E. rewrite elem_of_difference, elem_of_singleton. tauto.
Qed.

Lemma cleanup_all_tracks s i t :
  owns_live_tracks s -> tracks (cleanup s) !! i = Some t -> readyState t = Ended.
Proof.
  intros Hown Ht.
  assert (E : tracks (cleanup s) =
              match mediaStreamRef s with
              | Some stream => for_each_track stop_track stream (tracks s)
              | None => tracks s
              end).
  { destruct s as [p so ic ac ms ti se cn cx tr iv rj].
    destruct p, so, ic, ac, ms, ti, se; run_cleanup; reflexivity. }
  rewrite E in Ht. clear E.
  destruct (readyState t) eqn:Hr; [|reflexivity]. exfalso.
  destruct (mediaStreamRef s) as [stream|] eqn:Hms.
  - rewrite stop_each_lookup in Ht.
    destruct (tracks s !! i) as [t0|] eqn:Ht0; [|discriminate].
    destruct (in_dec Nat.eq_dec i stream) as [Hin|Hout]; simpl in Ht.
    + injection Ht as <-. discriminate.
    + injection Ht as ->.
      destruct (Hown i t Ht0 Hr) as (stream' & Hs' & Hin).
      rewrite Hms in Hs'. injection Hs' as <-. contradiction.
  - destruct (Hown i t Ht Hr) as (stream' & Hs' & _).
    rewrite Hms in Hs'. discriminate.
Qed.

(** C8 (as amended): a second [cleanup] right after a first changes
    nothing and raises nothing: the state after two calls is the state
    after one, with no promise rejected by either call.  After it no
    track of the stream that [mediaStreamRef] holds is live, so no
    track at all when every live track belonged to that stream; a track
    outside that stream is not stopped.  The input and the output
    context are closed, the interval timer is no longer installed, and
    the session handle, like the other refs [cleanup] empties, is
    [null]. *)
Theorem cleanup_idempotent (s : State) :
  contexts_open s ->
  cleanup (cleanup s) = cleanup s /\
  rejections (cleanup (cleanup s)) = rejections s /\
  no_live_track (cleanup (cleanup s)) /\
  (owns_live_tracks s ->
   forall i t, tracks (cleanup (cleanup s)) !! i = Some t -> readyState t = Ended) /\
  (forall c, inputContextRef s = Some c -> closed (cleanup (cleanup s)) c) /\
  (forall c, audioContextRef s = Some c -> closed (cleanup (cleanup s)) c) /\
  (forall id, timerIntervalRef s = Some id -> id ∉ intervals (cleanup (cleanup s))) /\
  sessionRef (cleanup (cleanup s)) = None /\
  processorRef (cleanup (cleanup s)) = None /\
  sourceRef (cleanup (cleanup s)) = None /\
  inputContextRef (cleanup (cleanup s)) = None /\
  audioContextRef (cleanup (cleanup s)) = None.
Proof.
  intros Hopen. rewrite cleanup_twice.
  destruct (cleanup_refs s) as (Hp & Hso & Hic & Hac & Hse & _ & _).
  split; [reflexivity|].
  split; [now apply cleanup_no_rejection|].
  split; [apply cleanup_tracks|].
  split; [intros Hown i t; now apply cleanup_all_tracks|].
  split; [intros c Hc; apply cleanup_contexts; auto|].
  split; [intros c Hc; apply cleanup_contexts; auto|].
  split; [intros id Hid; now apply cleanup_timer|].
  auto.
Qed.

End LifecycleProperties.

Section LifecycleExamples.

Import Lifecycle.

(** C8 (as stated) fails: after a failed start and a granted screen
    capture the session holds no stream, and the screen track, which is
    live, is still live after two calls of [cleanup]. *)
Lemma cleanup_leaves_unattached_track :
  contexts_open unattached_capture /\
  mediaStreamRef unattached_capture = None /\
  tracks unattached_capture =
    DeviceTracks.tracks
      (state_of (DeviceTracks.toggleScreenShare DeviceTracks.screen_capture
                   DeviceTracks.failed_start)) /\
  cleanup (cleanup unattached_capture) = cleanup unattached_capture /\
  tracks (cleanup (cleanup unattached_capture)) !! 0%nat =
    Some (mkTrack VideoKind true Live (Some CallStopScreenShare)) /\
  ~ (forall i t, tracks (cleanup (cleanup unattached_capture)) !! i = Some t ->
                 readyState t = Ended).
Proof.
  split; [repeat split; intros; discriminate|].
  split; [reflexivity|]. split; [reflexivity|]. split; [reflexivity|].
  split; [reflexivity|].
  intros H.
  specialize (H 0%nat (mkTrack VideoKind true Live (Some CallStopScreenShare)) eq_refl).
  discriminate.
Qed.

Lemma cleanup_idempotent_witness :
  cleanup (cleanup active_session) = cleanup active_session /\
  rejections (cleanup (cleanup active_session)) = [] /\
  no_live_track (cleanup (cleanup active_session)) /\
  closed (cleanup (cleanup active_session)) 0 /\
  closed (cleanup (cleanup active_session)) 1 /\
  (5%positive ∉ intervals (cleanup (cleanup active_session))) /\
  sessionRef (cleanup (cleanup active_session)) = None.
Proof.
  assert (Hopen : contexts_open active_session).
  { repeat split.
    - intros c [= <-]. reflexivity.
    - intros c [= <-]. reflexivity.
    - intros c d [= <-] [= <-]. discriminate. }
  destruct (cleanup_idempotent active_session Hopen)
    as (H1 & H2 & H3 & _ & H4 & H5 & H6 & H7 & _).
  split; [exact H1|]. split; [exact H2|]. split; [exact H3|].
  split; [exact (H4 0%nat eq_refl)|]. split; [exact (H5 1%nat eq_refl)|].
  split; [exact (H6 5%positive eq_refl) | exact H7].
Defined.

(** The first call does release what the session holds: in the active
    session the tracks were live and the timer installed. *)
Lemma cleanup_releases :
  tracks (cleanup active_session) =
    [mkTrack AudioKind true Ended None; mkTrack VideoKind true Ended None] /\
  contexts (cleanup active_session) = [Closed; Closed] /\
  cleanup active_session <> active_session.
Proof.
  split; [reflexivity|]. split; [reflexivity|].
  intros H. apply (f_equal sessionRef) in H. discriminate.
Qed.

End LifecycleExamples.

(** * Properties of the welcome screen *)

Section WelcomeProperties.

Import Welcome.

Lemma trim_start_nil (s : JsString) :
  trim_start s = [] <-> forallb is_whitespace s = true.
Proof.
  induction s as [|c rest IH]; simpl; [tauto|].
  destruct (is_whitespace c); simpl; [exact IH|].
  split; discriminate.
Qed.

(** What [trim_start] returns is empty or begins with a code unit that is
    not whitespace. *)
Lemma trim_start_head (s : JsString) :
  forallb is_whitespace (trim_start s) = true -> trim_start s = [].
Proof.
  induction s as [|c rest IH]; simpl; [reflexivity|].
  destruct (is_whitespace c) eqn:Hc; [exact IH|].
  simpl. rewrite Hc. discriminate.
Qed.

Lemma forallb_rev (p : N -> bool) (l : list N) :
  forallb p (rev l) = forallb p l.
Proof.
  induction l as [|x l IH]; simpl; [reflexivity|].
  rewrite forallb_app, IH. simpl. rewrite andb_true_r. apply andb_comm.
Qed.

(** A name trims to the empty string exactly when all its code units are
    whitespace. *)
Lemma trim_nil (s : JsString) :
  trim s = [] <-> forallb is_whitespace s = true.
Proof.
  unfold trim, trim_end. split.
  - intros H. apply (f_equal (@rev N)) in H. rewrite rev_involutive in H. simpl in H.
    apply trim_start_nil in H. rewrite forallb_rev in H.
    apply trim_start_nil. now apply trim_start_head.
  - intros H. apply trim_start_nil in H. rewrite H. reflexivity.
Qed.

(** C9: the Enter Studio action calls [onStart], once, with the entered
    name and role, exactly when the name is not empty after trimming,
    that is, when it has a code unit that is not whitespace; for a name
    that is empty or all whitespace the action changes nothing and makes
    no call.  The same holds of [handleEnter] on its own. *)
Theorem enter_studio_iff_name (s : State) :
  (trim (name s) <> [] ->
     enter_studio s =
       mkState (name s) (jobRole s)
               (onStart_calls s ++ [mkUserConfig (name s) (jobRole s)]) /\
     handleEnter s = enter_studio s) /\
  (trim (name s) = [] -> enter_studio s = s /\ handleEnter s = s) /\
  (onStart_calls (enter_studio s) <> onStart_calls s <-> trim (name s) <> []) /\
  (trim (name s) = [] <-> forallb is_whitespace (name s) = true).
Proof.
  unfold enter_studio, enter_disabled, handleEnter.
  destruct (trim (name s)) as [|c rest] eqn:Ht; simpl.
  - split; [intros H; contradiction|]. split; [auto|].
    split; [tauto|]. split; [intros _; now apply trim_nil | reflexivity].
  - split; [auto|]. split; [discriminate|]. split.
    + split; [discriminate|]. intros _ H.
      apply (f_equal (@List.length UserConfig)) in H.
      rewrite length_app in H. simpl in H. lia.
    + split; [discriminate|]. intros H. apply trim_nil in H. congruence.
Qed.

End WelcomeProperties.

Section WelcomeExamples.

Import Welcome.

Lemma enter_studio_iff_name_witness :
  let named := mkState (units " Al ") (units "Frontend Developer") [] in
  let blank := mkState (units "   ") (units "Frontend Developer") [] in
  enter_studio named =
    mkState (units " Al ") (units "Frontend Developer")
            [mkUserConfig (units " Al ") (units "Frontend Developer")] /\
  enter_studio blank = blank.
Proof.
  split.
  - apply (proj1 (enter_studio_iff_name
                    (mkState (units " Al ") (units "Frontend Developer") []))).
    vm_compute. discriminate.
  - apply (proj1 (proj2 (enter_studio_iff_name
                           (mkState (units "   ") (units "Frontend Developer") [])))).
    reflexivity.
Defined.

End WelcomeExamples.

(** * Properties of go-live *)

Section BroadcastProperties.

Import Broadcast.

Variable isTypeSupported : string -> bool.

(** C10: with no platform selected [handleGoLive] returns at once: the
    state it leaves is the state it found, so no recorder was created or
    started, the recorded chunks were not cleared, no timer was
    installed and the stream configuration is unchanged. *)
Theorem handleGoLive_no_platform (timerId : positive) (s : State) :
  handleGoLive isTypeSupported timerId [] s = (Normal tt, s).
Proof.
  reflexivity.
Qed.

(** With a platform selected and a stream at hand, the same call does
    clear the chunks, start a recorder and go live. *)
Lemma handleGoLive_starts :
  let s := set_recordedChunks [40%N] idle_session in
  let s' := state_of (handleGoLive (fun _ => true) 3%positive [FACEBOOK] s) in
  streamConfig s' = mkStreamConfig true (Some FACEBOOK) 0 /\
  recordedChunksRef s' = [] /\
  timerIntervalRef s' = Some 3%positive /\
  mediaRecorderRef s' = Some 0%nat /\
  recorders s' =
    [mkRecorder [0; 1]%nat "video/webm; codecs=vp9" Recording (Some 1000%nat)] /\
  showDestinations s' = false.
Proof.
  repeat split.
Qed.

End BroadcastProperties.

(** * Properties of the broadcast timer display *)

Section DisplayProperties.

Import Display.

Lemma string_of_uint_digits (d : Decimal.uint) :
  all_digits (DecimalString.NilEmpty.string_of_uint d) = true /\
  String.length (DecimalString.NilEmpty.string_of_uint d) = digits d.
Proof.
  induction d as [|d [IH1 IH2]|d [IH1 IH2]|d [IH1 IH2]|d [IH1 IH2]|d [IH1 IH2]
                  |d [IH1 IH2]|d [IH1 IH2]|d [IH1 IH2]|d [IH1 IH2]|d [IH1 IH2]];
    simpl; [split; reflexivity | ..]; (split; [exact IH1 | now rewrite IH2]).
Qed.

Lemma to_uint_not_nil (n : nat) : Nat.to_uint n <> Decimal.Nil.
Proof.
  intros H. pose proof (DecimalNat.Unsigned.of_to n) as E. rewrite H in E.
  simpl in E. subst n. simpl in H. discriminate.
Qed.

Lemma toString_spec (n : nat) :
  toString n = DecimalString.NilEmpty.string_of_uint (Nat.to_uint n).
Proof.
  unfold toString, DecimalString.NilZero.string_of_uint.
  pose proof (to_uint_not_nil n). destruct (Nat.to_uint n); congruence.
Qed.

Lemma toString_digits (n : nat) :
  all_digits (toString n) = true /\ String.length (toString n) = digits (Nat.to_uint n) /\
  (0 < String.length (toString n))%nat.
Proof.
  rewrite toString_spec.
  destruct (string_of_uint_digits (Nat.to_uint n)) as [H1 H2].
  split; [exact H1|]. split; [exact H2|]. rewrite H2.
  pose proof (to_uint_not_nil n). destruct (Nat.to_uint n); simpl; try lia. congruence.
Qed.

Lemma readNumber_toString (n : nat) : readNumber (toString n) = Some n.
Proof.
  unfold readNumber, toString.
  rewrite DecimalString.NilZero.usu by apply to_uint_not_nil.
  now rewrite DecimalNat.Unsigned.of_to.
Qed.

Lemma all_digits_app (a b : string) :
  all_digits (a ++ b) = all_digits a && all_digits b.
Proof.
  induction a as [|c a IH]; simpl; [reflexivity|].
  now rewrite IH, andb_assoc.
Qed.

Lemma all_digits_repeat_zero (k : nat) : all_digits (repeat_char k "0") = true.
Proof.
  induction k as [|k IH]; simpl; [reflexivity | exact IH].
Qed.

Lemma length_repeat_char (k : nat) (c : ascii) : String.length (repeat_char k c) = k.
Proof.
  induction k as [|k IH]; simpl; [reflexivity | now rewrite IH].
Qed.

Lemma string_length_app (a b : string) :
  String.length (a ++ b) = (String.length a + String.length b)%nat.
Proof.
  induction a as [|c a IH]; simpl; [reflexivity | now rewrite IH].
Qed.

Lemma split_colon_digits (a b : string) :
  all_digits a = true -> split_colon (a ++ String ":" b) = Some (a, b).
Proof.
  induction a as [|c a IH]; simpl; [reflexivity|].
  intros H. apply andb_true_iff in H as [Hc Ha].
  destruct (Ascii.eqb_spec c ":") as [->|_]; [discriminate|].
  now rewrite (IH Ha).
Qed.

(** A leading zero does not change the number read. *)
Lemma readNumber_leading_zero (s : string) :
  s <> EmptyString -> readNumber (String "0" s) = readNumber s.
Proof.
  intros Hs. destruct s as [|c r]; [congruence|].
  unfold readNumber, DecimalString.NilZero.uint_of_string.
  change (DecimalString.NilEmpty.uint_of_string (String "0" (String c r)))
    with (DecimalString.uint_of_char "0"
            (DecimalString.NilEmpty.uint_of_string (String c r))).
  destruct (DecimalString.NilEmpty.uint_of_string (String c r)) as [d|]; reflexivity.
Qed.

Lemma readNumber_leading_zeros (k : nat) (s : string) :
  s <> EmptyString -> readNumber (repeat_char k "0" ++ s) = readNumber s.
Proof.
  intros Hs. induction k as [|k IH]; [reflexivity|].
  change (repeat_char (S k) "0" ++ s)%string
    with (String "0" (repeat_char k "0" ++ s)).
  rewrite readNumber_leading_zero; [exact IH|].
  destruct k; simpl; [exact Hs | discriminate].
Qed.

Lemma padStart_toString (k : nat) :
  all_digits (padStart 2 "0" (toString k)) = true /\
  readNumber (padStart 2 "0" (toString k)) = Some k /\
  String.length (padStart 2 "0" (toString k)) = Nat.max 2 (digits (Nat.to_uint k)).
Proof.
  destruct (toString_digits k) as (Hd & Hl & Hpos). unfold padStart.
  split; [now rewrite all_digits_app, all_digits_repeat_zero, Hd|].
  split.
  - rewrite readNumber_leading_zeros; [apply readNumber_toString|].
    intros E. rewrite E in Hpos. simpl in Hpos. lia.
  - rewrite string_length_app, length_repeat_char, Hl. lia.
Qed.

(** X1: The time on display determines the duration: reading [formatTime n]
    back as minutes and seconds gives [n], so two durations are shown
    alike only if they are equal. *)
Theorem formatTime_read_back (n : nat) :
  readTime (formatTime n) = Some n /\
  (forall m, formatTime m = formatTime n -> m = n).
Proof.
  assert (R : forall k, readTime (formatTime k) = Some k).
  { intros k. unfold readTime, formatTime.
    destruct (padStart_toString (k / 60)) as (Hd & Hr & _).
    destruct (padStart_toString (k mod 60)) as (_ & Hr' & _).
    change (":" ++ padStart 2 "0" (toString (k mod 60)))%string
      with (String ":" (padStart 2 "0" (toString (k mod 60)))).
    rewrite (split_colon_digits _ _ Hd), Hr, Hr'. f_equal.
    pose proof (Nat.div_mod_eq k 60). lia. }
  split; [apply R|].
  intros m E. pose proof (R m) as Hm. rewrite E, R in Hm. congruence.
Qed.

Lemma digits_small (k : nat) : (digits (Nat.to_uint k) <= 2)%nat <-> (k < 100)%nat.
Proof.
  split.
  - intros H. rewrite <- (DecimalNat.Unsigned.of_to k).
    assert (Hnil : forall d, digits d = 0%nat -> d = Decimal.Nil)
      by (intros d; destruct d; simpl; [reflexivity | discriminate ..]).
    destruct (Nat.to_uint k) as [|d|d|d|d|d|d|d|d|d|d]; simpl in H;
      [vm_compute; lia | ..];
      (destruct d as [|d|d|d|d|d|d|d|d|d|d]; simpl in H; [vm_compute; lia | ..]);
      (rewrite (Hnil d) by lia; vm_compute; lia).
  - intros H.
    assert (A : forallb (fun k => (digits (Nat.to_uint k) <=? 2)%nat) (seq 0 100) = true)
      by (vm_compute; reflexivity).
    rewrite forallb_forall in A. apply Nat.leb_le. apply A.
    apply in_seq. lia.
Qed.

(** X2: The display is [MM:SS], five characters, for every duration under
    100 minutes; from 100 minutes on the minutes take three digits or
    more and the text is longer.  The seconds always take two. *)
Theorem formatTime_width (n : nat) :
  ((n / 60 < 100)%nat <-> String.length (formatTime n) = 5%nat) /\
  (5 <= String.length (formatTime n))%nat /\
  exists mm ss, formatTime n = (mm ++ ":" ++ ss)%string /\
                String.length ss = 2%nat /\ readNumber ss = Some (n mod 60)%nat /\
                readNumber mm = Some (n / 60)%nat.
Proof.
  destruct (padStart_toString (n / 60)) as (_ & Hrm & Hlm).
  destruct (padStart_toString (n mod 60)) as (_ & Hrs & Hls).
  assert (Hs2 : String.length (padStart 2 "0" (toString (n mod 60))) = 2%nat).
  { rewrite Hls. pose proof (Nat.mod_upper_bound n 60 ltac:(lia)) as Hlt.
    assert (n mod 60 < 100)%nat as Hsmall%digits_small by lia. lia. }
  assert (Hlen : String.length (formatTime n) =
                 (Nat.max 2 (digits (Nat.to_uint (n / 60))) + 3)%nat).
  { unfold formatTime. rewrite !string_length_app, Hlm, Hs2. simpl. lia. }
  pose proof (digits_small (n / 60)) as Hm.
  split; [|split].
  - rewrite Hlen. split; intros H; [apply Hm in H; lia|].
    apply Hm. lia.
  - rewrite Hlen. lia.
  - eexists _, _. split; [reflexivity|]. auto.
Qed.

End DisplayProperties.

(** * Further properties of the Playback Scheduler *)

Section SchedulerTraceProperties.

Import Scheduler SchedulerTraces.

Variable decodeAudioData : string -> option AudioBuffer.

Lemma interruption_check_fields m s :
  started (interruption_check m s) = started s /\
  pending (interruption_check m s) = pending s /\
  arrivals (interruption_check m s) = arrivals s /\
  audioContextRef (interruption_check m s) = audioContextRef s.
Proof.
  unfold interruption_check. destruct (interrupted m); repeat split.
Qed.

(** What a message delivery does to the chunks the scheduler knows of:
    nothing, or one new invocation with the next arrival index. *)
Lemma step_message_known m now s :
  let s' := step decodeAudioData s (Message m now) in
  started s' = started s /\
  ((pending s' = pending s /\ arrivals s' = arrivals s) \/
   (exists k, pending s' = pending s ++ [k] /\ seq k = arrivals s /\ msg k = m /\
              arrivals s' = S (arrivals s))).
Proof.
  simpl. unfold onmessage_begin.
  destruct (interruption_check_fields m s) as (Hs & Hp & Ha & _).
  destruct (inlineData m) as [data|]; [|split; [exact Hs | left; now split]].
  destruct (audioContextRef s); [|split; [exact Hs | left; now split]].
  destruct (truthy_string data); [|split; [exact Hs | left; now split]].
  simpl. split; [reflexivity|]. right. eexists. repeat split.
Qed.

(** What the settling of a decode does: the invocation leaves the
    waiting list and its chunk is started at most once. *)
Lemma resume_known k s :
  let s' := onmessage_resume decodeAudioData k s in
  pending s' = pending s /\ arrivals s' = arrivals s /\
  (started s' = started s \/
   exists x, started s' = started s ++ [x] /\ chunk x = seq k).
Proof.
  simpl. unfold onmessage_resume.
  destruct (decodeAudioData (payload k)) as [buf|];
    match goal with
    | |- context [interruption_check ?m ?st] =>
        destruct (interruption_check_fields m st) as (Hs & Hp & Ha & _)
    end; rewrite Hs, Hp, Ha; simpl.
  - split; [reflexivity|]. split; [reflexivity|]. right. eexists. now split.
  - split; [reflexivity|]. split; [reflexivity|]. now left.
Qed.

Lemma take_pending_split n l k rest :
  take_pending n l = Some (k, rest) ->
  seq k = n /\ exists l1 l2, l = l1 ++ k :: l2 /\ rest = l1 ++ l2.
Proof.
  revert k rest. induction l as [|h t IH]; intros k rest; simpl; [discriminate|].
  destruct (Nat.eqb_spec (seq h) n) as [He|Hne].
  - intros [= <- <-]. split; [exact He|]. exists [], t. now split.
  - destruct (take_pending n t) as [[k' rest']|]; [|discriminate].
    intros [= <- <-]. destruct (IH k' rest' eq_refl) as (Hk & l1 & l2 & -> & ->).
    split; [exact Hk|]. exists (h :: l1), l2. now split.
Qed.

Lemma distinct_chunks_step e s :
  distinct_chunks s -> distinct_chunks (step decodeAudioData s e).
Proof.
  intros [Hnd Hlt]. destruct e as [m now|n|].
  - destruct (step_message_known m now s) as (Hs & [[Hp Ha]|(k & Hp & Hk & _ & Ha)]);
      unfold distinct_chunks, known_chunks in *; rewrite Hs, Hp, Ha.
    + now split.
    + rewrite map_app, app_assoc. simpl. rewrite Hk. split.
      * apply NoDup_app. split; [exact Hnd|]. split; [|apply NoDup_singleton].
        intros x Hx Hx'. apply list_elem_of_singleton in Hx'. subst x.
        rewrite Forall_forall in Hlt. specialize (Hlt _ Hx). lia.
      * apply Forall_app. split; [|repeat constructor].
        eapply Forall_impl; [exact Hlt|]. simpl. intros; lia.
  - simpl. destruct (take_pending n (pending s)) as [[k rest]|] eqn:Ht; [|now split].
    apply take_pending_split in Ht as (_ & l1 & l2 & Hl & ->).
    destruct (resume_known k (set_pending (l1 ++ l2) s)) as (Hp & Ha & Hst).
    simpl in Hp, Ha, Hst.
    unfold distinct_chunks, known_chunks in *. rewrite Hp, Ha. rewrite Hl in Hnd, Hlt.
    assert (Hperm : map chunk (started s) ++ map seq (l1 ++ k :: l2) ≡ₚ
                    seq k :: (map chunk (started s) ++ map seq (l1 ++ l2))).
    { rewrite !map_app. simpl. rewrite Permutation_middle.
      apply Permutation_app_head. symmetry. apply Permutation_middle. }
    rewrite Hperm in Hnd, Hlt.
    destruct Hst as [->|(x & -> & Hx)].
    + apply NoDup_cons in Hnd as [_ Hnd]. apply Forall_cons in Hlt as [_ Hlt].
      now split.
    + rewrite map_app. simpl. rewrite Hx.
      assert (Hperm' : (map chunk (started s) ++ [seq k]) ++ map seq (l1 ++ l2) ≡ₚ
                       seq k :: (map chunk (started s) ++ map seq (l1 ++ l2))).
      { rewrite <- app_assoc. simpl. symmetry. apply Permutation_middle. }
      rewrite Hperm'. now split.
  - exact (conj Hnd Hlt).
Qed.

Lemma distinct_chunks_run trace s :
  distinct_chunks s -> distinct_chunks (run decodeAudioData trace s).
Proof.
  revert s. induction trace as [|e trace IH]; intros s Hs; simpl; [exact Hs|].
  apply IH. now apply distinct_chunks_step.
Qed.

(** X4: No chunk is ever started twice, and only chunks that have arrived
    are started, for every trace of deliveries, completions and
    interruption signals. *)
Theorem chunk_started_at_most_once (trace : list Event) (s : State) :
  started s = [] -> pending s = [] ->
  NoDup (map chunk (started (run decodeAudioData trace s))) /\
  (forall x, In x (started (run decodeAudioData trace s)) ->
             (chunk x < arrivals (run decodeAudioData trace s))%nat) /\
  (List.length (started (run decodeAudioData trace s)) <=
     arrivals (run decodeAudioData trace s))%nat.
Proof.
  intros Hs Hp.
  assert (H0 : distinct_chunks s).
  { unfold distinct_chunks, known_chunks. rewrite Hs, Hp. simpl.
    split; constructor. }
  destruct (distinct_chunks_run trace s H0) as [Hnd Hlt].
  unfold known_chunks in *.
  apply NoDup_app in Hnd as (Hnd & _ & _).
  apply Forall_app in Hlt as [Hlt _].
  split; [exact Hnd|]. split.
  - intros x Hx. rewrite Forall_forall in Hlt.
    apply Hlt, list_elem_of_In, in_map, Hx.
  - rewrite <- (length_map chunk).
    set (l := map chunk _) in *. set (n := arrivals _) in *.
    assert (Hsub : l ⊆ List.seq 0 n).
    { intros y Hy. apply list_elem_of_In, in_seq. rewrite Forall_forall in Hlt.
      specialize (Hlt y Hy). simpl in Hlt. lia. }
    pose proof (submseteq_length _ _ (NoDup_submseteq _ _ Hnd Hsub)) as Hlen.
    now rewrite length_seq in Hlen.
Qed.

Lemma quiet_pending_step e s :
  quiet_event e -> quiet_pending s -> quiet_pending (step decodeAudioData s e).
Proof.
  intros He Hq. destruct e as [m now|n|].
  - destruct (step_message_known m now s) as (_ & [[Hp _]|(k & Hp & _ & Hm & _)]);
      unfold quiet_pending; rewrite Hp; [exact Hq|].
    intros x Hx. apply in_app_or in Hx as [Hx|[<-|[]]]; [now apply Hq|].
    rewrite Hm. exact He.
  - simpl. destruct (take_pending n (pending s)) as [[k rest]|] eqn:Ht; [|exact Hq].
    apply take_pending_sound in Ht as [_ Hrest].
    destruct (resume_known k (set_pending rest s)) as (Hp & _ & _).
    unfold quiet_pending. simpl in Hp. rewrite Hp. intros x Hx. apply Hq. auto.
  - exact Hq.
Qed.

Lemma clock_step e s :
  quiet_event e -> quiet_pending s ->
  (nextStartTimeRef s <= nextStartTimeRef (step decodeAudioData s e))%Q.
Proof.
  intros He Hq. destruct e as [m now|n|]; simpl in *.
  - unfold onmessage_begin. rewrite (interruption_check_quiet m s He).
    destruct (inlineData m) as [data|]; [|simpl; lra].
    destruct (audioContextRef s); [|simpl; lra].
    destruct (truthy_string data); simpl; [apply Q.le_max_l | lra].
  - destruct (take_pending n (pending s)) as [[k rest]|] eqn:Ht; [|lra].
    apply take_pending_sound in Ht as [Hk _].
    unfold onmessage_resume. rewrite interruption_check_quiet by (apply Hq, Hk).
    destruct (decodeAudioData (payload k)) as [buf|]; simpl; [|lra].
    pose proof (duration_nonneg buf). lra.
  - lra.
Qed.

(** X3: The clock never goes back while no interruption signal is handled:
    along a trace without one, its value after any earlier part of the
    trace is at most its value after the whole trace. *)
Theorem clock_never_decreases (before after : list Event) (s : State) :
  Forall quiet_event before -> Forall quiet_event after -> quiet_pending s ->
  (nextStartTimeRef (run decodeAudioData before s) <=
   nextStartTimeRef (run decodeAudioData (before ++ after) s))%Q.
Proof.
  intros Hb Ha Hq. unfold run. rewrite fold_left_app.
  assert (Hq' : quiet_pending (fold_left (step decodeAudioData) before s)).
  { clear Ha. revert s Hq. induction Hb as [|e t He _ IH]; intros s Hq; simpl;
      [exact Hq|]. apply IH. now apply quiet_pending_step. }
  generalize dependent (fold_left (step decodeAudioData) before s). clear Hb Hq s.
  induction Ha as [|e t He _ IH]; intros s Hq; simpl; [lra|].
  pose proof (clock_step e s He Hq).
  specialize (IH _ (quiet_pending_step e s He Hq)). lra.
Qed.

Lemma sorted_lookup (l : list nat) i j x y :
  StronglySorted lt l -> (i < j)%nat -> l !! i = Some x -> l !! j = Some y -> (x < y)%nat.
Proof.
  intros Hs Hij Hx Hy. rewrite <- (take_drop j l) in Hs.
  eapply StronglySorted_app_1_elem_of; [exact Hs| |].
  - apply list_elem_of_lookup. exists i. now rewrite lookup_take_lt.
  - apply list_elem_of_lookup. exists 0%nat. rewrite lookup_drop.
    now rewrite Nat.add_0_r.
Qed.

Lemma ordered_chunks_step e s :
  settles_in_order decodeAudioData [e] s -> ordered_chunks s ->
  ordered_chunks (step decodeAudioData s e).
Proof.
  intros [He _] [Hso Hlt]. destruct e as [m now|n|].
  - destruct (step_message_known m now s) as (Hs & [[Hp Ha]|(k & Hp & Hk & _ & Ha)]);
      unfold ordered_chunks, known_chunks in *; rewrite Hs, Hp, Ha.
    + now split.
    + rewrite map_app, app_assoc. simpl. rewrite Hk. split.
      * apply StronglySorted_app_2; [|exact Hso|repeat constructor].
        intros x1 x2 Hx1 Hx2. apply list_elem_of_singleton in Hx2. subst x2.
        rewrite Forall_forall in Hlt. exact (Hlt _ Hx1).
      * apply Forall_app. split; [|repeat constructor].
        eapply Forall_impl; [exact Hlt|]. simpl. intros; lia.
  - simpl in *. destruct (pending s) as [|k rest] eqn:Hpend; [contradiction|].
    simpl. rewrite He, Nat.eqb_refl.
    destruct (resume_known k (set_pending rest s)) as (Hp & Ha & Hst).
    simpl in Hp, Ha, Hst.
    unfold ordered_chunks, known_chunks in *. rewrite Hp, Ha. rewrite Hpend in Hso, Hlt.
    simpl in Hso, Hlt.
    destruct Hst as [->|(x & -> & Hx)].
    + apply StronglySorted_app in Hso as (Hcross & Hs1 & Hs2).
      apply StronglySorted_cons in Hs2 as [_ Hs2].
      apply Forall_app in Hlt as [Hl1 Hl2]. apply Forall_cons in Hl2 as [_ Hl2].
      split; [|now apply Forall_app].
      apply StronglySorted_app_2; [|exact Hs1|exact Hs2].
      intros x1 x2 Hx1 Hx2. apply Hcross; [exact Hx1|]. now apply list_elem_of_further.
    + rewrite map_app. simpl. rewrite Hx, <- app_assoc. simpl. rewrite He in *.
      now split.
  - exact (conj Hso Hlt).
Qed.

(** X5: When the decodes complete in the order the chunks arrived and no
    interruption signal is handled, the start times are non-decreasing
    in chunk-arrival order as well. *)
Theorem in_order_completion_keeps_arrival_order (trace : list Event) (s : State) :
  Forall quiet_event trace -> started s = [] -> pending s = [] ->
  settles_in_order decodeAudioData trace s ->
  arrival_monotone (started (run decodeAudioData trace s)).
Proof.
  intros Hq Hs Hp Hfifo.
  pose proof (chained_run decodeAudioData trace s Hq (chained_fresh s Hs Hp)) as Hc.
  assert (Hord : ordered_chunks (run decodeAudioData trace s)).
  { assert (H0 : ordered_chunks s).
    { unfold ordered_chunks, known_chunks. rewrite Hs, Hp. simpl. split; constructor. }
    clear Hq Hs Hp Hc. revert s Hfifo H0.
    induction trace as [|e t IH]; intros s Hfifo H0; simpl; [exact H0|].
    destruct Hfifo as [He Hrest]. apply IH; [exact Hrest|].
    apply ordered_chunks_step; [simpl; tauto | exact H0]. }
  destruct Hord as [Hso _]. unfold known_chunks in Hso.
  apply StronglySorted_app_1_l in Hso.
  intros a b Ha Hb Hab.
  apply list_elem_of_In, list_elem_of_lookup in Ha as [i Hi].
  apply list_elem_of_In, list_elem_of_lookup in Hb as [j Hj].
  assert (Hci : map chunk (started (run decodeAudioData trace s)) !! i = Some (chunk a))
    by (rewrite list_lookup_fmap, Hi; reflexivity).
  assert (Hcj : map chunk (started (run decodeAudioData trace s)) !! j = Some (chunk b))
    by (rewrite list_lookup_fmap, Hj; reflexivity).
  destruct (Nat.lt_total i j) as [Hlt|[Heq|Hgt]].
  - pose proof (chained_order _ Hc i j a b Hlt Hi Hj) as Hfin.
    pose proof (chained_span _ Hc i a Hi) as Hsp. unfold finish in Hfin. lra.
  - subst j. rewrite Hi in Hj. injection Hj as ->. lia.
  - pose proof (sorted_lookup _ j i _ _ Hso Hgt Hcj Hci). lia.
Qed.

End SchedulerTraceProperties.

Section SchedulerTraceExamples.

Import Scheduler SchedulerTraces.

Lemma clock_never_decreases_witness :
  (nextStartTimeRef (run sample_decoder [Message (audio "A") 10%Q] (initial (Some 0%nat))) <=
   nextStartTimeRef (run sample_decoder
                       ([Message (audio "A") 10%Q] ++ [DecodeSettled 0])
                       (initial (Some 0%nat))))%Q.
Proof.
  apply (clock_never_decreases sample_decoder [Message (audio "A") 10%Q]
           [DecodeSettled 0] (initial (Some 0%nat))).
  - repeat constructor.
  - repeat constructor.
  - intros k [].
Defined.

Lemma chunk_started_at_most_once_witness :
  NoDup (map chunk (started (run sample_decoder overtaking (initial (Some 0%nat))))) /\
  (forall x, In x (started (run sample_decoder overtaking (initial (Some 0%nat)))) ->
             (chunk x < arrivals (run sample_decoder overtaking (initial (Some 0%nat))))%nat) /\
  (List.length (started (run sample_decoder overtaking (initial (Some 0%nat)))) <=
     arrivals (run sample_decoder overtaking (initial (Some 0%nat))))%nat.
Proof.
  apply (chunk_started_at_most_once sample_decoder overtaking (initial (Some 0%nat)));
    reflexivity.
Defined.

Lemma in_order_completion_keeps_arrival_order_witness :
  arrival_monotone
    (started (run sample_decoder
                [Message (audio "A") 10%Q; Message (audio "B") 10%Q;
                 DecodeSettled 0; DecodeSettled 1]
                (initial (Some 0%nat)))).
Proof.
  apply (in_order_completion_keeps_arrival_order sample_decoder
           [Message (audio "A") 10%Q; Message (audio "B") 10%Q;
            DecodeSettled 0; DecodeSettled 1]
           (initial (Some 0%nat))).
  - repeat constructor.
  - reflexivity.
  - reflexivity.
  - simpl. repeat split.
Defined.

End SchedulerTraceExamples.

(** * Properties of the mute and camera toggles *)

Section ToggleProperties.

Import DeviceToggles.

Lemma for_each_lookup (f : Track -> Track) ids (store : list Track) i :
  (forall t, f (f t) = f t) ->
  for_each_track f ids store !! i =
  (if in_dec Nat.eq_dec i ids then f else (fun t => t)) <$> store !! i.
Proof.
  intros Hf. revert store. induction ids as [|x ids IH]; intros store.
  - simpl. now destruct (store !! i).
  - change (for_each_track f (x :: ids) store)
      with (for_each_track f ids (alter f x store)).
    rewrite IH. destruct (Nat.eq_dec x i) as [->|Hne].
    + rewrite list_lookup_alter_eq.
      destruct (in_dec Nat.eq_dec i (i :: ids)) as [_|Hn]; [|exfalso; apply Hn; now left].
      destruct (store !! i) as [t|]; [simpl|reflexivity].
      destruct (in_dec Nat.eq_dec i ids); [now rewrite Hf | reflexivity].
    + rewrite list_lookup_alter_ne by exact Hne.
      destruct (in_dec Nat.eq_dec i ids) as [Hin|Hin];
        destruct (in_dec Nat.eq_dec i (x :: ids)) as [Hin'|Hin']; try reflexivity.
      * exfalso. apply Hin'. now right.
      * exfalso. destruct Hin' as [?|?]; [congruence | contradiction].
Qed.

Lemma for_each_track_length_any (f : Track -> Track) ids (store : list Track) :
  List.length (for_each_track f ids store) = List.length store.
Proof.
  revert store. induction ids as [|x ids IH]; intros store; [reflexivity|].
  change (for_each_track f (x :: ids) store)
    with (for_each_track f ids (alter f x store)).
  rewrite IH. apply length_alter.
Qed.

(** Setting [enabled] on the tracks of one kind of a stream. *)
Lemma set_enabled_each (p : Track -> bool) (b : bool) (stream : list nat)
    (store : list Track) (i : nat) :
  for_each_track (set_enabled b) (List.filter (has_kind p store) stream) store !! i =
  enabled_in p b stream i <$> store !! i.
Proof.
  rewrite for_each_lookup by reflexivity.
  destruct (store !! i) as [t|] eqn:Ht; [simpl|reflexivity]. f_equal.
  unfold enabled_in.
  destruct (in_dec Nat.eq_dec i (List.filter (has_kind p store) stream)) as [Hin|Hout].
  - apply filter_In in Hin as [Hin Hk]. unfold has_kind in Hk. rewrite Ht in Hk.
    destruct (in_dec Nat.eq_dec i stream); [now rewrite Hk | contradiction].
  - destruct (in_dec Nat.eq_dec i stream) as [Hin|]; [|reflexivity].
    destruct (p t) eqn:Hp; [|reflexivity].
    exfalso. apply Hout, filter_In. split; [exact Hin|].
    unfold has_kind. now rewrite Ht.
Qed.

Lemma enabled_in_kind p b stream i t : kind (enabled_in p b stream i t) = kind t.
Proof.
  unfold enabled_in. destruct (in_dec Nat.eq_dec i stream); [|reflexivity].
  now destruct (p t).
Qed.

(** The tracks of one kind are the same tracks after the flags are set. *)
Lemma set_enabled_each_kinds (p q : Track -> bool) (b : bool) (stream ids : list nat)
    (store : list Track) :
  (forall t t', kind t = kind t' -> q t = q t') ->
  List.filter
    (has_kind q (for_each_track (set_enabled b) (List.filter (has_kind p store) stream) store))
    ids =
  List.filter (has_kind q store) ids.
Proof.
  intros Hq. apply filter_ext. intros i.
  pose proof (set_enabled_each p b stream store i) as L.
  set (store' := for_each_track _ _ store) in *.
  unfold has_kind. rewrite L. destruct (store !! i) as [t|]; [simpl|reflexivity].
  apply Hq, enabled_in_kind.
Qed.

Lemma is_audio_by_kind t t' : kind t = kind t' -> is_audio t = is_audio t'.
Proof. unfold is_audio. now intros ->. Qed.

Lemma is_video_by_kind t t' : kind t = kind t' -> is_video t = is_video t'.
Proof. unfold is_video. now intros ->. Qed.

Section Mic.

Variable Blob : Type.

(** X7: [toggleMic] flips the mic state, gives every audio track of the
    session's stream the new state as its [enabled] flag, and leaves
    every other track object (the video tracks, and tracks outside the
    stream) and everything already sent as they are; afterwards flags
    and state are in step. *)
Theorem toggleMic_sets_audio_tracks (s : Capture.State Blob) (stream : list nat) :
  Capture.mediaStreamRef s = Some stream ->
  Capture.isMicOn (Capture.toggleMic s) = negb (Capture.isMicOn s) /\
  (forall i t, In i stream -> Capture.tracks s !! i = Some t -> kind t = AudioKind ->
     Capture.tracks (Capture.toggleMic s) !! i =
       Some (set_enabled (negb (Capture.isMicOn s)) t)) /\
  (forall i t, Capture.tracks s !! i = Some t -> ~ In i stream \/ kind t = VideoKind ->
     Capture.tracks (Capture.toggleMic s) !! i = Some t) /\
  Capture.sent (Capture.toggleMic s) = Capture.sent s /\
  mic_in_step (Capture.toggleMic s).
Proof.
  intros Hms.
  assert (E : Capture.tracks (Capture.toggleMic s) =
              for_each_track (set_enabled (negb (Capture.isMicOn s)))
                (getAudioTracks (Capture.tracks s) stream) (Capture.tracks s)).
  { unfold Capture.toggleMic. now rewrite Hms. }
  assert (L : forall i, Capture.tracks (Capture.toggleMic s) !! i =
              enabled_in is_audio (negb (Capture.isMicOn s)) stream i
                <$> Capture.tracks s !! i).
  { intros i. rewrite E. apply set_enabled_each. }
  assert (F : Capture.isMicOn (Capture.toggleMic s) = negb (Capture.isMicOn s) /\
              Capture.sent (Capture.toggleMic s) = Capture.sent s /\
              Capture.mediaStreamRef (Capture.toggleMic s) = Some stream).
  { unfold Capture.toggleMic. rewrite Hms. simpl. repeat split. }
  destruct F as (F1 & F2 & F3).
  split; [exact F1|]. split; [|split; [|split; [exact F2|]]].
  - intros i t Hin Ht Hk. rewrite L, Ht. simpl. f_equal. unfold enabled_in.
    destruct (in_dec Nat.eq_dec i stream); [|contradiction].
    unfold is_audio. now rewrite Hk.
  - intros i t Ht Hor. rewrite L, Ht. simpl. f_equal. unfold enabled_in.
    destruct (in_dec Nat.eq_dec i stream) as [Hin|]; [|reflexivity].
    destruct Hor as [Hout|Hk]; [contradiction|].
    unfold is_audio. now rewrite Hk.
  - intros stream' i t Hs' Hin Ht Hk. rewrite F3 in Hs'. injection Hs' as <-.
    rewrite L in Ht. destruct (Capture.tracks s !! i) as [t0|]; [|discriminate].
    simpl in Ht. injection Ht as <-. rewrite F1.
    rewrite enabled_in_kind in Hk. unfold enabled_in.
    destruct (in_dec Nat.eq_dec i stream); [|contradiction].
    unfold is_audio. now rewrite Hk.
Qed.

Lemma set_enabled_same t : set_enabled (enabled t) t = t.
Proof. now destruct t. Qed.

(** X8: Toggling the mic twice restores the state exactly, track flags
    included, when flags and mic state were in step. *)
Theorem toggleMic_twice (s : Capture.State Blob) :
  mic_in_step s -> Capture.toggleMic (Capture.toggleMic s) = s.
Proof.
  intros Hstep. destruct (Capture.mediaStreamRef s) as [stream|] eqn:Hms.
  - assert (E : Capture.toggleMic (Capture.toggleMic s) =
                Capture.mkState (negb (negb (Capture.isMicOn s))) (Some stream)
                  (Capture.inputContextRef s) (Capture.sessionRef s)
                  (Capture.effectScope s) (Capture.processor s)
                  (for_each_track (set_enabled (negb (negb (Capture.isMicOn s))))
                     (getAudioTracks
                        (for_each_track (set_enabled (negb (Capture.isMicOn s)))
                           (getAudioTracks (Capture.tracks s) stream) (Capture.tracks s))
                        stream)
                     (for_each_track (set_enabled (negb (Capture.isMicOn s)))
                        (getAudioTracks (Capture.tracks s) stream) (Capture.tracks s)))
                  (Capture.sent s)).
    { assert (E1 : Capture.toggleMic s =
                   Capture.mkState (negb (Capture.isMicOn s)) (Some stream)
                     (Capture.inputContextRef s) (Capture.sessionRef s)
                     (Capture.effectScope s) (Capture.processor s)
                     (for_each_track (set_enabled (negb (Capture.isMicOn s)))
                        (getAudioTracks (Capture.tracks s) stream) (Capture.tracks s))
                     (Capture.sent s)).
      { unfold Capture.toggleMic. rewrite Hms. reflexivity. }
      rewrite E1. reflexivity. }
    rewrite E. clear E. rewrite negb_involutive.
    assert (T : for_each_track (set_enabled (Capture.isMicOn s))
                  (getAudioTracks
                     (for_each_track (set_enabled (negb (Capture.isMicOn s)))
                        (getAudioTracks (Capture.tracks s) stream) (Capture.tracks s))
                     stream)
                  (for_each_track (set_enabled (negb (Capture.isMicOn s)))
                     (getAudioTracks (Capture.tracks s) stream) (Capture.tracks s)) =
                Capture.tracks s).
    { apply list_eq. intros i. unfold getAudioTracks.
      rewrite set_enabled_each, set_enabled_each.
      destruct (Capture.tracks s !! i) as [t|] eqn:Ht; [simpl|reflexivity]. f_equal.
      unfold enabled_in. destruct (in_dec Nat.eq_dec i stream) as [Hin|]; [|reflexivity].
      destruct (is_audio t) eqn:Ha; [|now rewrite Ha].
      assert (Hk : kind t = AudioKind)
        by (unfold is_audio in Ha; destruct (kind t); [reflexivity | discriminate]).
      pose proof (Hstep stream i t Hms Hin Ht Hk) as Hen.
      change (is_audio (set_enabled (negb (Capture.isMicOn s)) t)) with (is_audio t).
      rewrite Ha. rewrite <- Hen. now destruct t. }
    rewrite T. destruct s. simpl in *. now rewrite Hms.
  - unfold Capture.toggleMic. rewrite Hms. unfold Capture.toggleMic. now rewrite Hms.
Qed.

End Mic.

(** X9: [toggleCamera] flips the camera state, gives every video track of
    the shared stream the new state as its [enabled] flag, and leaves
    the audio tracks, the streams and the sharing flag as they are;
    afterwards flags and state are in step. *)
Theorem toggleCamera_sets_video_tracks (s : DeviceTracks.State) (cur : nat) :
  DeviceTracks.mediaStreamRef s = Some cur ->
  let s' := DeviceTracks.toggleCamera s in
  DeviceTracks.isCameraOn s' = negb (DeviceTracks.isCameraOn s) /\
  (forall i t, In i (DeviceTracks.stream_tracks s cur) ->
     DeviceTracks.tracks s !! i = Some t -> kind t = VideoKind ->
     DeviceTracks.tracks s' !! i = Some (set_enabled (negb (DeviceTracks.isCameraOn s)) t)) /\
  DeviceTracks.audio_tracks s' = DeviceTracks.audio_tracks s /\
  DeviceTracks.streams s' = DeviceTracks.streams s /\
  DeviceTracks.isScreenSharing s' = DeviceTracks.isScreenSharing s /\
  camera_in_step s'.
Proof.
  intros Hms s'.
  assert (L : forall i, DeviceTracks.tracks s' !! i =
              enabled_in is_video (negb (DeviceTracks.isCameraOn s))
                (DeviceTracks.stream_tracks s cur) i <$> DeviceTracks.tracks s !! i).
  { intros i. subst s'. unfold DeviceTracks.toggleCamera. rewrite Hms. simpl.
    apply set_enabled_each. }
  assert (F : DeviceTracks.isCameraOn s' = negb (DeviceTracks.isCameraOn s) /\
              DeviceTracks.streams s' = DeviceTracks.streams s /\
              DeviceTracks.isScreenSharing s' = DeviceTracks.isScreenSharing s /\
              DeviceTracks.mediaStreamRef s' = Some cur).
  { subst s'. unfold DeviceTracks.toggleCamera. rewrite Hms. simpl.
    repeat split; try reflexivity; exact Hms. }
  destruct F as (F1 & F2 & F3 & F4).
  split; [exact F1|]. split; [|split; [|split; [exact F2|split; [exact F3|]]]].
  - intros i t Hin Ht Hk. rewrite L, Ht. simpl. f_equal. unfold enabled_in.
    destruct (in_dec Nat.eq_dec i (DeviceTracks.stream_tracks s cur)); [|contradiction].
    unfold is_video. now rewrite Hk.
  - unfold DeviceTracks.audio_tracks. rewrite F4, Hms.
    assert (Hst : DeviceTracks.stream_tracks s' cur = DeviceTracks.stream_tracks s cur)
      by (unfold DeviceTracks.stream_tracks; now rewrite F2).
    rewrite Hst.
    assert (Hids : getAudioTracks (DeviceTracks.tracks s') (DeviceTracks.stream_tracks s cur) =
                   getAudioTracks (DeviceTracks.tracks s) (DeviceTracks.stream_tracks s cur)).
    { unfold getAudioTracks. apply filter_ext. intros i. unfold has_kind. rewrite L.
      destruct (DeviceTracks.tracks s !! i) as [t|]; [simpl|reflexivity].
      apply is_audio_by_kind, enabled_in_kind. }
    rewrite Hids. apply map_ext_in. intros i Hin. f_equal.
    apply filter_In in Hin as [_ Hau]. unfold has_kind in Hau. rewrite L.
    destruct (DeviceTracks.tracks s !! i) as [t|]; [simpl|discriminate]. f_equal.
    unfold enabled_in.
    destruct (in_dec Nat.eq_dec i (DeviceTracks.stream_tracks s cur)); [|reflexivity].
    unfold is_audio in Hau. unfold is_video. destruct (kind t); [reflexivity | discriminate].
  - intros cur' i t Hc' Hin Ht Hk. rewrite F4 in Hc'. injection Hc' as <-.
    assert (Hst : DeviceTracks.stream_tracks s' cur = DeviceTracks.stream_tracks s cur)
      by (unfold DeviceTracks.stream_tracks; now rewrite F2).
    rewrite Hst in Hin. rewrite L in Ht.
    destruct (DeviceTracks.tracks s !! i) as [t0|]; [|discriminate].
    simpl in Ht. injection Ht as <-. rewrite F1.
    rewrite enabled_in_kind in Hk. unfold enabled_in.
    destruct (in_dec Nat.eq_dec i (DeviceTracks.stream_tracks s cur)); [|contradiction].
    unfold is_video. now rewrite Hk.
Qed.

End ToggleProperties.

Section ToggleExamples.

Import DeviceToggles.

Lemma toggleMic_sets_audio_tracks_witness :
  let s := Capture.init [0; 1]%nat 0 7 (@Capture.initial (list Z) Capture.mic_and_camera) in
  Capture.isMicOn (Capture.toggleMic s) = false /\
  Capture.tracks (Capture.toggleMic s) =
    [mkTrack AudioKind false Live None; mkTrack VideoKind true Live None].
Proof.
  destruct (toggleMic_sets_audio_tracks (list Z)
              (Capture.init [0; 1]%nat 0 7 (Capture.initial Capture.mic_and_camera))
              [0; 1]%nat eq_refl) as (H1 & _).
  split; [exact H1 | reflexivity].
Defined.

Lemma toggleMic_twice_witness :
  let s := Capture.init [0; 1]%nat 0 7 (@Capture.initial (list Z) Capture.mic_and_camera) in
  Capture.toggleMic (Capture.toggleMic s) = s.
Proof.
  apply (toggleMic_twice (list Z)).
  intros stream i t [= <-] Hin Ht Hk.
  destruct Hin as [<-|[<-|[]]]; simpl in Ht; injection Ht as <-;
    [reflexivity | discriminate].
Defined.

Lemma toggleCamera_sets_video_tracks_witness :
  DeviceTracks.isCameraOn (DeviceTracks.toggleCamera DeviceTracks.camera_session) = false /\
  DeviceTracks.audio_tracks (DeviceTracks.toggleCamera DeviceTracks.camera_session) =
    DeviceTracks.audio_tracks DeviceTracks.camera_session /\
  camera_in_step (DeviceTracks.toggleCamera DeviceTracks.camera_session).
Proof.
  destruct (toggleCamera_sets_video_tracks DeviceTracks.camera_session 0%nat eq_refl)
    as (H1 & _ & H3 & _ & _ & H6).
  split; [exact H1|]. split; [exact H3 | exact H6].
Defined.

End ToggleExamples.

(** * Properties of going live, ending a broadcast and saving it *)

Section RecordingProperties.

Import Broadcast Recording.

Variable isTypeSupported : string -> bool.
Variable stop_inactive_throws : bool.

Lemma alter_last {A} (f : A -> A) (l : list A) (x : A) :
  alter f (List.length l) (l ++ [x]) = l ++ [f x].
Proof.
  pose proof (alter_app_r f l [x] 0) as H. rewrite Nat.add_0_r in H. exact H.
Qed.

(** [handleGoLive] on its path through to the end. *)
Lemma handleGoLive_live (timerId : positive) (p : StreamPlatform)
    (rest : list StreamPlatform) (stream : list nat) (s : State) :
  mediaStreamRef s = Some stream ->
  isTypeSupported (chosen_type isTypeSupported) = true ->
  handleGoLive isTypeSupported timerId (p :: rest) s =
  (Normal tt,
   mkState (Some stream) [] (Some (List.length (recorders s))) (Some timerId)
           (mkStreamConfig true (Some p) 0) false
           (recorders s ++
              [mkRecorder stream (chosen_type isTypeSupported) Recording (Some 1000%nat)])
           (intervals s ∪ {[timerId]})).
Proof.
  intros Hms Hsup. unfold handleGoLive, bind, gets, modify, new_MediaRecorder.
  simpl. rewrite Hms. fold (chosen_type isTypeSupported). simpl. rewrite Hsup. simpl.
  unfold start_recorder, set_recorders. simpl.
  rewrite alter_last. simpl. now rewrite Hms.
Qed.

(** X10: What [handleGoLive] comes to, case by case.  Without a platform or
    without a stream it does nothing.  With both, it goes live when the
    browser can record [video/webm] with VP9 or plain [video/webm]: the
    recorded chunks are cleared, a recorder of that type records the
    stream in one-second slices, the configuration shows the first
    selected platform at duration 0, and the timer is installed.  When
    the browser can record neither, the call throws after it has
    cleared the recorded chunks, and the session is not live. *)
Theorem handleGoLive_outcome (timerId : positive) (platforms : list StreamPlatform)
    (s : State) :
  (platforms = [] \/ mediaStreamRef s = None ->
     handleGoLive isTypeSupported timerId platforms s = (Normal tt, s)) /\
  (forall p rest stream,
     platforms = p :: rest -> mediaStreamRef s = Some stream ->
     isTypeSupported (chosen_type isTypeSupported) = true ->
     let s' := state_of (handleGoLive isTypeSupported timerId platforms s) in
     threw (handleGoLive isTypeSupported timerId platforms s) = false /\
     streamConfig s' = mkStreamConfig true (Some p) 0 /\
     recordedChunksRef s' = [] /\
     mediaRecorderRef s' = Some (List.length (recorders s)) /\
     recorders s' =
       recorders s ++
         [mkRecorder stream (chosen_type isTypeSupported) Recording (Some 1000%nat)] /\
     timerIntervalRef s' = Some timerId /\ (timerId ∈ intervals s') /\
     showDestinations s' = false) /\
  (forall p rest stream,
     platforms = p :: rest -> mediaStreamRef s = Some stream ->
     isTypeSupported (chosen_type isTypeSupported) = false ->
     handleGoLive isTypeSupported timerId platforms s =
       (Throw "NotSupportedError", set_recordedChunks [] s)).
Proof.
  split; [|split].
  - intros [->| Hms]; [reflexivity|].
    unfold handleGoLive. destruct platforms; [reflexivity|].
    unfold bind, gets. simpl. now rewrite Hms.
  - intros p rest stream -> Hms Hsup s'. subst s'.
    rewrite (handleGoLive_live timerId p rest stream s Hms Hsup).
    unfold state_of, threw. simpl. repeat split.
    apply elem_of_union_r, elem_of_singleton. reflexivity.
  - intros p rest stream -> Hms Hsup.
    unfold handleGoLive, bind, gets, modify, new_MediaRecorder.
    simpl. rewrite Hms. fold (chosen_type isTypeSupported). simpl. now rewrite Hsup.
Qed.

Lemma ticks_spec (n : nat) (s : State) :
  ticks n s =
  setStreamConfig
    (fun c => mkStreamConfig (isStreaming c) (platform c) (n + duration c)) s.
Proof.
  unfold ticks. induction n as [|n IH]; simpl.
  - destruct s as [a b c d [e f g] h i j]. reflexivity.
  - rewrite IH. destruct s as [a b c d [e f g] h i j]. reflexivity.
Qed.

(** X11: The duration on display counts the timer ticks since going live,
    and ending the broadcast freezes it: after [n] ticks the duration is
    [n]; [stopLiveStream] then stops the recorder, removes the timer and
    empties its ref, and leaves the platform, the duration and the
    recorded chunks as they are. *)
Theorem broadcast_duration_counts_ticks (timerId : positive) (p : StreamPlatform)
    (rest : list StreamPlatform) (stream : list nat) (s : State) (n : nat) :
  mediaStreamRef s = Some stream ->
  isTypeSupported (chosen_type isTypeSupported) = true ->
  let live := state_of (handleGoLive isTypeSupported timerId (p :: rest) s) in
  let ended := stopLiveStream stop_inactive_throws (ticks n live) in
  streamConfig (ticks n live) = mkStreamConfig true (Some p) n /\
  threw ended = false /\
  streamConfig (state_of ended) = mkStreamConfig false (Some p) n /\
  (timerId ∉ intervals (state_of ended)) /\
  timerIntervalRef (state_of ended) = None /\
  recordedChunksRef (state_of ended) = recordedChunksRef (ticks n live) /\
  recorders (state_of ended) =
    recorders s ++
      [mkRecorder stream (chosen_type isTypeSupported) Inactive (Some 1000%nat)].
Proof.
  intros Hms Hsup live ended. subst ended live.
  rewrite (handleGoLive_live timerId p rest stream s Hms Hsup).
  unfold state_of. simpl. rewrite ticks_spec.
  unfold stopLiveStream, bind, gets, modify, stop_recorder, setStreamConfig, threw. simpl.
  rewrite lookup_app_r by lia. rewrite Nat.sub_diag. simpl.
  rewrite Nat.add_0_r. repeat split.
  - rewrite elem_of_difference, elem_of_singleton. tauto.
  - unfold set_recorders. simpl. now rewrite alter_last.
Qed.

Lemma receive_chunks (sizes : list N) (s : State) :
  recordedChunksRef (receive sizes s) =
  recordedChunksRef s ++ List.filter (fun z => (0 <? z)%N) sizes.
Proof.
  unfold receive. revert s. induction sizes as [|z sizes IH]; intros s; simpl.
  - now rewrite app_nil_r.
  - rewrite IH. unfold ondataavailable. destruct (0 <? z)%N; simpl.
    + now rewrite <- app_assoc.
    + reflexivity.
Qed.

Lemma blob_size_filter (sizes : list N) :
  blob_size (List.filter (fun z => (0 <? z)%N) sizes) = blob_size sizes.
Proof.
  induction sizes as [|z sizes IH]; simpl; [reflexivity|].
  destruct (N.ltb_spec 0 z) as [Hpos|Hz]; simpl; rewrite IH; [reflexivity|].
  assert (z = 0%N) as -> by lia. reflexivity.
Qed.

(** X12: Only blobs that hold data are kept, and the download is all of them:
    after going live and any run of [dataavailable] events, the download
    alerts exactly when every blob was empty, and otherwise saves the
    non-empty blobs in order, a file as large as all the data delivered
    since going live. *)
Theorem download_holds_all_data (timerId : positive) (p : StreamPlatform)
    (rest : list StreamPlatform) (stream : list nat) (s : State) (sizes : list N) :
  mediaStreamRef s = Some stream ->
  isTypeSupported (chosen_type isTypeSupported) = true ->
  let live := state_of (handleGoLive isTypeSupported timerId (p :: rest) s) in
  let d := downloadRecording (receive sizes live) in
  (Forall (fun z => z = 0%N) sizes ->
     d = Alert "No recording data available yet.") /\
  (~ Forall (fun z => z = 0%N) sizes ->
     d = Saved (List.filter (fun z => (0 <? z)%N) sizes) "video/webm" /\
     blob_size (List.filter (fun z => (0 <? z)%N) sizes) = blob_size sizes) /\
  Forall (fun z => (0 < z)%N) (recordedChunksRef (receive sizes live)).
Proof.
  intros Hms Hsup live d. subst d live.
  rewrite (handleGoLive_live timerId p rest stream s Hms Hsup).
  unfold state_of, downloadRecording. simpl. rewrite receive_chunks. simpl.
  assert (Hnil : List.filter (fun z => (0 <? z)%N) sizes = [] <->
                 Forall (fun z => z = 0%N) sizes).
  { induction sizes as [|z sizes IH]; simpl; [split; constructor|].
    destruct (N.ltb_spec 0 z) as [Hpos|Hz].
    - split; [discriminate|]. intros H. apply Forall_cons in H as [-> _]. lia.
    - rewrite IH. split; intros H.
      + constructor; [lia | exact H].
      + now apply Forall_cons in H as [_ H]. }
  split; [|split].
  - intros Hall. apply Hnil in Hall. now rewrite Hall.
  - intros Hsome. split; [|apply blob_size_filter].
    destruct (List.filter (fun z => (0 <? z)%N) sizes) eqn:E; [|reflexivity].
    exfalso. apply Hsome, Hnil. reflexivity.
  - apply Forall_forall. intros z Hz. apply list_elem_of_In, filter_In in Hz as [_ Hz].
    now apply N.ltb_lt.
Qed.

End RecordingProperties.

Section RecordingExamples.

Import Broadcast Recording.

Lemma handleGoLive_outcome_witness :
  handleGoLive (fun _ => true) 3%positive [] idle_session = (Normal tt, idle_session) /\
  streamConfig (state_of (handleGoLive (fun _ => true) 3%positive [FACEBOOK] idle_session)) =
    mkStreamConfig true (Some FACEBOOK) 0 /\
  handleGoLive (fun _ => false) 3%positive [FACEBOOK]
               (set_recordedChunks [40%N] idle_session) =
    (Throw "NotSupportedError", idle_session).
Proof.
  destruct (handleGoLive_outcome (fun _ => true) 3%positive [] idle_session)
    as (H1 & _ & _).
  destruct (handleGoLive_outcome (fun _ => true) 3%positive [FACEBOOK] idle_session)
    as (_ & H2 & _).
  destruct (handleGoLive_outcome (fun _ => false) 3%positive [FACEBOOK]
              (set_recordedChunks [40%N] idle_session))
    as (_ & _ & H3).
  split; [apply H1; left; reflexivity|].
  split.
  - apply (H2 FACEBOOK [] [0; 1]%nat); reflexivity.
  - apply (H3 FACEBOOK [] [0; 1]%nat); reflexivity.
Defined.

Lemma broadcast_duration_counts_ticks_witness :
  let live := state_of (handleGoLive (fun _ => true) 3%positive [FACEBOOK] idle_session) in
  streamConfig (ticks 125 live) = mkStreamConfig true (Some FACEBOOK) 125 /\
  streamConfig (state_of (stopLiveStream true (ticks 125 live))) =
    mkStreamConfig false (Some FACEBOOK) 125.
Proof.
  destruct (broadcast_duration_counts_ticks (fun _ => true) true 3%positive FACEBOOK []
              [0; 1]%nat idle_session 125 eq_refl eq_refl)
    as (H1 & _ & H3 & _).
  split; [exact H1 | exact H3].
Defined.

Lemma download_holds_all_data_witness :
  let live := state_of (handleGoLive (fun _ => true) 3%positive [FACEBOOK] idle_session) in
  downloadRecording (receive [0; 0]%N live) = Alert "No recording data available yet." /\
  downloadRecording (receive [40; 0; 2]%N live) = Saved [40; 2]%N "video/webm".
Proof.
  destruct (download_holds_all_data (fun _ => true) 3%positive FACEBOOK [] [0; 1]%nat
              idle_session [0; 0]%N eq_refl eq_refl) as (H1 & _ & _).
  destruct (download_holds_all_data (fun _ => true) 3%positive FACEBOOK [] [0; 1]%nat
              idle_session [40; 0; 2]%N eq_refl eq_refl) as (_ & H2 & _).
  split.
  - apply H1. repeat constructor.
  - apply H2. intros H. apply Forall_cons in H as [H _]. discriminate.
Defined.

End RecordingExamples.

(** * Properties of the application shell *)

Section AppProperties.

Import App.

Lemma enter_cases name jobRole s :
  (Welcome.trim name = [] /\ enter name jobRole s = s) \/
  (Welcome.trim name <> [] /\
   enter name jobRole s = handleStart (Welcome.mkUserConfig name jobRole) s).
Proof.
  unfold enter, Welcome.enter_studio, Welcome.enter_disabled, Welcome.handleEnter. simpl.
  destruct (Welcome.trim name) as [|c r]; simpl; [left | right]; split;
    try reflexivity; discriminate.
Qed.

Lemma shell_invariant_step s s' :
  shell_invariant s -> step s s' -> shell_invariant s'.
Proof.
  intros [Hs Hi He] Hstep. destruct Hstep as [s name jobRole Hw|s config Hsess|s Ht].
  - unfold shows_welcome in Hw. destruct (appState s) eqn:Ha; try discriminate.
    destruct (Hs eq_refl) as [Hc Hz].
    destruct (enter_cases name jobRole s) as [[_ ->]|[Hn ->]].
    + constructor; rewrite Ha; intros; try discriminate. now split.
    + constructor; simpl; intros; try discriminate.
      split; [exact Hz|]. eexists. split; [reflexivity | exact Hn].
  - unfold shows_session in Hsess. destruct (appState s) eqn:Ha; try discriminate.
    destruct (Hi eq_refl) as [Hz _].
    constructor; simpl; intros; try discriminate. now rewrite Hz.
  - destruct (appState s) eqn:Ha.
    + destruct (Hs eq_refl) as [_ Hz]. lia.
    + destruct (Hi eq_refl) as [Hz _]. lia.
    + constructor; simpl; intros; try discriminate.
      split; [reflexivity|]. rewrite (He eq_refl). reflexivity.
Qed.

(** X13: In every state the shell can reach: on the setup screen no
    configuration is held and no reset timer is pending; during an
    interview the session is on screen with a configuration whose name
    is not blank, and no reset timer is pending, so none can cut the
    interview short; on the ended screen exactly one reset timer is
    pending, and when it fires the shell is back on the setup screen
    with no configuration. *)
Theorem shell_screens (s : State) :
  reachable s ->
  (shows_welcome s = true -> userConfig s = None /\ timeouts s = 0%nat) /\
  (appState s = INTERVIEW ->
     timeouts s = 0%nat /\
     exists config, shows_session s = Some config /\ named config) /\
  (shows_ended s = true ->
     timeouts s = 1%nat /\ step s (reset s) /\
     shows_welcome (reset s) = true /\ userConfig (reset s) = None).
Proof.
  intros Hr.
  assert (Hinv : shell_invariant s).
  { induction Hr as [|s s' _ IH Hstep].
    - constructor; simpl; intros; try discriminate. now split.
    - eapply shell_invariant_step; eauto. }
  destruct Hinv as [Hs Hi He]. split; [|split].
  - unfold shows_welcome. destruct (appState s); try discriminate. auto.
  - intros Ha. destruct (Hi Ha) as (Hz & config & Hc & Hn).
    split; [exact Hz|]. exists config. unfold shows_session. rewrite Ha. now split.
  - unfold shows_ended. destruct (appState s) eqn:Ha; try discriminate. intros _.
    pose proof (He eq_refl) as Ht. split; [exact Ht|].
    split; [constructor; lia | now split].
Qed.

End AppProperties.

Section AppExamples.

Import App.

Lemma shell_screens_witness :
  let s := enter (Welcome.units "Al") (Welcome.units "General Chat") initial in
  timeouts s = 0%nat /\
  exists config, shows_session s = Some config /\ named config.
Proof.
  assert (Hr : reachable (enter (Welcome.units "Al") (Welcome.units "General Chat") initial)).
  { eapply reachable_step; [apply reachable_initial|]. now constructor. }
  destruct (shell_screens _ Hr) as (_ & H & _).
  apply H. reflexivity.
Defined.

End AppExamples.

(** * Properties of the camera preview *)

Section PreviewProperties.

Import Preview.

(** What clicks leave alone, and what they keep. *)
Lemma apply_flags_frame s :
  mounted (apply_flags s) = mounted s /\ acquiring (apply_flags s) = acquiring s /\
  stream (apply_flags s) = stream s /\ srcObject (apply_flags s) = srcObject s /\
  isMicOn (apply_flags s) = isMicOn s /\ isCamOn (apply_flags s) = isCamOn s /\
  (srcObject s = None -> tracks (apply_flags s) = tracks s).
Proof.
  destruct s as [m a mi ca st so tr co]. unfold apply_flags. simpl.
  destruct m, so; simpl; repeat split; discriminate.
Qed.

Lemma apply_flags_lookup s ids i :
  mounted s = true -> srcObject s = Some ids ->
  tracks (apply_flags s) !! i =
  (fun t => DeviceToggles.enabled_in is_video (isCamOn s) ids i
              (DeviceToggles.enabled_in is_audio (isMicOn s) ids i t))
    <$> tracks s !! i.
Proof.
  intros Hm Hs. unfold apply_flags. rewrite Hm, Hs. simpl.
  unfold getVideoTracks, getAudioTracks.
  rewrite set_enabled_each, set_enabled_each.
  now destruct (tracks s !! i).
Qed.

Lemma apply_flags_in_step s ids :
  mounted s = true -> srcObject s = Some ids -> flags_in_step (apply_flags s) ids.
Proof.
  intros Hm Hs i t Hin Ht. rewrite (apply_flags_lookup s ids i Hm Hs) in Ht.
  destruct (apply_flags_frame s) as (_ & _ & _ & _ & -> & -> & _).
  destruct (tracks s !! i) as [t0|]; [|discriminate]. simpl in Ht. injection Ht as <-.
  unfold DeviceToggles.enabled_in.
  destruct (in_dec Nat.eq_dec i ids); [|contradiction].
  unfold is_audio, is_video. destruct t0 as [k en rs oe]. simpl.
  destruct k; simpl; split; intros H; try discriminate H; reflexivity.
Qed.

Lemma click_frame e s :
  is_click e ->
  mounted (step s e) = mounted s /\ acquiring (step s e) = acquiring s /\
  stream (step s e) = stream s /\ srcObject (step s e) = srcObject s /\
  (srcObject s = None -> tracks (step s e) = tracks s).
Proof.
  intros He. destruct e; try contradiction; simpl.
  - unfold clickMic. destruct (mounted s) eqn:Hm; [|repeat split; assumption].
    match goal with |- context [apply_flags ?st] =>
      destruct (apply_flags_frame st) as (H1 & H2 & H3 & H4 & _ & _ & H7) end.
    simpl in *. rewrite H1, H2, H3, H4. repeat split. exact H7.
  - unfold clickCam. destruct (mounted s) eqn:Hm; [|repeat split; assumption].
    match goal with |- context [apply_flags ?st] =>
      destruct (apply_flags_frame st) as (H1 & H2 & H3 & H4 & _ & _ & H7) end.
    simpl in *. rewrite H1, H2, H3, H4. repeat split. exact H7.
Qed.

Lemma clicks_frame trace s :
  Forall is_click trace ->
  mounted (run trace s) = mounted s /\ acquiring (run trace s) = acquiring s /\
  stream (run trace s) = stream s /\ srcObject (run trace s) = srcObject s /\
  (srcObject s = None -> tracks (run trace s) = tracks s).
Proof.
  intros Ht. revert s. induction Ht as [|e t He _ IH]; intros s; simpl; [repeat split|].
  destruct (click_frame e s He) as (H1 & H2 & H3 & H4 & H5).
  destruct (IH (step s e)) as (I1 & I2 & I3 & I4 & I5).
  rewrite I1, I2, I3, I4, H1, H2, H3, H4. repeat split.
  intros Hn. rewrite I5 by congruence. now apply H5.
Qed.

Lemma clicks_length trace s :
  Forall is_click trace -> List.length (tracks (run trace s)) = List.length (tracks s).
Proof.
  intros Ht. revert s. induction Ht as [|e tr He _ IH]; intros s; simpl; [reflexivity|].
  rewrite IH. destruct s as [m a mi ca st so tr0 co].
  destruct e; try contradiction; simpl; unfold clickMic, clickCam, apply_flags; simpl;
    destruct m, so; simpl; rewrite ?for_each_track_length_any; reflexivity.
Qed.

Lemma unmount_length s : List.length (tracks (unmount s)) = List.length (tracks s).
Proof.
  destruct s as [m a mi ca st so tr0 co]. unfold unmount. simpl.
  destruct m, st; simpl; rewrite ?for_each_track_length_any; reflexivity.
Qed.

(** Clicks and the unmount leave alone every track that is not in the
    stream on the video element, respectively in the effect's stream. *)
Lemma click_outside e s i :
  is_click e ->
  (forall ids, srcObject s = Some ids -> ~ In i ids) ->
  tracks (step s e) !! i = tracks s !! i.
Proof.
  intros He Hout.
  assert (A : forall st, srcObject st = srcObject s ->
                         tracks (apply_flags st) !! i = tracks st !! i).
  { intros st Hso. destruct (mounted st) eqn:Hm.
    - destruct (srcObject st) as [ids|] eqn:Hs.
      + rewrite (apply_flags_lookup st ids i Hm Hs).
        destruct (tracks st !! i) as [t|]; [simpl|reflexivity]. f_equal.
        unfold DeviceToggles.enabled_in.
        destruct (in_dec Nat.eq_dec i ids) as [Hin|]; [|reflexivity].
        exfalso. apply (Hout ids); [congruence | exact Hin].
      + destruct (apply_flags_frame st) as (_ & _ & _ & _ & _ & _ & H). now rewrite H.
    - unfold apply_flags. now rewrite Hm. }
  destruct e; try contradiction; simpl; unfold clickMic, clickCam;
    destruct (mounted s); try reflexivity; now rewrite A.
Qed.

Lemma clicks_outside trace s i :
  Forall is_click trace ->
  (forall ids, srcObject s = Some ids -> ~ In i ids) ->
  tracks (run trace s) !! i = tracks s !! i.
Proof.
  intros Ht. revert s. induction Ht as [|e tr He _ IH]; intros s Hout; simpl;
    [reflexivity|].
  destruct (click_frame e s He) as (_ & _ & _ & Hso & _).
  rewrite IH; [now apply click_outside|].
  intros ids Hids. apply Hout. congruence.
Qed.

(** Nothing happens to the tracks once the component is gone and the
    acquisition has settled. *)
Lemma gone_is_final trace s :
  mounted s = false -> acquiring s = false -> run trace s = s.
Proof.
  intros Hm Ha. induction trace as [|e t IH]; simpl; [reflexivity|].
  assert (E : step s e = s).
  { destruct e; simpl; unfold settle, unmount, clickMic, clickCam;
      rewrite ?Hm, ?Ha; reflexivity. }
  now rewrite E.
Qed.

(** X14: The preview releases the camera and the microphone only if they were
    acquired before it unmounts.  When [getUserMedia] settles first,
    unmounting ends every track it returned, whatever was clicked in
    between, and touches no other track.  When the component unmounts
    first, the tracks [getUserMedia] then returns are left exactly as
    acquired, and no later event ever stops them. *)
Theorem preview_releases_only_if_acquired_in_time
    (store newTracks : list Track) (before after later : list Event) :
  Forall is_click before -> Forall is_click after ->
  let in_time :=
    run (before ++ [Settle (DeviceTracks.Granted newTracks)] ++ after ++ [Unmount])
        (mount store) in
  let too_late :=
    run (before ++ [Unmount; Settle (DeviceTracks.Granted newTracks)]) (mount store) in
  (forall i t, tracks in_time !! (List.length store + i)%nat = Some t ->
               readyState t = Ended) /\
  List.length (tracks in_time) = (List.length store + List.length newTracks)%nat /\
  (forall i, (i < List.length store)%nat -> tracks in_time !! i = store !! i) /\
  tracks too_late = store ++ newTracks /\
  tracks (run later too_late) = store ++ newTracks.
Proof.
  intros Hb Ha in_time too_late.
  destruct (clicks_frame before (mount store) Hb) as (B1 & B2 & B3 & B4 & B5).
  simpl in B1, B2, B3, B4, B5. specialize (B5 eq_refl).
  set (s0 := run before (mount store)) in *.
  assert (Etl : too_late =
                mkState false false (isMicOn s0) (isCamOn s0)
                        (Some (seq (List.length store) (List.length newTracks))) None
                        (store ++ newTracks) (console s0)).
  { subst too_late. unfold run. rewrite fold_left_app. fold (run before (mount store)).
    fold s0. simpl. unfold unmount. rewrite B1, B3. unfold settle. simpl.
    rewrite B2, B5. reflexivity. }
  assert (Hin : forall i t, tracks in_time !! (List.length store + i)%nat = Some t ->
                            readyState t = Ended).
  { subst in_time. unfold run. rewrite !fold_left_app. fold (run before (mount store)).
    fold s0. simpl.
    set (s1 := settle (DeviceTracks.Granted newTracks) s0).
    assert (S1 : mounted s1 = true /\
                 stream s1 = Some (seq (List.length store) (List.length newTracks)) /\
                 List.length (tracks s1) = (List.length store + List.length newTracks)%nat).
    { subst s1. unfold settle. rewrite B2. simpl. rewrite B1, B5, length_app.
      repeat split. }
    destruct S1 as (M1 & St1 & L1).
    fold (run after s1).
    destruct (clicks_frame after s1 Ha) as (A1 & _ & A3 & _ & _).
    unfold unmount. rewrite A1, M1, A3, St1. simpl.
    intros i t Ht. eapply stop_each_ended; [|exact Ht].
    apply in_seq. apply lookup_lt_Some in Ht.
    rewrite for_each_track_length_any, (clicks_length after s1 Ha), L1 in Ht. lia. }
  split; [exact Hin|]. split; [|split; [|split]].
  - subst in_time. unfold run. rewrite !fold_left_app. fold (run before (mount store)).
    fold s0. simpl.
    set (s1 := settle (DeviceTracks.Granted newTracks) s0).
    fold (run after s1). rewrite unmount_length, (clicks_length after s1 Ha).
    subst s1. unfold settle. rewrite B2. simpl. now rewrite length_app, B5.
  - intros i Hi. subst in_time. unfold run. rewrite !fold_left_app.
    fold (run before (mount store)). fold s0. simpl.
    set (s1 := settle (DeviceTracks.Granted newTracks) s0).
    assert (S1 : mounted s1 = true /\
                 stream s1 = Some (seq (List.length store) (List.length newTracks)) /\
                 srcObject s1 = Some (seq (List.length store) (List.length newTracks)) /\
                 tracks s1 = store ++ newTracks).
    { subst s1. unfold settle. rewrite B2. simpl. rewrite B1, B5. repeat split. }
    destruct S1 as (M1 & St1 & So1 & T1).
    fold (run after s1).
    destruct (clicks_frame after s1 Ha) as (A1 & _ & A3 & _ & _).
    unfold unmount. rewrite A1, M1, A3, St1. simpl.
    rewrite stop_each_lookup.
    destruct (in_dec Nat.eq_dec i (seq (List.length store) (List.length newTracks)))
      as [Hseq|_]; [apply in_seq in Hseq; lia|].
    rewrite clicks_outside; [|exact Ha|].
    + rewrite T1, lookup_app_l by exact Hi. now destruct (store !! i).
    + intros ids Hids. rewrite So1 in Hids. injection Hids as <-.
      intros Hseq. apply in_seq in Hseq. lia.
  - rewrite Etl. reflexivity.
  - rewrite gone_is_final; rewrite Etl; reflexivity.
Qed.

(** X15: A click on either button puts the flags of a stream that is on the
    video element in step with both toggles.  A click made while the
    stream has not arrived yet only changes the toggle: when the stream
    then arrives its tracks stay as acquired, whatever the toggles
    say. *)
Theorem preview_flags_follow_clicks (s : State) (e : Event) :
  is_click e -> mounted s = true ->
  (forall ids, srcObject s = Some ids -> flags_in_step (step s e) ids) /\
  (forall newTracks,
     acquiring s = true -> srcObject s = None ->
     tracks (settle (DeviceTracks.Granted newTracks) (step s e)) =
       tracks s ++ newTracks /\
     (e = ClickMic ->
      isMicOn (settle (DeviceTracks.Granted newTracks) (step s e)) = negb (isMicOn s)) /\
     (e = ClickCam ->
      isCamOn (settle (DeviceTracks.Granted newTracks) (step s e)) = negb (isCamOn s))).
Proof.
  intros He Hm. split.
  - intros ids Hs. destruct e; try contradiction; simpl;
      unfold clickMic, clickCam; rewrite Hm; now apply apply_flags_in_step.
  - intros newTracks Hacq Hs.
    destruct (click_frame e s He) as (H1 & H2 & _ & _ & H5).
    specialize (H5 Hs).
    assert (Hflags : (e = ClickMic -> isMicOn (step s e) = negb (isMicOn s)) /\
                     (e = ClickCam -> isCamOn (step s e) = negb (isCamOn s))).
    { split; intros ->; simpl; unfold clickMic, clickCam; rewrite Hm;
        match goal with |- context [apply_flags ?st] =>
          destruct (apply_flags_frame st) as (_ & _ & _ & _ & F1 & F2 & _) end;
        first [exact F1 | exact F2]. }
    unfold settle. rewrite H2, Hacq. simpl. rewrite H5. tauto.
Qed.

End PreviewProperties.

Section PreviewExamples.

Import Preview.

Lemma preview_releases_only_if_acquired_in_time_witness :
  tracks (run ([ClickMic] ++ [Settle camera_and_mic] ++ [ClickCam] ++ [Unmount]) (mount [])) =
    [mkTrack VideoKind false Ended None; mkTrack AudioKind false Ended None] /\
  tracks (run ([ClickMic] ++ [Unmount; Settle camera_and_mic]) (mount [])) =
    [mkTrack VideoKind true Live None; mkTrack AudioKind true Live None].
Proof.
  destruct (preview_releases_only_if_acquired_in_time []
              [mkTrack VideoKind true Live None; mkTrack AudioKind true Live None]
              [ClickMic] [ClickCam] [])
    as (_ & _ & _ & H & _).
  - repeat constructor.
  - repeat constructor.
  - split; [reflexivity | exact H].
Defined.

Lemma preview_flags_follow_clicks_witness :
  flags_in_step (step (run [Settle camera_and_mic] (mount [])) ClickMic) [0; 1]%nat /\
  tracks (settle camera_and_mic (step (mount []) ClickMic)) =
    [mkTrack VideoKind true Live None; mkTrack AudioKind true Live None] /\
  isMicOn (settle camera_and_mic (step (mount []) ClickMic)) = false.
Proof.
  destruct (preview_flags_follow_clicks (run [Settle camera_and_mic] (mount []))
              ClickMic I eq_refl) as [H1 _].
  destruct (preview_flags_follow_clicks (mount []) ClickMic I eq_refl) as [_ H2].
  destruct (H2 [mkTrack VideoKind true Live None; mkTrack AudioKind true Live None]
               eq_refl eq_refl) as (H3 & H4 & _).
  split; [apply H1; reflexivity|]. split; [exact H3 | exact (H4 eq_refl)].
Defined.

End PreviewExamples.

(** * What [cleanup] releases and what it leaves *)

Section CleanupScope.

Import Lifecycle.

Ltac unfold_cleanup :=
  cbv beta iota zeta delta
      [cleanup when_set disconnect close is_running stop_all clearInterval
       clear_processorRef clear_sourceRef clear_inputContextRef
       clear_audioContextRef clear_sessionRef
       processorRef sourceRef inputContextRef audioContextRef mediaStreamRef
       timerIntervalRef sessionRef connected contexts tracks intervals rejections].

Lemma cleanup_connected s :
  connected (cleanup s) =
  match sourceRef s with
  | Some n => match processorRef s with
              | Some m => connected s ∖ {[m]} ∖ {[n]}
              | None => connected s ∖ {[n]}
              end
  | None => match processorRef s with
            | Some m => connected s ∖ {[m]}
            | None => connected s
            end
  end.
Proof.
  destruct s as [p so ic ac ms ti se cn cx tr iv rj].
  destruct p, so, ic, ac, ms, ti, se; unfold_cleanup; reflexivity.
Qed.

Lemma cleanup_intervals s :
  intervals (cleanup s) =
  match timerIntervalRef s with
  | Some id => intervals s ∖ {[id]}
  | None => intervals s
  end.
Proof.
  destruct s as [p so ic ac ms ti se cn cx tr iv rj].
  destruct p, so, ic, ac, ms, ti, se; unfold_cleanup; reflexivity.
Qed.

Lemma cleanup_track_store s :
  tracks (cleanup s) =
  match mediaStreamRef s with
  | Some stream => for_each_track stop_track stream (tracks s)
  | None => tracks s
  end.
Proof.
  destruct s as [p so ic ac ms ti se cn cx tr iv rj].
  destruct p, so, ic, ac, ms, ti, se; unfold_cleanup; reflexivity.
Qed.

Lemma cleanup_context_store s c :
  inputContextRef s <> Some c -> audioContextRef s <> Some c ->
  contexts (cleanup s) !! c = contexts s !! c.
Proof.
  intros Hi Ha. destruct s as [p so ic ac ms ti se cn cx tr iv rj].
  cbn [inputContextRef audioContextRef] in Hi, Ha.
  destruct p, so, ic as [c1|], ac as [c2|], ms, ti, se; unfold_cleanup;
    repeat match goal with
           | |- context [if ?b then _ else _] => destruct b
           end;
    rewrite ?list_lookup_insert_ne by congruence; reflexivity.
Qed.

(** X16: [cleanup] releases what the refs name and nothing else.  The two
    audio nodes are disconnected and every other node keeps its
    connections; only the timer the ref names is removed; only the
    tracks of the session's stream are touched; only the two contexts
    the refs name are touched.  The stream ref and the timer ref
    themselves keep their values. *)
Theorem cleanup_releases_only_its_own (s : State) :
  (forall node, processorRef s = Some node \/ sourceRef s = Some node ->
                node ∉ connected (cleanup s)) /\
  (forall node, processorRef s <> Some node -> sourceRef s <> Some node ->
                (node ∈ connected (cleanup s) <-> node ∈ connected s)) /\
  (forall id, timerIntervalRef s <> Some id ->
              (id ∈ intervals (cleanup s) <-> id ∈ intervals s)) /\
  (forall i, (forall stream, mediaStreamRef s = Some stream -> ~ In i stream) ->
             tracks (cleanup s) !! i = tracks s !! i) /\
  (forall c, inputContextRef s <> Some c -> audioContextRef s <> Some c ->
             contexts (cleanup s) !! c = contexts s !! c) /\
  mediaStreamRef (cleanup s) = mediaStreamRef s /\
  timerIntervalRef (cleanup s) = timerIntervalRef s.
Proof.
  destruct (cleanup_refs s) as (_ & _ & _ & _ & _ & Hms & Hti).
  split; [|split; [|split; [|split; [|split; [|split]]]]].
  - intros node Hn. rewrite cleanup_connected.
    destruct (sourceRef s) as [n|], (processorRef s) as [m|];
      rewrite ?elem_of_difference, ?elem_of_singleton;
      destruct Hn as [Hn|Hn]; try discriminate; injection Hn as ->; tauto.
  - intros node Hp Hso. rewrite cleanup_connected.
    destruct (sourceRef s) as [n|], (processorRef s) as [m|];
      rewrite ?elem_of_difference, ?elem_of_singleton; try tauto;
      split; try tauto; intros H; repeat split; try exact H; congruence.
  - intros id Hid. rewrite cleanup_intervals.
    destruct (timerIntervalRef s) as [id'|]; [|tauto].
    rewrite elem_of_difference, elem_of_singleton.
    split; [tauto|]. intros H. split; [exact H | congruence].
  - intros i Hout. rewrite cleanup_track_store.
    destruct (mediaStreamRef s) as [stream|]; [|reflexivity].
    rewrite stop_each_lookup.
    destruct (in_dec Nat.eq_dec i stream) as [Hin|_];
      [exfalso; exact (Hout stream eq_refl Hin)|].
    now destruct (tracks s !! i).
  - apply cleanup_context_store.
  - exact Hms.
  - exact Hti.
Qed.

End CleanupScope.

Section CleanupScopeExamples.

Import Lifecycle.

Lemma cleanup_releases_only_its_own_witness :
  (1%nat ∉ connected (cleanup active_session)) /\
  (forall id, Some 5%positive <> Some id ->
     (id ∈ intervals (cleanup active_session) <-> id ∈ intervals active_session)) /\
  mediaStreamRef (cleanup active_session) = Some [0; 1]%nat.
Proof.
  destruct (cleanup_releases_only_its_own active_session)
    as (H1 & _ & H3 & _ & _ & H6 & _).
  split; [apply H1; left; reflexivity|]. split; [exact H3 | exact H6].
Defined.

End CleanupScopeExamples.

(** * Properties of a completed video swap *)

Section TrackSwapProperties.

Import DeviceTracks TrackSwap.

Lemma filter_video_remove (store : list Track) old l :
  getVideoTracks store l = [old] ->
  getVideoTracks store (List.filter (fun i => negb (Nat.eqb i old)) l) = [].
Proof.
  unfold getVideoTracks. intros H.
  induction l as [|x l IH] in H |- *; simpl in *; [reflexivity|].
  destruct (has_kind is_video store x) eqn:Hx.
  - injection H as -> Hl. rewrite Nat.eqb_refl. simpl.
    clear IH. induction l as [|y l IH]; simpl in *; [reflexivity|].
    destruct (has_kind is_video store y) eqn:Hy; [discriminate|].
    destruct (negb (y =? old)); simpl; rewrite ?Hy; now apply IH.
  - destruct (negb (x =? old)); simpl; rewrite ?Hx; now apply IH.
Qed.

(** [swap_video] on a stream with one video track, right after the
    acquisition of one new video track. *)
Lemma swap_video_replaces (s : State) (cur old : nat) (nt : Track) :
  one_video_track s cur old -> kind nt = VideoKind ->
  let s1 := snd (acquire (Granted [nt]) s) in
  first_video_track s1 (List.length (streams s)) = Some (List.length (tracks s)) /\
  swap_video (Some (List.length (tracks s))) s1 = (Normal tt, swapped s cur old nt).
Proof.
  intros (Hms & [v Hv] & l & Hl & Hwf & Hvid) Hk s1.
  assert (Hcur : (cur < List.length (streams s))%nat) by (eapply lookup_lt_Some; eauto).
  assert (Hnew : (tracks s ++ [nt]) !! List.length (tracks s) = Some nt).
  { rewrite lookup_app_r by lia. now rewrite Nat.sub_diag. }
  assert (Hl1 : (streams s ++ [[List.length (tracks s)]]) !! cur = Some l)
    by (now rewrite lookup_app_l).
  assert (Hvid1 : getVideoTracks (tracks s ++ [nt]) l = [old]).
  { rewrite <- Hvid. unfold getVideoTracks. apply filter_ext_in. intros i Hi.
    unfold has_kind. now rewrite lookup_app_l by (apply Hwf; exact Hi). }
  split.
  - subst s1. unfold first_video_track, stream_tracks. simpl.
    rewrite lookup_app_r by lia. rewrite Nat.sub_diag. simpl.
    unfold has_kind. rewrite Hnew. unfold is_video. now rewrite Hk.
  - subst s1. unfold swap_video, bind, gets, modify, defined, ret. simpl.
    rewrite Hv, Hms. unfold first_video_track, stream_tracks. simpl.
    rewrite Hl1. simpl. rewrite Hvid1. simpl.
    unfold swapped, removeTrack, addTrack, set_streams, set_tracks, set_videoRef.
    simpl. now rewrite Hms.
Qed.

(** What the swapped state looks like from outside. *)
Lemma swapped_one_video_track (s : State) (cur old : nat) (nt : Track) (f : Track -> Track) :
  one_video_track s cur old -> kind nt = VideoKind -> (forall t, kind (f t) = kind t) ->
  let new := List.length (tracks s) in
  let s' := set_tracks (alter f new) (swapped s cur old nt) in
  one_video_track s' cur new /\
  tracks s' !! new = Some (f nt) /\
  (exists t, tracks s !! old = Some t /\ tracks s' !! old = Some (stop_track t)) /\
  ~ In old (stream_tracks s' cur) /\
  videoRef s' = Some (mkVideo (Some cur)) /\
  List.length (tracks s') = S new /\
  (forall i, i <> old -> (i < new)%nat -> tracks s' !! i = tracks s !! i).
Proof.
  intros (Hms & [v Hv] & l & Hl & Hwf & Hvid) Hk Hf new s'.
  assert (Hcur : (cur < List.length (streams s))%nat) by (eapply lookup_lt_Some; eauto).
  assert (Hold : In old l /\ has_kind is_video (tracks s) old = true).
  { assert (In old (getVideoTracks (tracks s) l)) as Hin by (rewrite Hvid; now left).
    now apply filter_In in Hin. }
  destruct Hold as [Hold_in Hold_v].
  assert (Hold_lt : (old < new)%nat) by (apply Hwf, Hold_in).
  destruct (has_kind_true _ _ _ Hold_v) as (t_old & Ht_old & Hv_old).
  assert (Hnew_out : ~ In new l) by (intros H; apply Hwf in H; unfold new in H; lia).
  assert (Hexists : existsb (Nat.eqb new) (List.filter (fun i => negb (Nat.eqb i old)) l)
                    = false).
  { apply not_true_is_false. intros H. apply existsb_exists in H as (x & Hx & Hxe).
    apply Nat.eqb_eq in Hxe. subst x. apply filter_In in Hx as [Hx _]. contradiction. }
  assert (Hstream : stream_tracks s' cur = replaced old new l).
  { subst s'. unfold stream_tracks, swapped. simpl.
    rewrite !list_lookup_alter_eq, lookup_app_l by exact Hcur. rewrite Hl. simpl.
    fold new. now rewrite Hexists. }
  assert (Hlook : forall i, tracks s' !! i =
            (if Nat.eq_dec i new then Some (f nt)
             else if Nat.eq_dec i old then stop_track <$> tracks s !! i
             else tracks s !! i)).
  { intros i. subst s'. unfold swapped. simpl. fold new.
    destruct (Nat.eq_dec i new) as [->|Hn].
    - rewrite list_lookup_alter_eq, list_lookup_alter_ne by lia.
      unfold new. rewrite lookup_app_r by lia. now rewrite Nat.sub_diag.
    - rewrite list_lookup_alter_ne by lia.
      destruct (Nat.eq_dec i old) as [->|Ho].
      + rewrite list_lookup_alter_eq, lookup_app_l by exact Hold_lt. reflexivity.
      + rewrite list_lookup_alter_ne by lia.
        destruct (Nat.lt_ge_cases i new) as [Hlt|Hge].
        * now rewrite lookup_app_l.
        * rewrite lookup_app_r by (unfold new in Hge; lia).
          rewrite (lookup_ge_None_2 (tracks s)) by (unfold new in Hge; lia).
          apply lookup_ge_None_2. simpl. unfold new in *. lia. }
  assert (Hkinds : forall i, (i < new)%nat ->
            has_kind is_video (tracks s') i = has_kind is_video (tracks s) i).
  { intros i Hi. unfold has_kind. rewrite Hlook.
    destruct (Nat.eq_dec i new); [lia|].
    destruct (Nat.eq_dec i old) as [->|_]; [|reflexivity].
    now destruct (tracks s !! old). }
  split; [|split; [|split; [|split; [|split; [|split]]]]].
  - split; [reflexivity|]. split; [eexists; reflexivity|].
    exists (replaced old new l). split; [|split].
    + subst s'. unfold swapped. simpl.
      rewrite !list_lookup_alter_eq, lookup_app_l by exact Hcur. rewrite Hl. simpl.
      fold new. now rewrite Hexists.
    + intros i Hi. subst s'. unfold swapped. simpl.
      rewrite !length_alter, length_app. simpl. fold new.
      unfold replaced in Hi. apply in_app_or in Hi as [Hi|[<-|[]]]; [|lia].
      apply filter_In in Hi as [Hi _]. apply Hwf in Hi. fold new in Hi. lia.
    + assert (Hleft : List.filter (has_kind is_video (tracks s'))
                        (List.filter (fun i => negb (Nat.eqb i old)) l) = []).
      { rewrite <- (filter_video_remove (tracks s) old l Hvid).
        unfold getVideoTracks. apply filter_ext_in. intros i Hi.
        apply filter_In in Hi as [Hi _]. apply Hkinds, Hwf, Hi. }
      assert (Hright : has_kind is_video (tracks s') new = true).
      { unfold has_kind. rewrite Hlook. destruct (Nat.eq_dec new new); [|congruence].
        unfold is_video. now rewrite Hf, Hk. }
      unfold replaced, getVideoTracks. rewrite List.filter_app, Hleft.
      cbn [List.filter app]. now rewrite Hright.
  - rewrite Hlook. destruct (Nat.eq_dec new new); [reflexivity | congruence].
  - exists t_old. split; [exact Ht_old|]. rewrite Hlook.
    destruct (Nat.eq_dec old new); [lia|].
    destruct (Nat.eq_dec old old); [|congruence]. now rewrite Ht_old.
  - rewrite Hstream. unfold replaced. intros Hin.
    apply in_app_or in Hin as [Hin|[Hin|[]]]; [|lia].
    apply filter_In in Hin as [_ Hne]. now rewrite Nat.eqb_refl in Hne.
  - reflexivity.
  - subst s'. unfold swapped. simpl. rewrite !length_alter, length_app. simpl.
    unfold new. lia.
  - intros i Hio Hin. rewrite Hlook.
    destruct (Nat.eq_dec i new); [lia|]. now destruct (Nat.eq_dec i old).
Qed.

(** Both transitions on a granted acquisition of one video track. *)
Lemma granted_swap (s : State) (cur old : nat) (nt : Track) (share : bool) :
  one_video_track s cur old -> kind nt = VideoKind ->
  let new := List.length (tracks s) in
  let r := if share then startScreenShare (Granted [nt]) s
           else stopScreenShare (Granted [nt]) s in
  threw r = false /\
  one_video_track (state_of r) cur new /\
  tracks (state_of r) !! new =
    Some (if share then set_onended CallStopScreenShare nt else nt) /\
  (exists t, tracks s !! old = Some t /\
             tracks (state_of r) !! old = Some (stop_track t)) /\
  ~ In old (stream_tracks (state_of r) cur) /\
  isScreenSharing (state_of r) = share /\
  List.length (tracks (state_of r)) = S new /\
  (forall i, i <> old -> (i < new)%nat -> tracks (state_of r) !! i = tracks s !! i).
Proof.
  intros H1 Hk new r.
  destruct (swap_video_replaces s cur old nt H1 Hk) as [Hfirst Hswap].
  destruct share.
  - assert (E : r =
                (Normal tt,
                 setIsScreenSharing true
                   (set_tracks (alter (set_onended CallStopScreenShare) new)
                      (swapped s cur old nt)))).
    { subst r. unfold startScreenShare, try_catch, bind, gets. simpl.
      simpl in Hfirst, Hswap. rewrite Hfirst, Hswap. reflexivity. }
    destruct (swapped_one_video_track s cur old nt (set_onended CallStopScreenShare)
                H1 Hk (fun t => eq_refl)) as (A & B & C & D & _ & F & G).
    rewrite E. unfold threw, state_of. cbn [fst snd].
    split; [reflexivity|]. split; [exact A|]. split; [exact B|].
    split; [exact C|]. split; [exact D|]. split; [reflexivity|].
    split; [exact F | exact G].
  - assert (E : r =
                (Normal tt, setIsScreenSharing false (swapped s cur old nt))).
    { subst r. unfold stopScreenShare, try_catch, bind, gets. simpl.
      simpl in Hfirst, Hswap. rewrite Hfirst, Hswap. reflexivity. }
    destruct (swapped_one_video_track s cur old nt (fun t => t)
                H1 Hk (fun t => eq_refl)) as (A & B & C & D & _ & F & G).
    assert (Hid : set_tracks (alter (fun t => t) (List.length (tracks s)))
                    (swapped s cur old nt) = swapped s cur old nt).
    { unfold set_tracks, swapped. simpl. now rewrite list_alter_id. }
    rewrite Hid in A, B, C, D, F, G.
    rewrite E. unfold threw, state_of. cbn [fst snd].
    split; [reflexivity|]. split; [exact A|]. split; [exact B|].
    split; [exact C|]. split; [exact D|]. split; [reflexivity|].
    split; [exact F | exact G].
Qed.

(** X17: A granted swap, either way.  When the shared stream holds exactly
    one video track and the acquisition returns one video track, the
    transition completes without throwing; the old track is stopped and
    is no longer in the stream; the stream again holds exactly one video
    track, the new one, in the state it was acquired in (its [enabled]
    flag is the acquired one, whatever the camera toggle says), with the
    end-of-capture callback on it after a switch to the screen; and the
    sharing flag is set, respectively cleared. *)
Theorem granted_swap_replaces_video_track (s : State) (cur old : nat) (nt : Track) :
  one_video_track s cur old -> kind nt = VideoKind ->
  let new := List.length (tracks s) in
  let shared := startScreenShare (Granted [nt]) s in
  let back := stopScreenShare (Granted [nt]) s in
  (threw shared = false /\
   one_video_track (state_of shared) cur new /\
   tracks (state_of shared) !! new = Some (set_onended CallStopScreenShare nt) /\
   (exists t, tracks s !! old = Some t /\
              tracks (state_of shared) !! old = Some (stop_track t)) /\
   ~ In old (stream_tracks (state_of shared) cur) /\
   isScreenSharing (state_of shared) = true) /\
  (threw back = false /\
   one_video_track (state_of back) cur new /\
   tracks (state_of back) !! new = Some nt /\
   (exists t, tracks s !! old = Some t /\
              tracks (state_of back) !! old = Some (stop_track t)) /\
   ~ In old (stream_tracks (state_of back) cur) /\
   isScreenSharing (state_of back) = false).
Proof.
  intros H1 Hk new shared back.
  destruct (granted_swap s cur old nt true H1 Hk) as (A & B & C & D & E & F & _).
  destruct (granted_swap s cur old nt false H1 Hk) as (A' & B' & C' & D' & E' & F' & _).
  split.
  - split; [exact A|]. split; [exact B|]. split; [exact C|]. split; [exact D|].
    split; [exact E | exact F].
  - split; [exact A'|]. split; [exact B'|]. split; [exact C'|]. split; [exact D'|].
    split; [exact E' | exact F'].
Qed.

Lemma one_video_track_well_formed s cur video :
  one_video_track s cur video -> well_formed s.
Proof.
  intros (Hms & _ & l & Hl & Hwf & _) cur' Hc. rewrite Hms in Hc. injection Hc as <-.
  split; [eapply lookup_lt_Some; eauto|].
  unfold stream_tracks. rewrite Hl. exact Hwf.
Qed.

(** X18: Sharing the screen and coming back.  From a session with one camera
    track that is not sharing, a click that is granted a screen track
    and a second click that is granted a camera track leave the session
    not sharing, with exactly one video track in the shared stream, the
    new camera track as acquired; the first camera track and the screen
    track are both ended; the audio side of the stream is as it was. *)
Theorem share_and_return (s : State) (cur camera : nat) (screen camera2 : Track) :
  one_video_track s cur camera -> isScreenSharing s = false ->
  kind screen = VideoKind -> kind camera2 = VideoKind ->
  let n := List.length (tracks s) in
  let s1 := state_of (toggleScreenShare (Granted [screen]) s) in
  let s2 := state_of (toggleScreenShare (Granted [camera2]) s1) in
  isScreenSharing s1 = true /\ isScreenSharing s2 = false /\
  one_video_track s2 cur (S n) /\
  tracks s2 !! S n = Some camera2 /\
  tracks s2 !! n = Some (stop_track (set_onended CallStopScreenShare screen)) /\
  (exists t, tracks s !! camera = Some t /\ tracks s2 !! camera = Some (stop_track t)) /\
  audio_tracks s2 = audio_tracks s.
Proof.
  intros H1 Hns Hk1 Hk2 n s1 s2. subst n.
  assert (E1 : s1 = state_of (startScreenShare (Granted [screen]) s)).
  { subst s1. unfold toggleScreenShare, toggleScreenShare_resume, toggleScreenShare_begin.
    now rewrite Hns. }
  destruct (granted_swap s cur camera screen true H1 Hk1)
    as (_ & A1 & B1 & (t & Ht & C1) & _ & F1 & L1 & _).
  cbn [state_of] in *. rewrite <- E1 in A1, B1, C1, F1, L1.
  assert (E2 : s2 = state_of (stopScreenShare (Granted [camera2]) s1)).
  { subst s2. unfold toggleScreenShare, toggleScreenShare_resume, toggleScreenShare_begin.
    now rewrite F1. }
  destruct (granted_swap s1 cur (List.length (tracks s)) camera2 false A1 Hk2)
    as (_ & A2 & B2 & (t' & Ht' & C2) & _ & F2 & _ & G2).
  cbn [state_of] in *. rewrite <- E2 in A2, B2, C2, F2, G2. rewrite L1 in A2, B2, G2.
  assert (Hcam : (camera < List.length (tracks s))%nat)
    by (eapply lookup_lt_Some; eauto).
  split; [exact F1|]. split; [exact F2|]. split; [exact A2|]. split; [exact B2|].
  split; [|split].
  - rewrite C2. rewrite B1 in Ht'. now injection Ht' as <-.
  - exists t. split; [exact Ht|]. rewrite G2 by lia. exact C1.
  - transitivity (audio_tracks s1).
    + rewrite E2. apply audio_kept_tracks, stopScreenShare_keeps_audio.
      eapply one_video_track_well_formed; eauto.
    + rewrite E1. apply audio_kept_tracks, startScreenShare_keeps_audio.
      eapply one_video_track_well_formed; eauto.
Qed.

End TrackSwapProperties.

Section TrackSwapExamples.

Import DeviceTracks TrackSwap.

Lemma granted_swap_replaces_video_track_witness :
  one_video_track
    (state_of (startScreenShare (Granted [mkTrack VideoKind true Live None]) camera_session))
    0 2 /\
  isScreenSharing
    (state_of (startScreenShare (Granted [mkTrack VideoKind true Live None]) camera_session))
  = true.
Proof.
  assert (H : one_video_track camera_session 0 1).
  { split; [reflexivity|]. split; [eexists; reflexivity|].
    exists [0; 1]%nat. split; [reflexivity|]. split; [|reflexivity].
    intros i [<-|[<-|[]]]; simpl; lia. }
  destruct (granted_swap_replaces_video_track camera_session 0 1
              (mkTrack VideoKind true Live None) H eq_refl)
    as ((_ & A & _ & _ & _ & B) & _).
  split; [exact A | exact B].
Defined.

Lemma share_and_return_witness :
  let s1 := state_of (toggleScreenShare (Granted [mkTrack VideoKind true Live None])
                                        camera_session) in
  let s2 := state_of (toggleScreenShare (Granted [mkTrack VideoKind true Live None]) s1) in
  isScreenSharing s2 = false /\
  one_video_track s2 0 3 /\
  audio_tracks s2 = audio_tracks camera_session.
Proof.
  assert (H : one_video_track camera_session 0 1).
  { split; [reflexivity|]. split; [eexists; reflexivity|].
    exists [0; 1]%nat. split; [reflexivity|]. split; [|reflexivity].
    intros i [<-|[<-|[]]]; simpl; lia. }
  destruct (share_and_return camera_session 0 1
              (mkTrack VideoKind true Live None) (mkTrack VideoKind true Live None)
              H eq_refl eq_refl eq_refl)
    as (_ & A & B & _ & _ & _ & C).
  split; [exact A|]. split; [exact B | exact C].
Defined.

End TrackSwapExamples.
